(** * The AI-provider retry/fallback engine of thunderbird-sparrow

    A shallow embedding of [backend/core/base.py], [claude_provider.py],
    [gemini_provider.py] and [validation.py], and the properties of the
    retry engine, the error classifier, the model fallback, the JSON
    extraction heuristic and the output validator.

    Conventions of the embedding:
    - a Python [str] is the [string] of its UTF-8 bytes; what the code
      does character by character ([str.lower], [str.strip], [len],
      slices) is defined on the characters these bytes encode;
    - a Python [int] is a [Z]; a finite [float] is the rational [Q] it
      is equal to.  Scaling a float by a power of two is exact as long as
      the result stays in the range of the floats; a rational beyond that
      range stands for the infinite float the product overflows to, and
      what [format] and [time.sleep] make of it is theirs;
    - a call that may raise returns an [outcome]; only exceptions derived
      from [Exception] are modelled;
    - mutable state is passed explicitly, and what the engine does (calls
      of the callable, of the classifier, of the model switch, of
      [time.sleep], and its log lines) is recorded in a trace of events. *)

From Stdlib Require Import Ascii String ZArith QArith Qpower Lia DecimalString.
From stdpp Require Import base strings list gmap.

Local Open Scope string_scope.
Local Open Scope Z_scope.
Local Open Scope list_scope.

(** ** Python strings *)

Module PyStr.

(** [str(n)] for an [int]. *)
Definition str_of_int (n : Z) : string :=
  NilZero.string_of_int (Z.to_int n).

(** The text of the given bytes. *)
Definition bytes (l : list N) : string :=
  fold_right (fun n s => String (ascii_of_N n) s) EmptyString l.

(** The UTF-8 bytes of a code point below 65536. *)
Definition utf8 (cp : N) : string :=
  if (cp <? 128)%N then bytes [cp]
  else if (cp <? 2048)%N
  then bytes [192 + cp / 64; 128 + cp mod 64]%N
  else bytes [224 + cp / 4096; 128 + (cp / 64) mod 64; 128 + cp mod 64]%N.

(** A continuation byte of UTF-8 (binary 10xxxxxx). *)
Definition is_continuation (c : ascii) : bool :=
  let n := nat_of_ascii c in (128 <=? n)%nat && (n <=? 191)%nat.

Definition starts_continued (s : string) : bool :=
  match s with
  | String c _ => is_continuation c
  | EmptyString => false
  end.

(** The characters of a text, each as its bytes: a byte together with
    the continuation bytes that follow it. *)
Fixpoint chars (s : string) : list string :=
  match s with
  | EmptyString => []
  | String c s' =>
      match chars s' with
      | ch :: rest =>
          if starts_continued ch then String c ch :: rest
          else String c EmptyString :: ch :: rest
      | [] => [String c EmptyString]
      end
  end.

(** [''.join(l)]. *)
Definition join (l : list string) : string :=
  fold_right String.append EmptyString l.

(** [len(s)] and [s[:n]], which count characters. *)
Definition py_len (s : string) : nat := length (chars s).
Definition py_take (n : nat) (s : string) : string := join (take n (chars s)).

(** The text without its first [n] bytes. *)
Fixpoint skip_bytes (n : nat) (s : string) : string :=
  match n, s with
  | S n', String _ s' => skip_bytes n' s'
  | _, _ => s
  end.

Definition lower_ascii (c : ascii) : ascii :=
  let n := nat_of_ascii c in
  if ((65 <=? n)%nat && (n <=? 90)%nat)%bool
  then ascii_of_nat (n + 32) else c.

(** One step of [s.lower()]: the byte [c] in front of the lower-cased
    [rest].  The capital letters of ASCII become small ones.  Two
    characters outside ASCII have a lower case with an ASCII letter in
    it: KELVIN SIGN, U+212A (bytes 226 132 170), becomes k, and LATIN
    CAPITAL LETTER I WITH DOT ABOVE, U+0130 (bytes 196 176), becomes i
    followed by U+0307 (bytes 204 135).  The lower case of every other
    character outside ASCII is outside ASCII, as the character is: these
    are left as they are, the code looking only for ASCII text in what
    it has lower-cased. *)
Definition lower_step (c : ascii) (rest : string) : string :=
  if Ascii.eqb c (ascii_of_N 226) && String.prefix (bytes [132; 170]%N) rest
  then String "k" (skip_bytes 2 rest)
  else if Ascii.eqb c (ascii_of_N 196) && String.prefix (bytes [176]%N) rest
  then String "i" (bytes [204; 135]%N +:+ skip_bytes 1 rest)
  else String (lower_ascii c) rest.

(** [s.lower()]. *)
Fixpoint lower (s : string) : string :=
  match s with
  | EmptyString => EmptyString
  | String c s' => lower_step c (lower s')
  end.

(** The bytes lower-casing leaves alone wherever they stand: those of
    ASCII that are no capital letter; and the texts made of them. *)
Definition is_plain (c : ascii) : bool :=
  let n := nat_of_ascii c in
  (n <? 65)%nat || ((90 <? n)%nat && (n <? 128)%nat).

Fixpoint plain (t : string) : bool :=
  match t with
  | EmptyString => true
  | String c t' => is_plain c && plain t'
  end.

(** The characters [str.strip()] and [str.isspace()] take for white
    space, by code point: tab to carriage return, the four separators,
    the space, NEL, the no-break space and the spaces and separators of
    the general punctuation. *)
Definition whitespace : list N :=
  [9; 10; 11; 12; 13; 28; 29; 30; 31; 32; 133; 160; 5760;
   8192; 8193; 8194; 8195; 8196; 8197; 8198; 8199; 8200; 8201; 8202;
   8232; 8233; 8239; 8287; 12288]%N.

(** [ch.isspace()] for one character. *)
Definition is_space (ch : string) : bool :=
  existsb (fun cp => String.eqb ch (utf8 cp)) whitespace.

(** A character as [chars] gives them: its bytes after the first are
    continuation bytes; and one that starts on a byte that is none. *)
Fixpoint continued (s : string) : bool :=
  match s with
  | EmptyString => true
  | String c s' => is_continuation c && continued s'
  end.

Definition is_char (ch : string) : bool :=
  match ch with
  | String _ rest => continued rest
  | EmptyString => false
  end.

Definition is_start (ch : string) : bool :=
  match ch with
  | String c rest => negb (is_continuation c) && continued rest
  | EmptyString => false
  end.

Definition well_split (l : list string) : Prop :=
  match l with
  | [] => True
  | ch :: rest => is_char ch = true /\ Forall (fun c => is_start c = true) rest
  end.

(** [term in s]: [term] occurs in [s] as a substring. *)
Fixpoint contains (term s : string) : bool :=
  String.prefix term s ||
  match s with
  | EmptyString => false
  | String _ s' => contains term s'
  end.

(** [any(term in s for term in terms)]. *)
Definition any_in (terms : list string) (s : string) : bool :=
  existsb (fun term => contains term s) terms.

End PyStr.
Export PyStr.

(** ** Exceptions, log records and the engine's events *)

Inductive ExcClass :=
| ValueError | KeyError | TypeError | RuntimeError | JSONDecodeError
| ValidationError | IndexError | OverflowError | Exception | VendorError.

(** An exception: its class and [str(e)]. *)
Record exn := Exn { exn_class : ExcClass; exn_str : string }.

Inductive outcome (A : Type) :=
| Ok (a : A)
| Raised (e : exn).
Arguments Ok {A} a.
Arguments Raised {A} e.

Inductive Level := debug | info | warning | error.

(** One line handed to [self.log(level, message)]. *)
Record LogRecord := Log { log_level : Level; log_message : string }.

Inductive ErrorType :=
| rate_limit | authentication | content_policy | token_limit
| model_unavailable | timeout | api_error.

#[global] Instance ErrorType_eq_dec : EqDecision ErrorType.
Proof. solve_decision. Defined.

Inductive Event :=
| ECall                                   (* api_call_func() *)
| EClassify (ty : ErrorType) (retry : bool) (* _handle_api_error returned *)
| ESwitch (switched : bool)               (* _switch_to_next_model returned *)
| ESleep (delay : Q)                      (* time.sleep(delay) returned *)
| ELog (line : LogRecord).                (* self.log(level, message) *)

(** ** [_handle_api_error] *)

Module Classifier.

(** The [error_patterns] dict, in insertion order. *)
Definition error_patterns (attempt max_retries : Z)
  : list (ErrorType * (list string * bool * Level)) :=
  [ (rate_limit, (["rate_limit"; "quota"; "billing"; "payment"], true, warning));
    (authentication,
      (["authentication"; "api_key"; "unauthorized"; "forbidden"], false, error));
    (content_policy,
      (["content_policy"; "harmful"; "safety"; "violation"], false, error));
    (token_limit, (["token"], false, error));
    (model_unavailable, (["model"], true, info));
    (timeout, (["timeout"; "deadline"; "timed out"], attempt <? max_retries, warning)) ].

(** The log line of a matched pattern (the if/elif chain). *)
Definition pattern_log (error_type : ErrorType) (log_level : Level)
    (provider_name err : string) (attempt max_retries : Z) : list LogRecord :=
  match error_type with
  | rate_limit =>
      [Log log_level (provider_name +:+ " rate limit/quota hit on attempt "
                       +:+ str_of_int attempt +:+ "/" +:+ str_of_int max_retries)]
  | authentication =>
      [Log log_level (provider_name +:+ " authentication failed: " +:+ err)]
  | content_policy =>
      [Log log_level (provider_name +:+ " content policy violation: " +:+ err)]
  | token_limit =>
      [Log log_level (provider_name +:+ " token limit exceeded: " +:+ err)]
  | model_unavailable =>
      [Log log_level (provider_name +:+ " model unavailable, will try fallback")]
  | timeout =>
      [Log log_level (provider_name +:+ " request timeout on attempt "
                       +:+ str_of_int attempt +:+ "/" +:+ str_of_int max_retries)]
  | api_error => []
  end.

(** The [for ... in error_patterns.items()] loop over the lower-cased
    message, with its two [continue]s. *)
Fixpoint scan_patterns (patterns : list (ErrorType * (list string * bool * Level)))
    (error_msg : string) : option (bool * ErrorType * Level) :=
  match patterns with
  | [] => None
  | (error_type, (terms, should_retry, log_level)) :: rest =>
      if any_in terms error_msg then
        if bool_decide (error_type = token_limit)
           && negb (any_in ["limit"; "exceeded"] error_msg)
        then scan_patterns rest error_msg
        else if bool_decide (error_type = model_unavailable)
                && negb (any_in ["not found"; "unavailable"; "not available"] error_msg)
        then scan_patterns rest error_msg
        else Some (should_retry, error_type, log_level)
      else scan_patterns rest error_msg
  end.

(** [_handle_api_error(error, attempt, max_retries, operation, provider_name)]
    where [err] is [str(error)]: the pair [(should_retry, error_type)] and
    the line it logs. *)
Definition _handle_api_error (err : string) (attempt max_retries : Z)
    (operation provider_name : string) : (bool * ErrorType) * list LogRecord :=
  let error_msg := lower err in
  match scan_patterns (error_patterns attempt max_retries) error_msg with
  | Some (should_retry, error_type, log_level) =>
      ((should_retry, error_type),
       pattern_log error_type log_level provider_name err attempt max_retries)
  | None =>
      ((attempt <? max_retries, api_error),
       [Log error (provider_name +:+ " API error on attempt "
                   +:+ str_of_int attempt +:+ ": " +:+ err)])
  end.

(** The classification as the specification words it: a term matches
    when it occurs in the message, letter case ignored. *)
Definition mentions (term message : string) : bool :=
  contains term (lower message).

Definition mentions_any (terms : list string) (message : string) : bool :=
  existsb (fun term => mentions term message) terms.

Definition classify_spec (message : string) (attempts_remain : bool)
  : ErrorType * bool :=
  if mentions_any ["rate_limit"; "quota"; "billing"; "payment"] message
  then (rate_limit, true)
  else if mentions_any ["authentication"; "api_key"; "unauthorized"; "forbidden"] message
  then (authentication, false)
  else if mentions_any ["content_policy"; "harmful"; "safety"; "violation"] message
  then (content_policy, false)
  else if mentions "token" message && mentions_any ["limit"; "exceeded"] message
  then (token_limit, false)
  else if mentions "model" message
          && mentions_any ["not found"; "unavailable"; "not available"] message
  then (model_unavailable, true)
  else if mentions_any ["timeout"; "deadline"; "timed out"] message
  then (timeout, attempts_remain)
  else (api_error, attempts_remain).

(** A generic error: one the classifier puts in no category. *)
Definition generic_error (message : string) : Prop :=
  forall attempt max_retries operation provider_name,
    (_handle_api_error message attempt max_retries
                       operation provider_name).1.2 = api_error.

End Classifier.
Export Classifier.

(** ** [_get_retry_delay] and [_execute_with_retry] *)

Module Engine.

(** The delay after a failed attempt: the base delay, doubled with each
    attempt before this one. *)
Definition backoff (attempt : Z) (base_wait_time : Q) : Q :=
  (base_wait_time * 2 ^ (attempt - 1))%Q.

(** [base_wait_time * (2 ** (attempt - 1))] for an attempt of the loop
    ([attempt >= 1]).  The power is an [int], which the product converts
    to a [float]: from [2 ** 1024] on the conversion raises
    [OverflowError], whatever the base delay is.  Below that the product
    is exact, or it overflows to the infinite float, for which the
    rational stands. *)
Definition _get_retry_delay (attempt : Z) (base_wait_time : Q) : outcome Q :=
  if 1025 <=? attempt
  then Raised (Exn OverflowError "int too large to convert to float")
  else Ok (backoff attempt base_wait_time).

(** The [error_messages] dict of the non-retryable error types; [None]
    for a type that is not in the list of non-retryable ones. *)
Definition error_messages (provider_name : string) (error_type : ErrorType)
  : option string :=
  match error_type with
  | authentication =>
      Some ("Invalid or expired " +:+ provider_name +:+ " API key")
  | content_policy =>
      Some ("Prompt violates " +:+ provider_name +:+ "'s content policy")
  | token_limit => Some "Prompt too long - reduce input text length"
  | _ => None
  end.

Section Engine.
Context {St : Type}.

(** What a run leaves behind: the result, the state, the trace. *)
Definition Run (A : Type) : Type := outcome A * St * list Event.

Definition after {A} (events : list Event) (r : Run A) : Run A :=
  let '(o, st, trace) := r in (o, st, events ++ trace).

(** The callable, and the provider's (overridable) model switch. *)
Variable api_call_func : St -> outcome string * St * list LogRecord.
Variable _switch_to_next_model : St -> bool * St * list LogRecord.
(** Python's [format(delay, '.1f')]. *)
Variable fmt_1f : Q -> string.
(** [time.sleep(delay)]: it returns, or it raises (as it does for a
    negative delay and for one too large for its clock). *)
Variable time_sleep : Q -> option exn.

Variable operation : string.
Variable max_retries : Z.
Variable base_wait_time : Q.
Variable provider_name : string.

Definition switch_outcome_log (switched : bool) : LogRecord :=
  if switched
  then Log info ("Switched to fallback model, retrying " +:+ operation)
  else Log warning ("No more fallback models available for " +:+ operation).

Definition retry_log (attempt : Z) (delay : Q) : LogRecord :=
  Log info ("Retrying " +:+ operation +:+ " in " +:+ fmt_1f delay
            +:+ "s (attempt " +:+ str_of_int (attempt + 1) +:+ "/"
            +:+ str_of_int max_retries +:+ ")").

Definition exhausted_message : string :=
  "Failed to complete " +:+ operation +:+ " after "
  +:+ str_of_int max_retries +:+ " attempts".

(** The wait after a failed attempt, which is the computation of the
    delay followed by [time.sleep]: either both return, or one of them
    raises. *)
Definition wait_taken (attempt : Z) : Prop :=
  exists delay,
    _get_retry_delay attempt base_wait_time = Ok delay
    /\ time_sleep delay = None.

Definition wait_raises (attempt : Z) (e : exn) : Prop :=
  _get_retry_delay attempt base_wait_time = Raised e
  \/ exists delay,
      _get_retry_delay attempt base_wait_time = Ok delay
      /\ time_sleep delay = Some e.

(** [if error_type == "model_unavailable":] switch, and log whether
    the switch succeeded. *)
Definition maybe_switch (error_type : ErrorType) (st : St)
  : St * list Event :=
  if bool_decide (error_type = model_unavailable) then
    let '(switched, st', told) := _switch_to_next_model st in
    (st', map ELog told
          ++ [ESwitch switched; ELog (switch_outcome_log switched)])
  else (st, []).

(** The body of [for attempt in range(1, max_retries + 1)], with
    [remaining] iterations left, the current one included.  The delay is
    computed, and [time.sleep] is called, inside the [except] block:
    what they raise leaves the loop, after the model switch if there was
    one. *)
Fixpoint retry_loop (remaining : nat) (attempt : Z) (st : St) : Run string :=
  match remaining with
  | O => (Raised (Exn Exception ("Unexpected error in " +:+ operation)), st, [])
  | S remaining' =>
      match api_call_func st with
      | (Ok text, st1, said) => (Ok text, st1, ECall :: map ELog said)
      | (Raised e, st1, said) =>
          let '((should_retry, error_type), logged) :=
            _handle_api_error (exn_str e) attempt max_retries
                              operation provider_name in
          let seen := ECall :: map ELog said ++ map ELog logged
                      ++ [EClassify error_type should_retry] in
          match error_messages provider_name error_type with
          | Some message => (Raised (Exn ValueError message), st1, seen)
          | None =>
              if should_retry && (attempt <? max_retries) then
                let '(st2, switching) := maybe_switch error_type st1 in
                match _get_retry_delay attempt base_wait_time with
                | Raised e' => (Raised e', st2, seen ++ switching)
                | Ok delay =>
                    match time_sleep delay with
                    | Some e' =>
                        (Raised e', st2,
                         seen ++ switching ++ [ELog (retry_log attempt delay)])
                    | None =>
                        after (seen ++ switching
                               ++ [ELog (retry_log attempt delay); ESleep delay])
                              (retry_loop remaining' (attempt + 1) st2)
                    end
                end
              else if attempt >=? max_retries then
                (Raised (Exn Exception exhausted_message), st1,
                 seen ++ [ELog (Log error exhausted_message)])
              else after seen (retry_loop remaining' (attempt + 1) st1)
          end
      end
  end.

Definition _execute_with_retry (st : St) : Run string :=
  retry_loop (Z.to_nat max_retries) 1 st.

End Engine.

(** Observations on a trace. *)
Definition is_call (e : Event) : bool :=
  match e with ECall => true | _ => false end.
Definition is_log (e : Event) : bool :=
  match e with ELog _ => true | _ => false end.
Definition calls (trace : list Event) : nat :=
  length (List.filter is_call trace).
Definition sleeps (trace : list Event) : list Q :=
  omap (fun e => match e with ESleep d => Some d | _ => None end) trace.
Definition switches (trace : list Event) : list bool :=
  omap (fun e => match e with ESwitch b => Some b | _ => None end) trace.

(** A stretch of a trace in which the engine only logs. *)
Definition logs_only (events : list Event) : Prop :=
  Forall (fun e => is_log e = true) events.

End Engine.
Export Engine.

(** ** The provider adapters' model fallback *)

(** [lst.index(x)] when [x in lst]. *)
Fixpoint list_index (model : string) (models : list string) : option nat :=
  match models with
  | [] => None
  | m :: rest =>
      if String.eqb m model then Some O else S <$> list_index model rest
  end.

(** [lst[i]] for an index that is in range. *)
Definition model_at (models : list string) (i : nat) : string :=
  default EmptyString (models !! i).

Module Claude.

Record ClaudeProvider := {
  primary_model : string;
  available_models : list string;
  current_model_index : nat
}.

Definition claude_models : list string :=
  [ "claude-3-5-sonnet-20241022";
    "claude-3-5-haiku-20241022";
    "claude-3-opus-20240229" ].

Definition with_index (p : ClaudeProvider) (i : nat) : ClaudeProvider :=
  {| primary_model := primary_model p;
     available_models := available_models p;
     current_model_index := i |}.

(** The state [__init__] leaves, once the client is built. *)
Definition init (model : string) : ClaudeProvider * list LogRecord :=
  match list_index model claude_models with
  | Some i =>
      ({| primary_model := model; available_models := claude_models;
          current_model_index := i |},
       [Log info ("Using primary model from config: " +:+ model)])
  | None =>
      ({| primary_model := model; available_models := claude_models;
          current_model_index := 0 |},
       [Log warning ("Model '" +:+ model
                     +:+ "' not in available models, using fallback: "
                     +:+ model_at claude_models 0)])
  end.

(** [for i in range(len(self.available_models))]. *)
Fixpoint switch_loop (indices : list nat) (p : ClaudeProvider)
  : bool * ClaudeProvider * list LogRecord :=
  match indices with
  | [] => (false, p, [Log warning "No more Claude models available for fallback"])
  | i :: rest =>
      if (current_model_index p <? i)%nat then
        let old_model := model_at (available_models p) (current_model_index p) in
        let p' := with_index p i in
        let new_model := model_at (available_models p') (current_model_index p') in
        (true, p',
         [Log info ("Switching Claude from " +:+ old_model
                    +:+ " to fallback model: " +:+ new_model)])
      else switch_loop rest p
  end.

Definition _switch_to_next_model (p : ClaudeProvider)
  : bool * ClaudeProvider * list LogRecord :=
  switch_loop (seq 0 (length (available_models p))) p.

End Claude.

Module Gemini.

Record GeminiProvider := {
  primary_model : string;
  available_models : list string;
  current_model_index : nat;
  model_instance : option string   (* the model the client was built for *)
}.

Definition gemini_models : list string :=
  [ "gemini-1.5-pro"; "gemini-1.5-flash"; "gemini-1.0-pro" ].

Definition with_index (p : GeminiProvider) (i : nat) : GeminiProvider :=
  {| primary_model := primary_model p;
     available_models := available_models p;
     current_model_index := i;
     model_instance := model_instance p |}.

Definition with_instance (p : GeminiProvider) (m : string) : GeminiProvider :=
  {| primary_model := primary_model p;
     available_models := available_models p;
     current_model_index := current_model_index p;
     model_instance := Some m |}.

Section Gemini.
(** The vendor SDK: building a client for a model name succeeds or
    raises, depending on the outside world [Env]. *)
Context {Env : Type}.
Variable GenerativeModel : string -> Env -> option exn * Env.

Definition _initialize_model (w : GeminiProvider * Env)
  : outcome unit * (GeminiProvider * Env) * list LogRecord :=
  let '(p, env) := w in
  match available_models p !! current_model_index p with
  | None =>
      let e := Exn IndexError "list index out of range" in
      (Raised e, w,
       [Log error ("Failed to initialize Gemini model: " +:+ exn_str e)])
  | Some current_model =>
      match GenerativeModel current_model env with
      | (None, env') =>
          (Ok tt, (with_instance p current_model, env'),
           [Log info ("Gemini model initialized: " +:+ current_model)])
      | (Some e, env') =>
          (Raised e, (p, env'),
           [Log error ("Failed to initialize Gemini model: " +:+ exn_str e)])
      end
  end.

(** The state [__init__] leaves, or the exception of the first
    [_initialize_model]. *)
Definition init (model : string) (env : Env)
  : outcome unit * (GeminiProvider * Env) * list LogRecord :=
  let '(i, line) :=
    match list_index model gemini_models with
    | Some i => (i, Log info ("Using primary model from config: " +:+ model))
    | None =>
        (O, Log warning ("Model '" +:+ model
                         +:+ "' not in available models, using fallback: "
                         +:+ model_at gemini_models 0))
    end in
  let p := {| primary_model := model; available_models := gemini_models;
              current_model_index := i; model_instance := None |} in
  let '(o, w, lines) := _initialize_model (p, env) in
  (o, w, line :: lines).

(** [for i in range(len(self.available_models))], where a failed
    re-initialisation [continue]s with the next index. *)
Fixpoint switch_loop (indices : list nat) (w : GeminiProvider * Env)
  : bool * (GeminiProvider * Env) * list LogRecord :=
  match indices with
  | [] => (false, w, [Log warning "No more Gemini models available for fallback"])
  | i :: rest =>
      if (current_model_index w.1 <? i)%nat then
        let old_model := model_at (available_models w.1) (current_model_index w.1) in
        let p' := with_index w.1 i in
        let new_model := model_at (available_models p') (current_model_index p') in
        let line := Log info ("Switching Gemini from " +:+ old_model
                              +:+ " to fallback model: " +:+ new_model) in
        match _initialize_model (p', w.2) with
        | (Ok _, w', lines) => (true, w', line :: lines)
        | (Raised e, w', lines) =>
            let '(b, w'', more) := switch_loop rest w' in
            (b, w'',
             line :: lines
             ++ Log error ("Failed to initialize fallback model " +:+ new_model
                           +:+ ": " +:+ exn_str e) :: more)
        end
      else switch_loop rest w
  end.

Definition _switch_to_next_model (w : GeminiProvider * Env)
  : bool * (GeminiProvider * Env) * list LogRecord :=
  switch_loop (seq 0 (length (available_models w.1))) w.

End Gemini.

End Gemini.

(** [_switch_to_next_model] called [n] times in a row: the results, in
    order, and the final state. *)
Fixpoint call_times {St : Type} (switch : St -> bool * St * list LogRecord)
    (n : nat) (st : St) : list bool * St :=
  match n with
  | O => ([], st)
  | S n' =>
      let '(b, st', _) := switch st in
      let '(bs, st'') := call_times switch n' st' in
      (b :: bs, st'')
  end.

(** The indices the adapter goes through over [n] calls, the starting one
    first. *)
Fixpoint index_history {St : Type} (switch : St -> bool * St * list LogRecord)
    (index : St -> nat) (n : nat) (st : St) : list nat :=
  index st ::
  match n with
  | O => []
  | S n' => index_history switch index n' (switch st).1.2
  end.

(** ** [_extract_json_from_response]: the regular expression search *)

Module Regex.

(** The fragment of Python's [re] syntax the pattern uses. *)
Inductive regex :=
| Chr (c : ascii)              (* an escaped literal, [\{] *)
| NoneOf (cs : list ascii)     (* a negated class, [[^{}]] *)
| Seq (r1 r2 : regex)
| Star (r : regex).            (* greedy [*] *)

Definition in_class (c : ascii) (cs : list ascii) : bool :=
  existsb (Ascii.eqb c) cs.

(** Backtracking matching as [re] does it: [bt r s k] matches [r] at the
    start of [s] and hands the rest to the continuation [k]; a greedy
    star first tries one more round of its body and falls back to the
    continuation.  The result is the text left after the whole match. *)
Fixpoint bt (r : regex) (s : string) (k : string -> option string)
  : option string :=
  match r with
  | Chr c =>
      match s with
      | String d s' => if Ascii.eqb c d then k s' else None
      | EmptyString => None
      end
  | NoneOf cs =>
      match s with
      | String d s' => if in_class d cs then None else k s'
      | EmptyString => None
      end
  | Seq r1 r2 => bt r1 s (fun s' => bt r2 s' k)
  | Star r1 =>
      (fix star (fuel : nat) (s : string) : option string :=
         match fuel with
         | O => k s
         | S fuel' =>
             match bt r1 s (fun s' =>
                      if (String.length s' <? String.length s)%nat
                      then star fuel' s' else None) with
             | Some rest => Some rest
             | None => k s
             end
         end) (String.length s) s
  end.

(** [re.search(r, s)]: the match at the leftmost position that has one;
    [group()] is the text matched. *)
Fixpoint re_search (r : regex) (s : string) : option string :=
  match bt r s Some with
  | Some rest =>
      Some (String.substring 0 (String.length s - String.length rest) s)
  | None =>
      match s with
      | EmptyString => None
      | String _ s' => re_search r s'
      end
  end.

Definition not_brace : regex := NoneOf ["{"; "}"]%char.

(** The pattern of the source: an opening brace, a run of non-braces,
    any number of groups (brace, non-braces, closing brace, non-braces),
    a closing brace. *)
Definition json_re : regex :=
  Seq (Chr "{")
    (Seq (Star not_brace)
       (Seq (Star (Seq (Chr "{")
                     (Seq (Star not_brace)
                        (Seq (Chr "}") (Star not_brace)))))
          (Chr "}"))).

Definition _extract_json_from_response (response : string)
  : outcome string * list LogRecord :=
  match re_search json_re response with
  | Some json_match => (Ok json_match, [])
  | None =>
      (Raised (Exn ValueError "No JSON object found in response"),
       [Log error "No JSON object found in response"])
  end.

(** The texts a pattern matches. *)
Inductive matches : regex -> string -> Prop :=
| m_chr c : matches (Chr c) (String c EmptyString)
| m_none_of cs c : in_class c cs = false -> matches (NoneOf cs) (String c EmptyString)
| m_seq r1 r2 s1 s2 :
    matches r1 s1 -> matches r2 s2 -> matches (Seq r1 r2) (s1 +:+ s2)
| m_star_nil r : matches (Star r) EmptyString
| m_star_more r s1 s2 :
    matches r s1 -> matches (Star r) s2 -> matches (Star r) (s1 +:+ s2).

(** A brace-delimited object as the specification words it: an opening
    brace, a closing brace, and in between text whose braces nest at
    most one level deep and are balanced. *)
Fixpoint flat_body (depth : nat) (s : string) : bool :=
  match s with
  | EmptyString => (depth =? 0)%nat
  | String c s' =>
      if Ascii.eqb c "{" then
        match depth with O => flat_body 1 s' | _ => false end
      else if Ascii.eqb c "}" then
        match depth with S O => flat_body 0 s' | _ => false end
      else flat_body depth s'
  end.

Definition brace_object (s : string) : Prop :=
  exists body, s = "{" +:+ body +:+ "}" /\ flat_body 0 body = true.

Definition has_brace_object (s : string) : Prop :=
  exists before object rest,
    s = before +:+ object +:+ rest /\ brace_object object.

End Regex.
Export Regex.

Definition quote : string := String (ascii_of_nat 34) EmptyString.

(** [prefix {"a":1,"b":{"c":2}} suffix] *)
Definition sample_reply : string :=
  "prefix {" +:+ quote +:+ "a" +:+ quote +:+ ":1," +:+ quote +:+ "b" +:+ quote
  +:+ ":{" +:+ quote +:+ "c" +:+ quote +:+ ":2}} suffix".

(** [{"a":1,"b":{"c":2}}] *)
Definition sample_object : string :=
  "{" +:+ quote +:+ "a" +:+ quote +:+ ":1," +:+ quote +:+ "b" +:+ quote
  +:+ ":{" +:+ quote +:+ "c" +:+ quote +:+ ":2}}".

(** ** JSON values and the output validator *)

(** What [json.loads] returns; an object is a [dict] keyed by strings. *)
#[warnings="-register-all"]
Inductive json :=
| JNull
| JBool (b : bool)
| JInt (n : Z)
| JFloat (q : Q)
| JStr (s : string)
| JArr (items : list json)
| JObj (fields : gmap string json).

(** [type(data).__name__] of a parsed value. *)
Definition json_type (data : json) : string :=
  match data with
  | JNull => "NoneType"
  | JBool _ => "bool"
  | JInt _ => "int"
  | JFloat _ => "float"
  | JStr _ => "str"
  | JArr _ => "list"
  | JObj _ => "dict"
  end.

(** What unpacking a value that is no dict into the keyword arguments of
    the class [class_name] raises.  CPython puts the module path of the
    class, which depends on how the package was imported, in front of
    this text; the path is left out. *)
Definition not_a_mapping (class_name : string) (data : json) : exn :=
  Exn TypeError (class_name +:+ "() argument after ** must be a mapping, not "
                 +:+ json_type data).

Module Validation.

(** The models are those of [validation.py].  What the constructor of a
    pydantic model does with its keyword arguments is the library's: a
    required field must be present, an optional one may be absent or
    [None], a list field with a default may be absent and otherwise holds
    a list of objects of the item model, and keys the model does not name
    are ignored. *)

(** The annotation of a field of a pydantic model: [str = Field(...)],
    [Optional[str] = Field(None)], [Optional[float] = Field(None)]. *)
Inductive FieldType := Str | OptionalStr | OptionalFloat.

Definition Model : Type := list (string * FieldType).

Definition WorkRequest : Model :=
  [ ("title", Str); ("description", Str); ("status", Str);
    ("asset_id", OptionalStr); ("work_type_id", OptionalStr);
    ("assigned_to", OptionalStr) ].

Definition WorkOrder : Model :=
  [ ("title", Str); ("description", Str); ("status", Str);
    ("asset_id", OptionalStr); ("work_type_id", OptionalStr);
    ("assigned_to", OptionalStr); ("comment", OptionalStr);
    ("user_query", OptionalStr) ].

Definition InspectionTask : Model :=
  [ ("title", Str); ("description", Str); ("status", Str);
    ("asset_id", OptionalStr); ("assigned_to", OptionalStr) ].

Definition GeneralTask : Model :=
  [ ("title", Str); ("description", Str); ("status", Str);
    ("assigned_to", OptionalStr) ].

Definition ClosingCommentOutput : Model :=
  [ ("closing_comment", Str); ("actual_downtime_hours", OptionalFloat) ].

(** [WorkItemTriagingOutput]: four lists of items, each defaulting to
    the empty list. *)
Definition WorkItemTriagingOutput : list (string * Model) :=
  [ ("work_requests", WorkRequest); ("work_orders", WorkOrder);
    ("inspection_tasks", InspectionTask); ("general_tasks", GeneralTask) ].

(** One entry of a pydantic validation error: where, and what. *)
Inductive Fault := Missing | WrongType.
Definition FieldError : Type := list string * Fault.

Section Validation.
(** pydantic's own rules, which differ between its versions: the
    values it takes for a [str] and for a [float], and the text of a
    validation error. *)
Variable str_ok : json -> bool.
Variable float_ok : json -> bool.
Variable describe : list FieldError -> string.

Definition check_field (obj : gmap string json) (f : string * FieldType)
  : list FieldError :=
  match f.2, obj !! f.1 with
  | Str, None => [([f.1], Missing)]
  | Str, Some v => if str_ok v then [] else [([f.1], WrongType)]
  | OptionalStr, (None | Some JNull) => []
  | OptionalStr, Some v => if str_ok v then [] else [([f.1], WrongType)]
  | OptionalFloat, (None | Some JNull) => []
  | OptionalFloat, Some v => if float_ok v then [] else [([f.1], WrongType)]
  end.

(** Validation of a value against a model with scalar fields; keys
    the model does not name are ignored. *)
Definition check_model (m : Model) (v : json) : list FieldError :=
  match v with
  | JObj obj => flat_map (check_field obj) m
  | _ => [([], WrongType)]
  end.

Definition under (name : string) (e : FieldError) : FieldError :=
  (name :: e.1, e.2).

(** Validation of a [List[m]] field with [default_factory=list]. *)
Definition check_list (obj : gmap string json) (f : string * Model)
  : list FieldError :=
  match obj !! f.1 with
  | None => []
  | Some (JArr items) => under f.1 <$> flat_map (check_model f.2) items
  | Some _ => [([f.1], WrongType)]
  end.

Definition construct (errors : list FieldError) : outcome unit :=
  match errors with
  | [] => Ok tt
  | _ => Raised (Exn ValidationError (describe errors))
  end.

(** The constructor [WorkItemTriagingOutput] applied to the unpacked dict. *)
Definition new_WorkItemTriagingOutput (data : json) : outcome unit :=
  match data with
  | JObj obj => construct (flat_map (check_list obj) WorkItemTriagingOutput)
  | _ => Raised (not_a_mapping "WorkItemTriagingOutput" data)
  end.

(** The constructor [ClosingCommentOutput] applied to the unpacked dict. *)
Definition new_ClosingCommentOutput (data : json) : outcome unit :=
  match data with
  | JObj obj => construct (flat_map (check_field obj) ClosingCommentOutput)
  | _ => Raised (not_a_mapping "ClosingCommentOutput" data)
  end.

(** [try: ...; return True / except Exception as e: log; return False] *)
Definition guarded (test_id : string) (built : outcome unit)
  : outcome bool * list LogRecord :=
  match built with
  | Ok _ => (Ok true, [])
  | Raised e =>
      (Ok false,
       [Log error ("Schema validation failed for " +:+ test_id
                   +:+ ": " +:+ exn_str e)])
  end.

Definition validate_work_triaging_output (data : json) (test_id : string)
  : outcome bool * list LogRecord :=
  guarded test_id (new_WorkItemTriagingOutput data).

Definition validate_closing_comment_output (data : json) (test_id : string)
  : outcome bool * list LogRecord :=
  guarded test_id (new_ClosingCommentOutput data).

Definition validate_output (data : json) (output_type test_id : string)
  : outcome bool * list LogRecord :=
  if String.eqb output_type "work_triaging" then
    validate_work_triaging_output data test_id
  else if String.eqb output_type "closing_comment" then
    validate_closing_comment_output data test_id
  else (Ok false, [Log error ("Unknown output type: " +:+ output_type)]).

End Validation.

Definition obj (fields : list (string * json)) : json :=
  JObj (list_to_map fields).

(** The object of the specification's example, and the same object
    without the status of its work request. *)
Definition sample_triage : json :=
  obj [ ("work_requests",
          JArr [obj [("title", JStr "t"); ("description", JStr "d");
                     ("status", JStr "pending")]]);
        ("work_orders", JArr []); ("inspection_tasks", JArr []);
        ("general_tasks", JArr []) ].

Definition sample_triage_no_status : json :=
  obj [ ("work_requests",
          JArr [obj [("title", JStr "t"); ("description", JStr "d")]]);
        ("work_orders", JArr []); ("inspection_tasks", JArr []);
        ("general_tasks", JArr []) ].

End Validation.
Export Validation.

(** ** The two operations of a provider *)

Module Operations.

Section Monad.
Context {St : Type}.

(** A method of the provider: it reads and updates the state, leaves a
    trace, and returns or raises. *)
Definition Op (A : Type) : Type := St -> outcome A * St * list Event.

Definition ret {A} (a : A) : Op A := fun st => (Ok a, st, []).

Definition raise {A} (e : exn) : Op A := fun st => (Raised e, st, []).

Definition bind {A B} (m : Op A) (f : A -> Op B) : Op B :=
  fun st =>
    match m st with
    | (Ok a, st1, trace) => after trace (f a st1)
    | (Raised e, st1, trace) => (Raised e, st1, trace)
    end.

(** [try: m / except Exception as e: handler e] *)
Definition try_except {A} (m : Op A) (handler : exn -> Op A) : Op A :=
  fun st =>
    match m st with
    | (Ok a, st1, trace) => (Ok a, st1, trace)
    | (Raised e, st1, trace) => after trace (handler e st1)
    end.

Definition log (level : Level) (message : string) : Op unit :=
  fun st => (Ok tt, st, [ELog (Log level message)]).

(** A computation without state that only logs. *)
Definition logging {A} (r : outcome A * list LogRecord) : Op A :=
  fun st => (r.1, st, map ELog r.2).

Definition read {A} (f : St -> A) : Op A := fun st => (Ok (f st), st, []).
End Monad.

#[local] Notation "x <- m ;; k" := (bind m (fun x => k))
  (at level 100, m at next level, right associativity).
#[local] Notation "m ;;; k" := (bind m (fun _ => k))
  (at level 100, right associativity).

(** [str(test_id)], [test_id] being a string or [None]. *)
Definition str_of_test_id (test_id : option string) : string :=
  default "None" test_id.

(** ['closing_comment' in data] for parsed JSON. *)
Definition has_closing_comment (data : json) : outcome bool :=
  match data with
  | JObj fields => Ok (bool_decide (is_Some (fields !! "closing_comment")))
  | JArr items =>
      Ok (existsb (fun v => match v with
                            | JStr s => String.eqb s "closing_comment"
                            | _ => false
                            end) items)
  | JStr s => Ok (contains "closing_comment" s)
  | _ => Raised (Exn TypeError ("argument of type '" +:+ json_type data
                                +:+ "' is not iterable"))
  end.

(** The fallback value of [generate_closing_comment]. *)
Definition soft_default : json :=
  obj [ ("closing_comment", JStr "Error generating closing comment");
        ("actual_downtime_hours", JNull) ].

Section Provider.
Context {St : Type}.

(** What differs between the two adapters. *)
Variable provider_name : string.
Variable vendor_call : string -> St -> outcome string * St * list LogRecord.
Variable _switch_to_next_model : St -> bool * St * list LogRecord.

(** The outside world and the libraries. *)
Variable _prompts : gmap string (gmap string string).
Variable format_text : string -> string -> outcome string.
Variable json_loads : string -> outcome json.
Variable write_raw : option string -> string -> string -> St -> option exn * St.
Variable now : St -> Q.
Variable fmt_1f : Q -> string.
Variable time_sleep : Q -> option exn.
Variable str_ok float_ok : json -> bool.
Variable describe : list FieldError -> string.

Definition get_prompt (prompt_type text : string) : Op (St:=St) string :=
  match _prompts !! prompt_type with
  | None =>
      let message := "Prompt type '" +:+ prompt_type +:+ "' not found" in
      log error message ;;;
      raise (Exn KeyError (quote +:+ message +:+ quote))
  | Some entry =>
      match
        match entry !! "prompt" with
        | None => Raised (Exn KeyError "'prompt'")
        | Some template => format_text template text
        end
      with
      | Ok prompt => ret prompt
      | Raised e =>
          match exn_class e with
          | KeyError =>
              log error ("Missing template variable in prompt '"
                         +:+ prompt_type +:+ "': " +:+ exn_str e) ;;;
              raise (Exn ValueError ("Prompt template error: " +:+ exn_str e))
          | _ =>
              log error ("Failed to format prompt '" +:+ prompt_type
                         +:+ "': " +:+ exn_str e) ;;;
              raise (Exn ValueError ("Prompt formatting error: " +:+ exn_str e))
          end
      end
  end.

Definition _save_raw_llm_output (test_id : option string)
    (prompt_type raw_response : string) : Op (St:=St) unit :=
  fun st =>
    match write_raw test_id prompt_type raw_response st with
    | (None, st1) => (Ok tt, st1, [])
    | (Some e, st1) =>
        (Ok tt, st1,
         [ELog (Log error ("Failed to save raw LLM output: " +:+ exn_str e))])
    end.

Definition _validate_json_structure (data : json) : Op (St:=St) bool :=
  is_comment <- logging (has_closing_comment data, []) ;;
  let output_type :=
    if is_comment : bool then "closing_comment" else "work_triaging" in
  logging (validate_output str_ok float_ok describe
                           data output_type "validation_check").

Definition _log_api_success (operation : string) (duration : Q)
  : Op (St:=St) unit :=
  log info (operation +:+ " | Duration: " +:+ fmt_1f duration +:+ "s").

Definition _process_ai_response (response operation : string)
    (test_id : option string) (start_time : option Q)
    (validate_structure : bool) : Op (St:=St) json :=
  _save_raw_llm_output test_id operation response ;;;
  json_text <- logging (_extract_json_from_response response) ;;
  result <- logging (json_loads json_text, []) ;;
  (if validate_structure then
     valid <- _validate_json_structure result ;;
     if valid : bool then ret tt
     else log error "Invalid JSON structure in response" ;;;
          raise (Exn ValueError "Invalid JSON structure in response")
   else ret tt) ;;;
  (match start_time with
   | Some t =>
       if Qeq_bool t 0 then ret tt
       else stop <- read now ;; _log_api_success operation (stop - t)%Q
   | None => ret tt
   end) ;;;
  ret result.

(** [_make_api_call]: the vendor call under the retry engine, with the
    engine's default [max_retries=3] and [base_wait_time=1.0]. *)
Definition _make_api_call (prompt operation : string)
    (test_id : option string) : Op (St:=St) string :=
  _execute_with_retry (vendor_call prompt) _switch_to_next_model fmt_1f time_sleep
                      operation 3 1 provider_name.

(** The body of the [try] block of both operations. *)
Definition guarded_steps (operation : string) (validate_structure : bool)
    (prompt : string) (test_id : option string) : Op (St:=St) json :=
  start_time <- read now ;;
  response <- _make_api_call prompt operation test_id ;;
  _process_ai_response response operation test_id
                       (Some start_time) validate_structure.

Definition analyze_work_intent (text : string) (test_id : option string)
  : Op (St:=St) json :=
  prompt <- get_prompt "work_triaging" text ;;
  try_except
    (guarded_steps "ANALYZE_WORK_INTENT" true prompt test_id)
    (fun e =>
       log error ("Failed to analyze work intent: " +:+ exn_str e) ;;;
       raise e).

Definition generate_closing_comment (text : string) (test_id : option string)
  : Op (St:=St) json :=
  prompt <- get_prompt "closing_comment" text ;;
  try_except
    (guarded_steps "GENERATE_CLOSING_COMMENT" false prompt test_id)
    (fun e =>
       log error ("Failed to generate closing comment: " +:+ exn_str e) ;;;
       ret soft_default).

(** The failures of a step after the prompt was built, as the
    specification lists them: the API call fails for good (a fatal
    error or the retries exhausted), no JSON object is found in the
    reply, or the object found does not parse. *)
Inductive step_fails (operation prompt : string) (test_id : option string)
    (st : St) : exn -> Prop :=
| api_call_fails e st1 trace :
    _make_api_call prompt operation test_id st = (Raised e, st1, trace) ->
    step_fails operation prompt test_id st e
| extraction_fails response st1 trace :
    _make_api_call prompt operation test_id st = (Ok response, st1, trace) ->
    re_search json_re response = None ->
    step_fails operation prompt test_id st
               (Exn ValueError "No JSON object found in response")
| parsing_fails response st1 trace json_text e :
    _make_api_call prompt operation test_id st = (Ok response, st1, trace) ->
    re_search json_re response = Some json_text ->
    json_loads json_text = Raised e ->
    step_fails operation prompt test_id st e.

End Provider.

End Operations.
Export Operations.

(** ** The two adapters as instances of the operations *)

Module Adapters.

Section Claude.
Context {Env : Type}.
(** [client.messages.create(...)] and the extraction of its text. *)
Variable messages_create : string -> string -> Env -> outcome string * Env.

Definition make_claude_call (prompt : string)
    (w : Claude.ClaudeProvider * Env)
  : outcome string * (Claude.ClaudeProvider * Env) * list LogRecord :=
  match Claude.available_models w.1 !! Claude.current_model_index w.1 with
  | None => (Raised (Exn IndexError "list index out of range"), w, [])
  | Some current_model =>
      let '(o, env') := messages_create current_model prompt w.2 in
      (o, (w.1, env'), [])
  end.

Definition claude_switch (w : Claude.ClaudeProvider * Env)
  : bool * (Claude.ClaudeProvider * Env) * list LogRecord :=
  let '(b, p, lines) := Claude._switch_to_next_model w.1 in
  (b, (p, w.2), lines).
End Claude.

Section Gemini.
Context {Env : Type}.
(** [model_instance.generate_content(prompt)] and its [text]. *)
Variable generate_content : string -> string -> Env -> outcome string * Env.

Definition make_gemini_call (prompt : string)
    (w : Gemini.GeminiProvider * Env)
  : outcome string * (Gemini.GeminiProvider * Env) * list LogRecord :=
  match Gemini.model_instance w.1 with
  | None =>
      (Raised (Exn TypeError "'NoneType' object has no attribute 'generate_content'"),
       w, [])
  | Some model =>
      match generate_content model prompt w.2 with
      | (Ok EmptyString, env') =>
          (Raised (Exn ValueError "Empty response from Gemini API"),
           (w.1, env'), [Log error "Empty response from Gemini API"])
      | (o, env') => (o, (w.1, env'), [])
      end
  end.
End Gemini.

End Adapters.

(** ** The API configuration and the provider factory *)

Module Config.

(** White space taken off the front, and off the end, of a list of
    characters. *)
Fixpoint lstrip_chars (l : list string) : list string :=
  match l with
  | [] => []
  | ch :: l' => if is_space ch then lstrip_chars l' else l
  end.

Fixpoint rstrip_chars (l : list string) : list string :=
  match l with
  | [] => []
  | ch :: l' =>
      match rstrip_chars l' with
      | [] => if is_space ch then [] else [ch]
      | rest => ch :: rest
      end
  end.

(** [s.lstrip()], [s.rstrip()] and [s.strip()]. *)
Definition lstrip (s : string) : string := join (lstrip_chars (chars s)).
Definition rstrip (s : string) : string := join (rstrip_chars (chars s)).
Definition strip (s : string) : string := lstrip (rstrip s).

(** [s.replace(c, '')] for a text [c] of one character. *)
Fixpoint remove (c : ascii) (s : string) : string :=
  match s with
  | EmptyString => EmptyString
  | String d s' => if Ascii.eqb d c then remove c s' else String d (remove c s')
  end.

Definition newline : ascii := ascii_of_nat 10.

(** [os.getenv(name, default)], the environment being the one
    [load_dotenv()] left. *)
Definition getenv (env : gmap string string) (name default : string) : string :=
  match env !! name with
  | Some value => value
  | None => default
  end.

(** [not s] for a string. *)
Definition is_empty (s : string) : bool :=
  match s with EmptyString => true | _ => false end.

(** A text of white space only, the empty one included. *)
Definition blank (s : string) : bool := forallb is_space (chars s).

(** [c in s] for a character. *)
Fixpoint has_char (c : ascii) (s : string) : bool :=
  match s with
  | EmptyString => false
  | String d s' => Ascii.eqb d c || has_char c s'
  end.

(** The dict [get_api_config] returns. *)
Record ApiConfig := {
  api_key : string;
  model : string;
  provider_class : string
}.

Definition get_api_config (env : gmap string string) (self_model : string)
    (provider_name : string) : outcome ApiConfig * list LogRecord :=
  if String.eqb (lower provider_name) "claude" then
    let api_key := strip (getenv env "CLAUDE_API_KEY" EmptyString) in
    let api_key :=
      if is_empty api_key then api_key
      else remove " " (remove newline api_key) in
    if is_empty api_key then
      (Raised (Exn ValueError
                 "CLAUDE_API_KEY not found in environment variables"),
       [Log error "CLAUDE_API_KEY not found in environment variables for provider 'claude'"])
    else
      (Ok {| api_key := api_key;
             model := getenv env "CLAUDE_MODEL" self_model;
             provider_class := "ClaudeProvider" |}, [])
  else if String.eqb (lower provider_name) "gemini" then
    let api_key := strip (getenv env "GEMINI_API_KEY" EmptyString) in
    if is_empty api_key || String.eqb api_key "your_gemini_api_key_here" then
      (Raised (Exn ValueError
                 "GEMINI_API_KEY not found or not configured in environment variables"),
       [Log error "GEMINI_API_KEY not found or not configured in environment variables for provider 'gemini'"])
    else
      (Ok {| api_key := api_key;
             model := getenv env "GEMINI_MODEL" self_model;
             provider_class := "GeminiProvider" |}, [])
  else
    (Raised (Exn ValueError ("Unsupported provider: " +:+ provider_name)),
     [Log error ("Unsupported provider requested in configuration: "
                 +:+ provider_name)]).

Section Factory.
(** The two constructors, which build the vendor's client and load the
    prompts: they return the provider or raise, and may change the
    outside world. *)
Context {World Provider : Type}.
Variable ClaudeProvider : string -> string -> Q -> World
                          -> outcome Provider * World * list LogRecord.
Variable GeminiProvider : string -> string -> Q -> World
                          -> outcome Provider * World * list LogRecord.
(** [global_config.model] and [global_config.temperature]. *)
Variable config_model : string.
Variable config_temperature : Q.

Definition create_ai_provider (env : gmap string string)
    (provider_name model : string) (temperature : option Q) (w : World)
  : outcome Provider * World * list LogRecord :=
  match get_api_config env config_model provider_name with
  | (Raised e, lines) => (Raised e, w, lines)
  | (Ok cfg, lines) =>
      let temperature :=
        match temperature with
        | None => config_temperature
        | Some t => t
        end in
      if String.eqb (provider_class cfg) "ClaudeProvider" then
        let '(o, w', more) :=
          ClaudeProvider (api_key cfg) model temperature w in
        (o, w', lines ++ more)
      else if String.eqb (provider_class cfg) "GeminiProvider" then
        let '(o, w', more) :=
          GeminiProvider (api_key cfg) model temperature w in
        (o, w', lines ++ more)
      else
        (Raised (Exn ValueError ("Unknown provider class: "
                                 +:+ provider_class cfg)), w, lines)
  end.
End Factory.

End Config.

(** ** The batch over the inputs *)

Module Batch.
Import Operations.

#[local] Notation "x <- m ;; k" := (bind m (fun x => k))
  (at level 100, m at next level, right associativity).

(** An input of the batch, as [load_inputs] builds it from the file of
    inputs: a dict whose values are strings.  What the methods print to
    the console is left out. *)
Definition Input : Type := gmap string string.

(** [f'{i:03d}'] for a count. *)
Definition pad3 (i : nat) : string :=
  let digits := str_of_int (Z.of_nat i) in
  match String.length digits with
  | 1%nat => "00" +:+ digits
  | 2%nat => "0" +:+ digits
  | _ => digits
  end.

(** [text[:100] + "..." if len(text) > 100 else text] *)
Definition input_preview (text : string) : string :=
  if (100 <? py_len text)%nat
  then py_take 100 text +:+ "..."
  else text.

(** [d.get(key, default)] and [d[key]] on an input. *)
Definition get (d : Input) (key default : string) : string :=
  match d !! key with
  | Some v => v
  | None => default
  end.

Definition getitem (d : Input) (key : string) : outcome string :=
  match d !! key with
  | Some v => Ok v
  | None => Raised (Exn KeyError ("'" +:+ key +:+ "'"))
  end.

(** [result['processing_status'] = status]: an item assignment, which
    only a dict takes with a string key. *)
Definition set_status (result : json) (status : string)
  : outcome (gmap string json) :=
  match result with
  | JObj fields => Ok (<["processing_status" := JStr status]> fields)
  | JArr _ =>
      Raised (Exn TypeError "list indices must be integers or slices, not str")
  | JStr _ =>
      Raised (Exn TypeError "'str' object does not support item assignment")
  | JInt _ =>
      Raised (Exn TypeError "'int' object does not support item assignment")
  | JFloat _ =>
      Raised (Exn TypeError "'float' object does not support item assignment")
  | JBool _ =>
      Raised (Exn TypeError "'bool' object does not support item assignment")
  | JNull =>
      Raised (Exn TypeError "'NoneType' object does not support item assignment")
  end.

Definition error_result (test_id : string) (input_data : Input)
    (text : string) (e : exn) : gmap string json :=
  list_to_map
    [ ("test_id", JStr test_id);
      ("test_focus", JStr (get input_data "test_focus" EmptyString));
      ("input_preview", JStr (input_preview text));
      ("processing_status", JStr "failed");
      ("error", JStr (exn_str e)) ].

(** [{k: v for k, v in result.items() if k not in ['processing_status', 'error']}] *)
Definition ai_output (result : gmap string json) : gmap string json :=
  filter (fun kv => kv.1 ∉ ["processing_status"; "error"]) result.

(** One entry of the collated results. *)
Definition entry (original_input : Input) (result : gmap string json)
  : outcome json :=
  match getitem original_input "test_id" with
  | Raised e => Raised e
  | Ok id =>
      match getitem original_input "text" with
      | Raised e => Raised e
      | Ok text =>
          match getitem original_input "test_focus" with
          | Raised e => Raised e
          | Ok test_focus =>
              Ok (obj [ ("id", JStr id); ("input", JStr text);
                        ("system_output", JObj (ai_output result));
                        ("test_focus", JStr test_focus) ])
          end
      end
  end.

(** [for i, result in enumerate(results): ... inputs[i] ...] *)
Fixpoint collate (results : list (gmap string json)) (inputs : list Input)
  : outcome (list json) :=
  match results with
  | [] => Ok []
  | result :: results' =>
      match inputs with
      | [] => Raised (Exn IndexError "list index out of range")
      | original_input :: inputs' =>
          match entry original_input result with
          | Raised e => Raised e
          | Ok item =>
              match collate results' inputs' with
              | Raised e => Raised e
              | Ok items => Ok (item :: items)
              end
          end
      end
  end.

(** [test_id.startswith('cc_')], for an id that does not start with wt_. *)
Definition is_closing (test_id : string) : bool :=
  negb (String.prefix "wt_" test_id) && String.prefix "cc_" test_id.

(** The first loop of [generate_outputs]: the inputs by type, in order. *)
Fixpoint separate (inputs : list Input) : outcome (list Input * list Input) :=
  match inputs with
  | [] => Ok ([], [])
  | input_item :: rest =>
      match getitem input_item "test_id" with
      | Raised e => Raised e
      | Ok test_id =>
          match separate rest with
          | Raised e => Raised e
          | Ok (work_triaging_inputs, closing_comment_inputs) =>
              if String.prefix "wt_" test_id then
                Ok (input_item :: work_triaging_inputs, closing_comment_inputs)
              else if String.prefix "cc_" test_id then
                Ok (work_triaging_inputs, input_item :: closing_comment_inputs)
              else
                Ok (input_item :: work_triaging_inputs, closing_comment_inputs)
          end
      end
  end.

Section Parser.
Context {St : Type}.
(** The two operations of [self.ai_provider]. *)
Variable analyze_work_intent : string -> option string -> Op (St:=St) json.
Variable generate_closing_comment : string -> option string -> Op (St:=St) json.
(** pydantic's rules, as in the validation. *)
Variable str_ok float_ok : json -> bool.
Variable describe : list FieldError -> string.

(** The body of the loop of [process_work_triaging] and of
    [process_closing_comments], which differ by the operation, the
    validator and the prefix of the default id. *)
Definition process_input
    (operation : string -> option string -> Op (St:=St) json)
    (validate : json -> string -> outcome bool * list LogRecord)
    (default_prefix : string) (i : nat) (input_data : Input)
  : Op (St:=St) (gmap string json) :=
  let test_id := get input_data "test_id" (default_prefix +:+ pad3 i) in
  let text := get input_data "text" EmptyString in
  try_except
    (result <- operation text (Some test_id) ;;
     is_valid <- logging (validate result test_id) ;;
     logging (set_status result
                (if is_valid : bool then "success" else "validation_failed"),
              []))
    (fun e => ret (error_result test_id input_data text e)).

(** [for i, input_data in enumerate(inputs, 1): ... results.append(...)] *)
Fixpoint process_from
    (operation : string -> option string -> Op (St:=St) json)
    (validate : json -> string -> outcome bool * list LogRecord)
    (default_prefix : string) (i : nat) (inputs : list Input)
  : Op (St:=St) (list (gmap string json)) :=
  match inputs with
  | [] => ret []
  | input_data :: rest =>
      result <- process_input operation validate default_prefix i input_data ;;
      results <- process_from operation validate default_prefix (S i) rest ;;
      ret (result :: results)
  end.

Definition process_work_triaging (inputs : list Input)
  : Op (St:=St) (list (gmap string json)) :=
  process_from analyze_work_intent
    (validate_work_triaging_output str_ok float_ok describe) "wt_" 1 inputs.

Definition process_closing_comments (inputs : list Input)
  : Op (St:=St) (list (gmap string json)) :=
  process_from generate_closing_comment
    (validate_closing_comment_output str_ok float_ok describe) "cc_" 1 inputs.

Definition generate_outputs (inputs : list Input) : Op (St:=St) json :=
  separated <- logging (separate inputs, []) ;;
  let '(work_triaging_inputs, closing_comment_inputs) := separated in
  work_results <- process_work_triaging work_triaging_inputs ;;
  closing_results <- process_closing_comments closing_comment_inputs ;;
  work_item_triaging_results <-
    logging (collate work_results work_triaging_inputs, []) ;;
  closing_comment_results <-
    logging (collate closing_results closing_comment_inputs, []) ;;
  ret (obj [ ("work_item_triaging", JArr work_item_triaging_results);
             ("closing_comment", JArr closing_comment_results) ]).

End Parser.

(** What the statements read off an input and off a collated entry. *)
Definition complete (input_data : Input) : Prop :=
  is_Some (input_data !! "test_id") /\ is_Some (input_data !! "text")
  /\ is_Some (input_data !! "test_focus").

Definition closing_input (input_data : Input) : bool :=
  is_closing (get input_data "test_id" EmptyString).




Definition statuses : list (option json) :=
  [ Some (JStr "success"); Some (JStr "validation_failed");
    Some (JStr "failed") ].

End Batch.

(** ** The schema checks of the metrics *)

Module Metrics.

Section Metrics.
Variable str_ok float_ok : json -> bool.
Variable describe : list FieldError -> string.
(** [str(v)] for a value that is not a string. *)
Variable py_str : json -> string.

(** The text an f-string makes of [result.get('id', 'unknown')]. *)
Definition id_text (result : gmap string json) : string :=
  match result !! "id" with
  | None => "unknown"
  | Some (JStr s) => s
  | Some v => py_str v
  end.

Definition schema_compliant
    (validate : json -> string -> outcome bool * list LogRecord)
    (result : gmap string json) : bool * list LogRecord :=
  match result !! "system_output" with
  | None => (false, [])
  | Some system_output =>
      match validate system_output (id_text result) with
      | (Ok b, lines) => (b, lines)
      | (Raised _, lines) => (false, lines)
      end
  end.

Definition _is_wt_schema_compliant (result : gmap string json)
  : bool * list LogRecord :=
  schema_compliant (validate_work_triaging_output str_ok float_ok describe)
                   result.

Definition _is_cc_schema_compliant (result : gmap string json)
  : bool * list LogRecord :=
  schema_compliant (validate_closing_comment_output str_ok float_ok describe)
                   result.
End Metrics.

(** The truth value Python gives a parsed JSON value. *)
Definition truthy (v : json) : bool :=
  match v with
  | JNull => false
  | JBool b => b
  | JInt n => negb (n =? 0)
  | JFloat q => negb (Qeq_bool q 0)
  | JStr s => negb (String.eqb s EmptyString)
  | JArr items => match items with [] => false | _ => true end
  | JObj fields => negb (bool_decide (fields = ∅))
  end.

(** [if output.get(key):] *)
Definition holds (output : gmap string json) (key : string) : bool :=
  match output !! key with
  | Some v => truthy v
  | None => false
  end.

Definition _extract_category (output : gmap string json) : string :=
  if holds output "work_requests" then "work_request"
  else if holds output "work_orders" then "work_order"
  else if holds output "inspection_tasks" then "inspection_task"
  else if holds output "general_tasks" then "general_task"
  else "unknown".

End Metrics.

(** ** The check of the configuration values *)

Module ConfigValues.

(** The fields of [SimpleConfig] as [load_from_yaml] sets them: whatever
    the YAML file holds, a YAML value being null, a boolean, a number, a
    string, a list or a mapping. *)
Record SimpleConfig := {
  ai_provider : json;
  model : json;
  temperature : json;
  parallel_processing : json;
  validate_outputs : json;
  inputs_dir : json;
  outputs_dir : json;
  logs_dir : json
}.

(** The number a value is in a comparison with a float, a boolean
    counting as 0 or 1; the other values do not compare. *)
Definition as_number (v : json) : option Q :=
  match v with
  | JInt n => Some (inject_Z n)
  | JFloat q => Some q
  | JBool b => Some (if b then 1%Q else 0%Q)
  | _ => None
  end.

Definition type_name (v : json) : string :=
  match v with
  | JNull => "NoneType"
  | JBool _ => "bool"
  | JInt _ => "int"
  | JFloat _ => "float"
  | JStr _ => "str"
  | JArr _ => "list"
  | JObj _ => "dict"
  end.

(** [isinstance(v, bool)] and [isinstance(v, str) and v]. *)
Definition is_bool (v : json) : bool :=
  match v with JBool _ => true | _ => false end.

Definition is_path (v : json) : bool :=
  match v with JStr s => negb (Config.is_empty s) | _ => false end.

(** [v in ['claude', 'gemini']] *)
Definition known_provider (v : json) : bool :=
  match v with
  | JStr s => String.eqb s "claude" || String.eqb s "gemini"
  | _ => false
  end.

Section Check.
(** The text an f-string makes of a float, a list or a mapping. *)
Variable py_repr : json -> string.

Definition py_str (v : json) : string :=
  match v with
  | JStr s => s
  | JNull => "None"
  | JBool true => "True"
  | JBool false => "False"
  | JInt n => str_of_int n
  | _ => py_repr v
  end.

Definition critical (w : string) : bool :=
  contains "ai_provider" w || contains "temperature" w.

Definition _validate_config_values (self : SimpleConfig)
  : outcome unit * list LogRecord :=
  let warnings :=
    if known_provider (ai_provider self) then []
    else ["Invalid ai_provider: " +:+ py_str (ai_provider self)
          +:+ ". Must be 'claude' or 'gemini'"] in
  match as_number (temperature self) with
  | None =>
      (Raised (Exn TypeError
                 ("'<=' not supported between instances of 'float' and '"
                  +:+ type_name (temperature self) +:+ "'")), [])
  | Some t =>
      let warnings :=
        if Qle_bool 0 t && Qle_bool t 1 then warnings
        else warnings ++ ["Invalid temperature: " +:+ py_str (temperature self)
                          +:+ ". Must be between 0.0 and 1.0"] in
      let warnings :=
        if is_bool (parallel_processing self) then warnings
        else warnings ++ ["Invalid parallel_processing: "
                          +:+ py_str (parallel_processing self)
                          +:+ ". Must be boolean"] in
      let warnings :=
        if is_bool (validate_outputs self) then warnings
        else warnings ++ ["Invalid validate_outputs: "
                          +:+ py_str (validate_outputs self)
                          +:+ ". Must be boolean"] in
      let warnings :=
        if is_path (inputs_dir self) then warnings
        else warnings ++ ["Invalid inputs_dir: " +:+ py_str (inputs_dir self)
                          +:+ ". Must be non-empty string"] in
      let warnings :=
        if is_path (outputs_dir self) then warnings
        else warnings ++ ["Invalid outputs_dir: " +:+ py_str (outputs_dir self)
                          +:+ ". Must be non-empty string"] in
      let warnings :=
        if is_path (logs_dir self) then warnings
        else warnings ++ ["Invalid logs_dir: " +:+ py_str (logs_dir self)
                          +:+ ". Must be non-empty string"] in
      let lines :=
        map (fun w => Log warning ("Configuration warning: " +:+ w)) warnings in
      match List.filter critical warnings with
      | [] => (Ok tt, lines)
      | critical_errors =>
          (Raised (Exn ValueError
                     ("Critical configuration errors: "
                      +:+ String.concat "; " critical_errors)), lines)
      end
  end.
End Check.

(** A configuration whose provider, temperature and paths are valid. *)
Definition sound (self : SimpleConfig) : Prop :=
  known_provider (ai_provider self) = true
  /\ (exists t, as_number (temperature self) = Some t
                /\ Qle_bool 0 t && Qle_bool t 1 = true)
  /\ is_bool (validate_outputs self) = true
  /\ is_path (inputs_dir self) = true /\ is_path (outputs_dir self) = true
  /\ is_path (logs_dir self) = true.

End ConfigValues.

(** ** Reference values used in the statements *)

(** The result of the [k]-th call (from 0) of the model switch on a list
    of [L] models entered at index [s]: true for the first [L - 1 - s]
    calls. *)
Definition expected_switches (L s n : nat) : list bool :=
  map (fun k => bool_decide (s + S k < L)%nat) (seq 0 n).

Fixpoint nondecreasing (l : list nat) : Prop :=
  match l with
  | a :: (b :: _) as rest => (a <= b)%nat /\ nondecreasing rest
  | _ => True
  end.

(** Two behaviours of a model switch, [index] being the current model
    index and [size] the length of the fallback list. *)
Section SwitchBehaviour.
Context {St : Type}.
Variable switch : St -> bool * St * list LogRecord.
Variable index : St -> nat.
Variable size : St -> nat.

(** A switch that always moves to the very next model. *)
Definition steps_by_one : Prop :=
  forall st,
    size (switch st).1.2 = size st
    /\ if decide (S (index st) < size st)%nat
       then (switch st).1.1 = true /\ index (switch st).1.2 = S (index st)
       else (switch st).1.1 = false /\ index (switch st).1.2 = index st.

(** A switch that moves forward, possibly past some models, and that
    reports failure only at the end of the list. *)
Definition steps_forward : Prop :=
  forall st,
    size (switch st).1.2 = size st
    /\ (index st <= index (switch st).1.2)%nat
    /\ ((switch st).1.1 = true ->
        (index st < index (switch st).1.2 < size st)%nat)
    /\ ((switch st).1.1 = false -> (size st <= S (index (switch st).1.2))%nat).

End SwitchBehaviour.

(** An SDK that refuses to build a client for one model. *)
Definition refuses (model : string) (m : string) (env : unit)
  : option exn * unit :=
  if String.eqb m model
  then (Some (Exn VendorError "model is not supported"), env)
  else (None, env).

Definition accepts_all (m : string) (env : unit) : option exn * unit :=
  (None, env).

(** A Gemini adapter on its first model. *)
Definition gemini_start : Gemini.GeminiProvider * unit :=
  ({| Gemini.primary_model := "gemini-1.5-pro";
      Gemini.available_models := Gemini.gemini_models;
      Gemini.current_model_index := 0;
      Gemini.model_instance := Some "gemini-1.5-pro" |}, tt).

(** A callable that raises the same error whenever it is called, on a
    provider without fallback models. *)
Definition always_raising (message : string) (st : unit)
  : outcome string * unit * list LogRecord :=
  (Raised (Exn VendorError message), st, []).

Definition no_fallback (st : unit) : bool * unit * list LogRecord :=
  (false, st, []).

Definition fmt_plain (delay : Q) : string := "?".

(** A [time.sleep] as CPython has it: a delay its clock of 2^63
    nanoseconds cannot hold raises [OverflowError], and a negative delay
    raises [ValueError]. *)
Definition python_sleep (delay : Q) : option exn :=
  let limit := (9223372036854775807 # 1000000000)%Q in
  if Qle_bool (- limit) delay && Qle_bool delay limit then
    if Qle_bool 0 delay then None
    else Some (Exn ValueError "sleep length must be non-negative")
  else Some (Exn OverflowError
               "timestamp too large to convert to C _PyTime_t").

(** A provider whose store holds the closing-comment prompt only, and
    libraries that format by appending and parse nothing. *)
Definition sample_prompts : gmap string (gmap string string) :=
  {[ "closing_comment" := {[ "prompt" := "Summarise the work done: " ]} ]}.

Definition format_append (template text : string) : outcome string :=
  Ok (template +:+ text).

Definition vendor_unauthorized (prompt : string) (st : unit)
  : outcome string * unit * list LogRecord :=
  always_raising "401 unauthorized" st.

Definition loads_nothing (text : string) : outcome json :=
  Raised (Exn JSONDecodeError "Expecting value").

(** A scenario: a vendor whose first call fails with an unknown model and
    whose later calls reply with a classification wrapped in prose, and a
    parser that knows this one object; the number of calls made so far is
    the state of the outside world. *)
Definition quoted (s : string) : string := quote +:+ s +:+ quote.

(** The JSON text of [sample_triage]. *)
Definition triage_object : string :=
  "{" +:+ quoted "work_requests" +:+ ":[{" +:+ quoted "title" +:+ ":"
  +:+ quoted "t" +:+ "," +:+ quoted "description" +:+ ":" +:+ quoted "d"
  +:+ "," +:+ quoted "status" +:+ ":" +:+ quoted "pending" +:+ "}],"
  +:+ quoted "work_orders" +:+ ":[]," +:+ quoted "inspection_tasks"
  +:+ ":[]," +:+ quoted "general_tasks" +:+ ":[]}".

Definition triage_reply : string :=
  "Here is the classification: " +:+ triage_object +:+ " Done.".

Definition flaky_create (model prompt : string) (calls_so_far : nat)
  : outcome string * nat :=
  match calls_so_far with
  | O => (Raised (Exn VendorError "model XYZ not found"), 1%nat)
  | S _ => (Ok triage_reply, S calls_so_far)
  end.

Definition loads_sample (text : string) : outcome json :=
  if String.eqb text triage_object then Ok sample_triage
  else Raised (Exn JSONDecodeError "Expecting value").

Definition triage_prompts : gmap string (gmap string string) :=
  {[ "work_triaging" := {[ "prompt" := "Classify: " ]} ]}.

Definition claude_start : Claude.ClaudeProvider * nat :=
  ((Claude.init "claude-3-5-sonnet-20241022").1, 0%nat).

Definition write_raw_ok {St : Type} (test_id : option string)
    (prompt_type raw : string) (st : St) : option exn * St :=
  (None, st).

Definition clock_one {St : Type} (st : St) : Q := 1%Q.

(** pydantic's strict rules, one of the admissible choices. *)
Definition strict_str (v : json) : bool :=
  match v with JStr _ => true | _ => false end.
Definition strict_float (v : json) : bool :=
  match v with JInt _ | JFloat _ => true | _ => false end.

(** A vendor that always answers with the same reply, and a parser that
    reads every text as the same value. *)
Definition vendor_replies (reply : string) (prompt : string) (st : unit)
  : outcome string * unit * list LogRecord :=
  (Ok reply, st, []).

Definition loads_as (v : json) (text : string) : outcome json := Ok v.

(** An environment with keys to clean, constructors that only record what
    they were given, and a provider whose operations always fail. *)
Definition sample_env : gmap string string :=
  {[ "CLAUDE_API_KEY" := "  sk ant-1 ";
     "GEMINI_API_KEY" := " your_gemini_api_key_here " ]}.

Definition build_named (class key model : string) (temperature : Q) (w : unit)
  : outcome string * unit * list LogRecord :=
  (Ok (class +:+ ":" +:+ key +:+ ":" +:+ model), w, []).

Definition operation_down (text : string) (test_id : option string)
  : Operations.Op (St:=unit) json :=
  Operations.raise (Exn ValueError "provider is down").

Definition sample_inputs : list Batch.Input :=
  [ {[ "test_id" := "wt_001"; "text" := "pump P-101 is leaking";
       "test_focus" := "basic" ]};
    {[ "test_id" := "cc_001"; "text" := "pump replaced";
       "test_focus" := "closing" ]};
    {[ "test_id" := "x_7"; "text" := "check valve"; "test_focus" := "other" ]} ].

Definition input_without_focus : Batch.Input :=
  {[ "test_id" := "cc_001"; "text" := "pump replaced" ]}.

Definition sample_config (parallel_processing : json)
  : ConfigValues.SimpleConfig :=
  {| ConfigValues.ai_provider := JStr "claude";
     ConfigValues.model := JStr "claude-3-5-sonnet-20241022";
     ConfigValues.temperature := JInt 0;
     ConfigValues.parallel_processing := parallel_processing;
     ConfigValues.validate_outputs := JBool true;
     ConfigValues.inputs_dir := JStr "inputs";
     ConfigValues.outputs_dir := JStr "outputs";
     ConfigValues.logs_dir := JStr "logs" |}.

(** A vendor that refuses every model with the same message, and
    records in the outside world the models it was asked for. *)
Definition refuses_all (message : string) (model prompt : string)
    (asked : list string) : outcome string * list string :=
  (Raised (Exn VendorError message), asked ++ [model]).

(** ** Quantities of a whole run *)

(** The delays of the attempts [1 .. k], in order. *)
Definition backoff_schedule (base_wait_time : Q) (k : nat) : list Q :=
  map (fun i => backoff (Z.of_nat i) base_wait_time) (seq 1 k).

(** The time slept over a run. *)
Definition total_wait (delays : list Q) : Q := fold_right Qplus 0%Q delays.

(** The exceptions [_execute_with_retry] raises itself. *)
Definition engine_errors (operation : string) (max_retries : Z)
    (provider_name : string) : list exn :=
  [ Exn ValueError ("Invalid or expired " +:+ provider_name +:+ " API key");
    Exn ValueError ("Prompt violates " +:+ provider_name +:+ "'s content policy");
    Exn ValueError "Prompt too long - reduce input text length";
    Exn Exception (exhausted_message operation max_retries);
    Exn Exception ("Unexpected error in " +:+ operation) ].

(** * Properties *)

(** ** Substrings and lower-casing *)

Section PyStrFacts.

Lemma prefix_app t b : String.prefix t (t +:+ b) = true.
Proof.
  induction t as [|c t IH]; simpl; [by destruct b|].
  destruct (Ascii.ascii_dec c c); [exact IH|done].
Qed.

Lemma contains_prefix t s : String.prefix t s = true -> contains t s = true.
Proof. intros H. destruct s; cbn [contains]; rewrite H; done. Qed.

Lemma contains_app a t b : contains t (a +:+ t +:+ b) = true.
Proof.
  induction a as [|c a IH].
  - change (contains t (t +:+ b) = true). apply contains_prefix, prefix_app.
  - change (contains t (String c (a +:+ t +:+ b)) = true).
    cbn [contains]. rewrite IH. apply orb_true_r.
Qed.

Lemma prefix_split t s :
  String.prefix t s = true -> exists b, s = t +:+ b.
Proof.
  revert s. induction t as [|c t IH]; intros s; simpl.
  - exists s. done.
  - destruct s as [|d s]; simpl; [done|].
    destruct (Ascii.ascii_dec c d) as [->|]; [|done].
    intros [b ->]%IH. by exists b.
Qed.

Lemma contains_split t s :
  contains t s = true -> exists a b, s = a +:+ t +:+ b.
Proof.
  induction s as [|d s IH]; cbn [contains]; rewrite orb_true_iff.
  - intros [[b Hb]%prefix_split|?]; [|done]. by exists "", b.
  - intros [[b Hb]%prefix_split|[a [b ->]]%IH].
    + by exists "", b.
    + by exists (String d a), b.
Qed.

Lemma any_in_single t s : any_in [t] s = contains t s.
Proof. unfold any_in. cbn [existsb]. apply orb_false_r. Qed.

Lemma any_in_elem t terms s :
  t ∈ terms -> contains t s = true -> any_in terms s = true.
Proof.
  intros Hin Hc. unfold any_in. apply existsb_exists.
  exists t. split; [by apply list_elem_of_In|done].
Qed.

Lemma contains_cons t c s : contains t s = true -> contains t (String c s) = true.
Proof. intros H. cbn [contains]. rewrite H. apply orb_true_r. Qed.

Lemma contains_empty s : contains EmptyString s = true.
Proof. by destruct s. Qed.

Lemma lower_step_plain c rest :
  is_plain c = true -> lower_step c rest = String c rest.
Proof.
  destruct c as [[] [] [] [] [] [] [] []]; try discriminate; reflexivity.
Qed.

Lemma prefix_plain t s :
  plain t = true -> String.prefix t s = true ->
  String.prefix t (lower s) = true.
Proof.
  revert s. induction t as [|c t IH]; intros s Ht Hp; [by destruct (lower s)|].
  destruct s as [|d s]; [done|].
  cbn [plain] in Ht. apply andb_true_iff in Ht as [Hc Ht].
  simpl in Hp. destruct (Ascii.ascii_dec c d) as [<-|Hne]; [|done].
  cbn [lower]. rewrite (lower_step_plain _ _ Hc). simpl.
  destruct (Ascii.ascii_dec c c); [by apply IH|done].
Qed.

(** A byte that is not plain starts no plain term. *)
Lemma contains_skip t c s :
  plain t = true -> is_plain c = false ->
  contains t (String c s) = true -> contains t s = true.
Proof.
  intros Ht Hc. destruct t as [|x t]; [intros _; apply contains_empty|].
  cbn [contains]. simpl String.prefix.
  destruct (Ascii.ascii_dec x c) as [->|Hne]; [|done].
  cbn [plain] in Ht. by rewrite Hc in Ht.
Qed.

(** A plain term that occurs in a text occurs in its lower case. *)
Lemma contains_lower t s :
  plain t = true -> contains t s = true -> contains t (lower s) = true.
Proof.
  intros Ht. induction s as [|d s IH].
  - destruct t; [done|]. cbn. done.
  - cbn [contains]. rewrite orb_true_iff. intros [Hp|Hc].
    { apply contains_prefix. by apply (prefix_plain t (String d s)). }
    specialize (IH Hc). cbn [lower]. unfold lower_step.
    destruct (Ascii.eqb d _ && String.prefix (bytes [132; 170]%N) (lower s))
      eqn:Hk.
    { apply andb_true_iff in Hk as [_ [b Hb]%prefix_split].
      rewrite Hb in IH |- *.
      change (bytes [132; 170]%N +:+ b)
        with (String (ascii_of_N 132) (String (ascii_of_N 170) b)) in *.
      cbn [skip_bytes]. apply contains_cons.
      apply contains_skip in IH; [|done|done].
      by apply contains_skip in IH. }
    destruct (Ascii.eqb d _ && String.prefix (bytes [176]%N) (lower s))
      eqn:Hi.
    { apply andb_true_iff in Hi as [_ [b Hb]%prefix_split].
      rewrite Hb in IH |- *.
      change (bytes [176]%N +:+ b) with (String (ascii_of_N 176) b) in *.
      cbn [skip_bytes].
      change (bytes [204; 135]%N +:+ b)
        with (String (ascii_of_N 204) (String (ascii_of_N 135) b)).
      do 3 apply contains_cons.
      by apply contains_skip in IH. }
    by apply contains_cons.
Qed.

(** The Kelvin sign is lower-cased to k, and the capital I with a dot
    to i and the combining dot; other characters outside ASCII stay. *)
Example lower_outside_ascii :
  lower ("API_" +:+ utf8 8490 +:+ "EY") = "api_key"
  /\ lower ("T" +:+ utf8 304 +:+ "MED OUT") = "ti" +:+ utf8 775 +:+ "med out"
  /\ lower (utf8 233 +:+ "A") = utf8 233 +:+ "a".
Proof. by vm_compute. Qed.

(** A plain term that occurs in a message is mentioned by it. *)
Lemma contains_mentions t message :
  plain t = true -> contains t message = true -> mentions t message = true.
Proof. intros Ht Hc. unfold mentions. by apply contains_lower. Qed.

End PyStrFacts.

(** ** The error classifier *)

Section ClassifierFacts.

Lemma handle_api_error_spec err attempt max_retries operation provider_name :
  (_handle_api_error err attempt max_retries operation provider_name).1
  = let '(ty, retry) := classify_spec err (attempt <? max_retries) in (retry, ty).
Proof.
  unfold _handle_api_error, classify_spec, mentions_any, mentions, error_patterns.
  set (m := lower err).
  cbn [scan_patterns].
  rewrite !any_in_single.
  repeat match goal with
         | |- context [existsb ?f ?l] =>
             change (existsb f l) with (any_in l m)
         end.
  generalize (any_in ["rate_limit"; "quota"; "billing"; "payment"] m).
  generalize (any_in ["authentication"; "api_key"; "unauthorized"; "forbidden"] m).
  generalize (any_in ["content_policy"; "harmful"; "safety"; "violation"] m).
  generalize (any_in ["limit"; "exceeded"] m).
  generalize (any_in ["not found"; "unavailable"; "not available"] m).
  generalize (any_in ["timeout"; "deadline"; "timed out"] m).
  generalize (contains "token" m). generalize (contains "model" m).
  intros [] [] [] [] [] [] [] []; reflexivity.
Qed.

(** What the engine needs of the classifier: the error types it does not
    raise for are retried exactly while attempts remain. *)
Lemma handle_api_error_retry err attempt max_retries operation provider_name :
  let r := (_handle_api_error err attempt max_retries operation provider_name).1 in
  error_messages provider_name r.2 = None ->
  r.1 && (attempt <? max_retries) = (attempt <? max_retries).
Proof.
  cbn zeta. rewrite handle_api_error_spec.
  unfold classify_spec.
  repeat match goal with
         | |- context [if ?b then _ else _] => destruct b
         end; cbn; try done; intros _; by destruct (attempt <? max_retries).
Qed.

End ClassifierFacts.

(** C2. [_handle_api_error] classifies a message by ordered matching of
    its terms, letter case ignored, and the first category that matches
    wins: the rate-limit terms give [rate_limit], retryable; then the
    authentication terms give [authentication], not retryable; then the
    content-policy terms give [content_policy], not retryable; then
    "token" together with "limit" or "exceeded" gives [token_limit], not
    retryable; then "model" together with "not found", "unavailable" or
    "not available" gives [model_unavailable], retryable; then the timeout
    terms give [timeout], retryable exactly while [attempt < max_retries];
    a message matching none of them is [api_error], retryable exactly
    while [attempt < max_retries]. *)
Theorem handle_api_error_classification
    (err : string) (attempt max_retries : Z) (operation provider_name : string) :
  let '(should_retry, error_type) :=
    (_handle_api_error err attempt max_retries operation provider_name).1 in
  (error_type, should_retry) = classify_spec err (attempt <? max_retries).
Proof.
  rewrite handle_api_error_spec.
  by destruct (classify_spec err (attempt <? max_retries)).
Qed.

(** ** The retry engine *)

Section EngineFacts.
Context {St : Type}.
Variable api_call_func : St -> outcome string * St * list LogRecord.
Variable _switch_to_next_model : St -> bool * St * list LogRecord.
Variable fmt_1f : Q -> string.
Variable time_sleep : Q -> option exn.
Variable operation : string.
Variable max_retries : Z.
Variable base_wait_time : Q.
Variable provider_name : string.

Abbreviation loop :=
  (retry_loop api_call_func _switch_to_next_model fmt_1f time_sleep operation
              max_retries base_wait_time provider_name).
Abbreviation classify e attempt :=
  (_handle_api_error (exn_str e) attempt max_retries operation provider_name).
Abbreviation seen said logged ty retry :=
  (ECall :: map ELog said ++ map ELog logged ++ [EClassify ty retry]).

Lemma loop_success remaining attempt st text st1 said :
  api_call_func st = (Ok text, st1, said) ->
  loop (S remaining) attempt st = (Ok text, st1, ECall :: map ELog said).
Proof. intros Hf. cbn [retry_loop]. by rewrite Hf. Qed.

Lemma loop_fatal remaining attempt st e st1 said retry ty logged message :
  api_call_func st = (Raised e, st1, said) ->
  classify e attempt = ((retry, ty), logged) ->
  error_messages provider_name ty = Some message ->
  loop (S remaining) attempt st
  = (Raised (Exn ValueError message), st1, seen said logged ty retry).
Proof. intros Hf Hc Hm. cbn [retry_loop]. by rewrite Hf, Hc, Hm. Qed.

Lemma loop_retry remaining attempt st e st1 said retry ty logged :
  api_call_func st = (Raised e, st1, said) ->
  classify e attempt = ((retry, ty), logged) ->
  error_messages provider_name ty = None ->
  attempt < max_retries ->
  retry = true /\
  loop (S remaining) attempt st
  = let '(st2, switching) :=
      maybe_switch _switch_to_next_model operation ty st1 in
    match _get_retry_delay attempt base_wait_time with
    | Raised e' => (Raised e', st2, seen said logged ty retry ++ switching)
    | Ok delay =>
        match time_sleep delay with
        | Some e' =>
            (Raised e', st2,
             seen said logged ty retry ++ switching
             ++ [ELog (retry_log fmt_1f operation max_retries attempt delay)])
        | None =>
            after (seen said logged ty retry ++ switching
                   ++ [ELog (retry_log fmt_1f operation max_retries attempt
                                       delay);
                       ESleep delay])
                  (loop remaining (attempt + 1) st2)
        end
    end.
Proof.
  intros Hf Hc Hm Hlt.
  pose proof (handle_api_error_retry (exn_str e) attempt max_retries
                operation provider_name) as Hr.
  cbn zeta in Hr. rewrite Hc in Hr. cbn [fst snd] in Hr.
  specialize (Hr Hm).
  assert ((attempt <? max_retries) = true) as Hb by (apply Z.ltb_lt; lia).
  split; [rewrite Hb in Hr; by destruct retry|].
  cbn [retry_loop]. rewrite Hf, Hc, Hm, Hr, Hb. done.
Qed.

(** The retried iteration whose wait is taken. *)
Lemma loop_retry_slept remaining attempt st e st1 said retry ty logged delay :
  api_call_func st = (Raised e, st1, said) ->
  classify e attempt = ((retry, ty), logged) ->
  error_messages provider_name ty = None ->
  attempt < max_retries ->
  _get_retry_delay attempt base_wait_time = Ok delay ->
  time_sleep delay = None ->
  retry = true /\
  loop (S remaining) attempt st
  = let '(st2, switching) :=
      maybe_switch _switch_to_next_model operation ty st1 in
    after (seen said logged ty retry ++ switching
           ++ [ELog (retry_log fmt_1f operation max_retries attempt delay);
               ESleep delay])
          (loop remaining (attempt + 1) st2).
Proof.
  intros Hf Hc Hm Hlt Hd Hs.
  destruct (loop_retry remaining attempt st e st1 said retry ty logged
              Hf Hc Hm Hlt) as [-> ->].
  split; [done|].
  destruct (maybe_switch _ _ _ _) as [st2 switching]. by rewrite Hd, Hs.
Qed.

(** The delay is computed up to attempt 1024, and not after. *)
Lemma retry_delay_ok attempt delay :
  _get_retry_delay attempt base_wait_time = Ok delay ->
  attempt <= 1024 /\ delay = backoff attempt base_wait_time.
Proof.
  unfold _get_retry_delay. destruct (1025 <=? attempt) eqn:Hn; [done|].
  apply Z.leb_gt in Hn. intros [= <-]. split; [lia|done].
Qed.

Lemma retry_delay_in_range attempt :
  attempt <= 1024 ->
  _get_retry_delay attempt base_wait_time
  = Ok (backoff attempt base_wait_time).
Proof.
  intros Hn. unfold _get_retry_delay.
  destruct (1025 <=? attempt) eqn:Hb; [|done]. apply Z.leb_le in Hb. lia.
Qed.

Lemma retry_delay_overflow attempt :
  1025 <= attempt ->
  _get_retry_delay attempt base_wait_time
  = Raised (Exn OverflowError "int too large to convert to float").
Proof.
  intros Hn. unfold _get_retry_delay.
  destruct (1025 <=? attempt) eqn:Hb; [done|]. apply Z.leb_gt in Hb. lia.
Qed.

Lemma loop_exhausted remaining attempt st e st1 said retry ty logged :
  api_call_func st = (Raised e, st1, said) ->
  classify e attempt = ((retry, ty), logged) ->
  error_messages provider_name ty = None ->
  max_retries <= attempt ->
  loop (S remaining) attempt st
  = (Raised (Exn Exception (exhausted_message operation max_retries)), st1,
     seen said logged ty retry
     ++ [ELog (Log error (exhausted_message operation max_retries))]).
Proof.
  intros Hf Hc Hm Hge.
  assert ((attempt <? max_retries) = false) as Hb by (apply Z.ltb_ge; lia).
  assert ((attempt >=? max_retries) = true) as Hb' by (apply Z.geb_le; lia).
  cbn [retry_loop]. rewrite Hf, Hc, Hm, Hb, andb_false_r, Hb'. done.
Qed.

Lemma calls_app t1 t2 : calls (t1 ++ t2) = (calls t1 + calls t2)%nat.
Proof. unfold calls. by rewrite List.filter_app, length_app. Qed.

Lemma calls_cons e t :
  calls (e :: t) = ((if is_call e then 1 else 0) + calls t)%nat.
Proof. by destruct e. Qed.

Lemma calls_logs lines : calls (map ELog lines) = 0%nat.
Proof. by induction lines. Qed.

Lemma sleeps_logs lines : sleeps (map ELog lines) = [].
Proof. by induction lines. Qed.

Lemma switches_logs lines : switches (map ELog lines) = [].
Proof. by induction lines. Qed.

Lemma sleeps_app t1 t2 : sleeps (t1 ++ t2) = sleeps t1 ++ sleeps t2.
Proof. apply omap_app. Qed.

Lemma switches_app t1 t2 : switches (t1 ++ t2) = switches t1 ++ switches t2.
Proof. apply omap_app. Qed.

Lemma sleeps_call t : sleeps (ECall :: t) = sleeps t.
Proof. done. Qed.

Lemma switches_call t : switches (ECall :: t) = switches t.
Proof. done. Qed.

Lemma logs_only_map lines : logs_only (map ELog lines).
Proof. unfold logs_only. by induction lines; constructor. Qed.

Lemma logs_only_app t1 t2 : logs_only t1 -> logs_only t2 -> logs_only (t1 ++ t2).
Proof. apply Forall_app_2. Qed.

Lemma maybe_switch_other ty st :
  ty <> model_unavailable ->
  maybe_switch _switch_to_next_model operation ty st = (st, []).
Proof. intros H. unfold maybe_switch. by rewrite bool_decide_eq_false_2. Qed.

Lemma maybe_switch_model st :
  maybe_switch _switch_to_next_model operation model_unavailable st
  = let '(switched, st', told) := _switch_to_next_model st in
    (st', map ELog told
          ++ [ESwitch switched; ELog (switch_outcome_log operation switched)]).
Proof. unfold maybe_switch. by rewrite bool_decide_eq_true_2. Qed.

(** Every iteration starts by invoking the callable. *)
Lemma loop_head remaining attempt st :
  exists rest, (loop (S remaining) attempt st).2 = ECall :: rest.
Proof.
  cbn [retry_loop].
  destruct (api_call_func st) as [[[text|e] st1] said]; [by eexists|].
  destruct (_handle_api_error _ _ _ _ _) as [[retry ty] logged].
  destruct (error_messages _ _); [by eexists|].
  destruct (retry && _).
  - destruct (maybe_switch _ _ _ _) as [st2 switching].
    destruct (_get_retry_delay _ _) as [delay|e']; [|by eexists].
    destruct (time_sleep delay); [by eexists|].
    destruct (retry_loop _ _ _ _ _ _ _ _ _ _ _) as [[o st3] rest].
    by eexists.
  - destruct (attempt >=? max_retries); [by eexists|].
    destruct (retry_loop _ _ _ _ _ _ _ _ _ _ _) as [[o st3] rest].
    by eexists.
Qed.

(** A callable that only ever raises generic errors is called once per
    remaining iteration, and the last iteration raises the exhaustion
    error, as long as every wait between two attempts is taken. *)
Lemma generic_loop remaining attempt st :
  (forall s, exists e s' said,
      api_call_func s = (Raised e, s', said) /\ generic_error (exn_str e)) ->
  (forall n, 1 <= n < max_retries ->
     wait_taken time_sleep base_wait_time n) ->
  1 <= attempt ->
  (0 < remaining)%nat ->
  attempt + Z.of_nat remaining = max_retries + 1 ->
  exists st' trace,
    loop remaining attempt st
    = (Raised (Exn Exception (exhausted_message operation max_retries)),
       st', trace)
    /\ calls trace = remaining.
Proof.
  intros Hf Hw. revert attempt st.
  induction remaining as [|remaining IH]; intros attempt st Hat Hpos Hsum;
    [lia|].
  destruct (Hf st) as (e & st1 & said & Hcall & Hgen).
  destruct (classify e attempt) as [[retry ty] logged] eqn:Hc.
  pose proof (Hgen attempt max_retries operation provider_name) as Hty.
  rewrite Hc in Hty. cbn in Hty. subst ty.
  destruct (Z_lt_le_dec attempt max_retries) as [Hlt|Hge].
  - destruct (Hw attempt) as (delay & Hd & Hs); [lia|].
    destruct (loop_retry_slept remaining attempt st e st1 said retry api_error
                logged delay) as [_ ->]; [done..|].
    rewrite maybe_switch_other by done. cbn zeta.
    destruct (IH (attempt + 1) st1) as (st' & trace & -> & Hn); [lia..|].
    eexists _, _. split; [reflexivity|].
    rewrite !calls_app, !calls_cons, !calls_app, !calls_logs, Hn. cbn. lia.
  - rewrite (loop_exhausted remaining attempt st e st1 said retry api_error logged)
      by done.
    eexists _, _. split; [reflexivity|].
    rewrite !calls_app, !calls_cons, !calls_app, !calls_logs. cbn. lia.
Qed.

(** The same callable when a wait fails: the run ends there, on what
    the wait raised. *)
Lemma generic_loop_stopped remaining attempt st n e :
  (forall s, exists e s' said,
      api_call_func s = (Raised e, s', said) /\ generic_error (exn_str e)) ->
  (forall k, attempt <= k < n -> wait_taken time_sleep base_wait_time k) ->
  wait_raises time_sleep base_wait_time n e ->
  attempt <= n < max_retries ->
  Z.of_nat remaining = n - attempt + 1 ->
  forall more,
  exists st' trace,
    loop (remaining + more) attempt st = (Raised e, st', trace)
    /\ Z.of_nat (calls trace) = n - attempt + 1.
Proof.
  intros Hf Hw Hn. revert attempt st Hw.
  induction remaining as [|remaining IH]; intros attempt st Hw Hat Hrem more;
    [lia|].
  destruct (Hf st) as (e0 & st1 & said & Hcall & Hgen).
  destruct (classify e0 attempt) as [[retry ty] logged] eqn:Hc.
  pose proof (Hgen attempt max_retries operation provider_name) as Hty.
  rewrite Hc in Hty. cbn in Hty. subst ty.
  change (S remaining + more)%nat with (S (remaining + more)).
  destruct (Z.eq_dec attempt n) as [->|Hne].
  - destruct (loop_retry (remaining + more) n st e0 st1 said retry api_error
                logged) as [_ ->]; [done|done|done|lia|].
    rewrite maybe_switch_other by done.
    destruct Hn as [Hd|(delay & Hd & Hs)]; rewrite Hd; [|rewrite Hs];
      (eexists _, _; split; [reflexivity|]);
      rewrite !calls_app, calls_cons, !calls_app, !calls_logs; cbn; lia.
  - destruct (Hw attempt) as (delay & Hd & Hs); [lia|].
    destruct (loop_retry_slept (remaining + more) attempt st e0 st1 said retry
                api_error logged delay) as [_ ->]; [done|done|done|lia|done..|].
    rewrite maybe_switch_other by done. cbn zeta.
    destruct (IH (attempt + 1) st1) with (more := more)
      as (st' & trace & -> & Hcalls); [intros k Hk; apply Hw; lia|lia|lia|].
    eexists _, _. split; [reflexivity|].
    rewrite !calls_app, !calls_cons, !calls_app, !calls_logs. cbn. lia.
Qed.

Lemma after_trace {A} events (r : Run (St:=St) A) :
  (after events r).2 = events ++ r.2.
Proof. by destruct r as [[o st] trace]. Qed.

Lemma handle_api_error_rate_limit err attempt :
  mentions_any ["rate_limit"; "quota"; "billing"; "payment"] err = true ->
  _handle_api_error err attempt max_retries operation provider_name
  = ((true, rate_limit),
     [Log warning (provider_name +:+ " rate limit/quota hit on attempt "
                   +:+ str_of_int attempt +:+ "/" +:+ str_of_int max_retries)]).
Proof.
  intros H.
  change (any_in ["rate_limit"; "quota"; "billing"; "payment"] (lower err) = true) in H.
  unfold _handle_api_error, error_patterns. cbn [scan_patterns].
  rewrite H, !bool_decide_eq_false_2 by done. done.
Qed.

Lemma handle_api_error_authentication err attempt :
  mentions_any ["rate_limit"; "quota"; "billing"; "payment"] err = false ->
  mentions_any ["authentication"; "api_key"; "unauthorized"; "forbidden"] err = true ->
  _handle_api_error err attempt max_retries operation provider_name
  = ((false, authentication),
     [Log error (provider_name +:+ " authentication failed: " +:+ err)]).
Proof.
  intros H1 H2.
  change (any_in ["rate_limit"; "quota"; "billing"; "payment"] (lower err) = false) in H1.
  change (any_in ["authentication"; "api_key"; "unauthorized"; "forbidden"]
                 (lower err) = true) in H2.
  unfold _handle_api_error, error_patterns. cbn [scan_patterns].
  rewrite H1, H2, !bool_decide_eq_false_2 by done. done.
Qed.

Lemma retry_delay_power attempt :
  1 <= attempt ->
  (backoff attempt base_wait_time
   == base_wait_time * inject_Z (2 ^ (attempt - 1)))%Q.
Proof.
  intros H. unfold backoff.
  rewrite Zpower_Qpower by lia. reflexivity.
Qed.

(** C3, amended. A failure whose message contains "unauthorized" and
    mentions none of the rate-limit terms (rate_limit, quota, billing,
    payment, which are matched first) is classified [authentication],
    and at whatever attempt it occurs the engine raises at once with
    "Invalid or expired {provider} API key": no sleep, no model switch
    and no further call of the callable. *)
Theorem unauthorized_raises_immediately
    (remaining : nat) (attempt : Z) (st : St) e st1 said :
  api_call_func st = (Raised e, st1, said) ->
  contains "unauthorized" (exn_str e) = true ->
  mentions_any ["rate_limit"; "quota"; "billing"; "payment"] (exn_str e) = false ->
  (classify e attempt).1 = (false, authentication)
  /\ exists trace,
      loop (S remaining) attempt st
      = (Raised (Exn ValueError ("Invalid or expired " +:+ provider_name
                                 +:+ " API key")), st1, trace)
      /\ calls trace = 1%nat /\ sleeps trace = [] /\ switches trace = [].
Proof.
  intros Hf Hun Hrate.
  assert (mentions_any ["authentication"; "api_key"; "unauthorized"; "forbidden"]
                       (exn_str e) = true) as Hauth.
  { apply existsb_exists. exists "unauthorized". split.
    - cbn. tauto.
    - by apply contains_mentions. }
  pose proof (handle_api_error_authentication (exn_str e) attempt Hrate Hauth) as Hc.
  split; [by rewrite Hc|].
  eexists. split.
  - by apply (loop_fatal remaining attempt st e st1 said _ _ _ _ Hf Hc).
  - rewrite calls_cons, !calls_app, calls_logs.
    rewrite sleeps_call, switches_call, sleeps_app, switches_app.
    by rewrite sleeps_logs, switches_logs.
Qed.

Lemma logs_only_quiet events :
  logs_only events -> calls events = 0%nat /\ sleeps events = [].
Proof.
  induction 1 as [|e events He _ [IHc IHs]]; [done|].
  by destruct e.
Qed.

Lemma maybe_switch_quiet ty st st2 switching :
  maybe_switch _switch_to_next_model operation ty st = (st2, switching) ->
  calls switching = 0%nat /\ sleeps switching = [].
Proof.
  unfold maybe_switch. destruct (bool_decide _); [|by intros [= _ <-]].
  destruct (_switch_to_next_model st) as [[switched st'] told].
  intros [= _ <-].
  destruct (logs_only_quiet _ (logs_only_map told)) as [Hc Hs].
  by rewrite calls_app, sleeps_app, Hc, Hs.
Qed.

(** C4, amended. When the callable fails at attempt [n >= 1],
    [n < max_retries], with an error that is retried (one the engine does
    not raise for, in particular one whose message contains
    "rate_limit"):
    - up to attempt 1024 the delay computed is exactly
      [base_wait_time * 2^(n-1)], which is [base_wait_time] at attempt 1
      and twice that at attempt 2; when [time.sleep] accepts it, the
      engine sleeps for it before it invokes the callable again, and
      between the failed call and that sleep it neither calls nor
      sleeps; when [time.sleep] raises, its exception leaves the engine,
      which has not slept and does not invoke the callable again;
    - from attempt 1025 on no delay is computed: the [OverflowError] of
      [_get_retry_delay] leaves the engine in the same way. *)
Theorem retry_backoff_delay
    (remaining : nat) (n : Z) (st : St) e st1 said :
  1 <= n -> n < max_retries ->
  api_call_func st = (Raised e, st1, said) ->
  contains "rate_limit" (exn_str e) = true
  \/ error_messages provider_name (classify e n).1.2 = None ->
  (n <= 1024 ->
   exists delay,
     _get_retry_delay n base_wait_time = Ok delay
     /\ (delay == base_wait_time * inject_Z (2 ^ (n - 1)))%Q
     /\ (n = 1 -> (delay == base_wait_time)%Q)
     /\ (n = 2 -> (delay == 2 * base_wait_time)%Q)
     /\ (time_sleep delay = None ->
         exists before st2,
           calls before = 0%nat /\ sleeps before = []
           /\ loop (S remaining) n st
              = after (ECall :: before ++ [ESleep delay])
                      (loop remaining (n + 1) st2))
     /\ (forall e', time_sleep delay = Some e' ->
         exists st2 trace,
           loop (S remaining) n st = (Raised e', st2, trace)
           /\ calls trace = 1%nat /\ sleeps trace = []))
  /\ (1025 <= n ->
      exists st2 trace,
        loop (S remaining) n st
        = (Raised (Exn OverflowError "int too large to convert to float"),
           st2, trace)
        /\ calls trace = 1%nat /\ sleeps trace = []).
Proof.
  intros Hn Hlt Hf Hretried.
  assert (error_messages provider_name (classify e n).1.2 = None) as Hm.
  { destruct Hretried as [Hrl|Hm]; [|done].
    rewrite handle_api_error_rate_limit; [done|].
    apply existsb_exists. exists "rate_limit". split.
    - cbn. tauto.
    - by apply contains_mentions. }
  destruct (classify e n) as [[retry ty] logged] eqn:Hc. cbn [fst snd] in Hm.
  destruct (loop_retry remaining n st e st1 said _ _ _ Hf Hc Hm Hlt)
    as [-> Hrun].
  destruct (maybe_switch _ _ _ _) as [st2 switching] eqn:Hsw.
  destruct (maybe_switch_quiet _ _ _ _ Hsw) as [Hcalls Hsleeps].
  split.
  - intros Hrange. rewrite (retry_delay_in_range n Hrange) in Hrun.
    pose proof (retry_delay_power n Hn) as Hd.
    exists (backoff n base_wait_time).
    split; [by apply retry_delay_in_range|]. split; [exact Hd|].
    split.
    { intros ->. rewrite Hd. change (inject_Z (2 ^ (1 - 1))) with 1%Q. ring. }
    split.
    { intros ->. rewrite Hd. change (inject_Z (2 ^ (2 - 1))) with 2%Q. ring. }
    split.
    + intros Hs. rewrite Hs in Hrun.
      exists (map ELog said ++ map ELog logged ++ [EClassify ty true]
              ++ switching
              ++ [ELog (retry_log fmt_1f operation max_retries n
                                  (backoff n base_wait_time))]),
        st2.
      split_and!.
      * rewrite !calls_app, !calls_logs, Hcalls. done.
      * rewrite !sleeps_app, !sleeps_logs, Hsleeps. done.
      * rewrite Hrun. f_equal. cbn [app]. f_equal.
        by repeat first [rewrite <- app_assoc | progress cbn [app]].
    + intros e' Hs. rewrite Hs in Hrun. eexists _, _.
      split; [exact Hrun|].
      rewrite ?calls_app, ?sleeps_app, ?calls_cons, ?sleeps_call, ?calls_app,
        ?sleeps_app, ?calls_logs, ?sleeps_logs, ?Hcalls, ?Hsleeps. done.
  - intros Hover. rewrite (retry_delay_overflow n Hover) in Hrun.
    eexists _, _. split; [exact Hrun|].
    rewrite ?calls_app, ?sleeps_app, ?calls_cons, ?sleeps_call, ?calls_app,
      ?sleeps_app, ?calls_logs, ?sleeps_logs, ?Hcalls, ?Hsleeps. done.
Qed.

(** C6, amended. A failure that is retried (its category is not fatal
    and [attempt < max_retries]) goes through these steps, in this
    order: the call fails; the error is classified; then, exactly when
    the classification is [model_unavailable], the model switch is
    attempted and its outcome logged; then the delay is computed and the
    retry logged; then the engine sleeps for the delay; then the
    callable is invoked again, on the state the switch left.  The steps
    stop short when the delay cannot be computed or [time.sleep] raises:
    that exception leaves the engine, after the switch if there was one,
    and the callable is not invoked again. *)
Theorem retry_steps_in_order
    (remaining : nat) (attempt : Z) (st : St) e st1 said retry ty logged :
  1 <= attempt -> attempt < max_retries ->
  api_call_func st = (Raised e, st1, said) ->
  classify e attempt = ((retry, ty), logged) ->
  error_messages provider_name ty = None ->
  let run :=
    retry_loop api_call_func _switch_to_next_model fmt_1f time_sleep
               operation max_retries base_wait_time provider_name
               (S (S remaining)) attempt st in
  exists st2 switching,
    (if bool_decide (ty = model_unavailable)
     then exists switched told,
         _switch_to_next_model st1 = (switched, st2, told)
         /\ switching
            = map ELog told
              ++ [ESwitch switched;
                  ELog (switch_outcome_log operation switched)]
     else st2 = st1 /\ switching = [])
    /\ let classified :=
         ECall :: map ELog said ++ map ELog logged
         ++ [EClassify ty true] ++ switching in
       match _get_retry_delay attempt base_wait_time with
       | Raised e' => run = (Raised e', st2, classified)
       | Ok delay =>
           let announced :=
             classified
             ++ [ELog (retry_log fmt_1f operation max_retries attempt delay)] in
           match time_sleep delay with
           | Some e' => run = (Raised e', st2, announced)
           | None =>
               run = after (announced ++ [ESleep delay])
                           (loop (S remaining) (attempt + 1) st2)
               /\ exists rest,
                   (loop (S remaining) (attempt + 1) st2).2 = ECall :: rest
           end
       end.
Proof.
  intros Hat Hlt Hf Hc Hm. cbn zeta.
  destruct (loop_retry (S remaining) attempt st e st1 said retry ty logged
              Hf Hc Hm Hlt) as [-> Hrun].
  unfold maybe_switch in Hrun.
  destruct (bool_decide (ty = model_unavailable)).
  - destruct (_switch_to_next_model st1) as [[switched st2] told] eqn:Hsw.
    exists st2, (map ELog told
                 ++ [ESwitch switched;
                     ELog (switch_outcome_log operation switched)]).
    split; [by exists switched, told|].
    rewrite Hrun.
    destruct (_get_retry_delay attempt base_wait_time) as [delay|e'].
    + destruct (time_sleep delay) as [e'|].
      * f_equal; cbn [app];
          by repeat first [rewrite <- app_assoc | progress cbn [app]].
      * split; [|apply loop_head]. f_equal; cbn [app];
          by repeat first [rewrite <- app_assoc | progress cbn [app]].
    + f_equal; cbn [app];
        by repeat first [rewrite <- app_assoc | progress cbn [app]].
  - exists st1, []. split; [done|].
    rewrite Hrun.
    destruct (_get_retry_delay attempt base_wait_time) as [delay|e'].
    + destruct (time_sleep delay) as [e'|].
      * f_equal; cbn [app];
          by repeat first [rewrite <- app_assoc | progress cbn [app]].
      * split; [|apply loop_head]. f_equal; cbn [app];
          by repeat first [rewrite <- app_assoc | progress cbn [app]].
    + f_equal; cbn [app];
        by repeat first [rewrite <- app_assoc | progress cbn [app]].
Qed.

(** C1, amended. A callable that raises a generic (unclassified) error
    on every invocation is invoked exactly [max_retries] times by
    [_execute_with_retry] when [max_retries >= 1], after which the
    exhaustion error naming the operation and the attempt count is
    raised, provided every wait between two attempts is taken: the delay
    of each attempt below [max_retries] is computed and [time.sleep]
    accepts it.  When the wait after attempt [n] is the first that
    raises, the callable has been invoked [n] times and what the wait
    raised leaves the engine. *)
Theorem generic_failures_exhaust_retries (st : St) :
  1 <= max_retries ->
  (forall s, exists e s' said,
      api_call_func s = (Raised e, s', said) /\ generic_error (exn_str e)) ->
  let run :=
    _execute_with_retry api_call_func _switch_to_next_model fmt_1f time_sleep
                        operation max_retries base_wait_time provider_name st in
  ((forall n, 1 <= n < max_retries ->
      wait_taken time_sleep base_wait_time n) ->
   exists st' trace,
     run = (Raised (Exn Exception ("Failed to complete " +:+ operation
                                   +:+ " after " +:+ str_of_int max_retries
                                   +:+ " attempts")),
            st', trace)
     /\ Z.of_nat (calls trace) = max_retries)
  /\ (forall n e,
        1 <= n < max_retries ->
        (forall k, 1 <= k < n -> wait_taken time_sleep base_wait_time k) ->
        wait_raises time_sleep base_wait_time n e ->
        exists st' trace,
          run = (Raised e, st', trace) /\ Z.of_nat (calls trace) = n).
Proof.
  intros Hmax Hf. cbn zeta. unfold _execute_with_retry. split.
  - intros Hw.
    destruct (generic_loop (Z.to_nat max_retries) 1 st Hf Hw)
      as (st' & trace & Hrun & Hn); [lia..|].
    exists st', trace. split; [exact Hrun|lia].
  - intros n e Hn Hw Hraise.
    destruct (generic_loop_stopped (Z.to_nat n) 1 st n e Hf Hw Hraise)
      with (more := Z.to_nat (max_retries - n))
      as (st' & trace & Hrun & Hcalls); [lia|lia|].
    replace (Z.to_nat n + Z.to_nat (max_retries - n))%nat
      with (Z.to_nat max_retries) in Hrun by lia.
    exists st', trace. split; [exact Hrun|lia].
Qed.

(** C10. With [max_retries] below 1, [_execute_with_retry] never invokes
    the callable and raises "Unexpected error in {operation}" and not the
    exhaustion error; the callable is invoked at least once exactly when
    [max_retries >= 1]. *)
Theorem no_call_without_attempts (st : St) :
  let run := _execute_with_retry api_call_func _switch_to_next_model fmt_1f time_sleep
               operation max_retries base_wait_time provider_name st in
  (max_retries < 1 ->
   run = (Raised (Exn Exception ("Unexpected error in " +:+ operation)), st, []))
  /\ ((1 <= calls run.2)%nat <-> 1 <= max_retries).
Proof.
  cbn zeta. unfold _execute_with_retry.
  destruct (Z.to_nat max_retries) as [|remaining] eqn:Hn.
  - cbn. split; [done|]. split; intros; lia.
  - split; [lia|].
    destruct (loop_head remaining 1 st) as [rest ->].
    cbn. split; intros; lia.
Qed.

End EngineFacts.

Lemma generic_failures_exhaust_retries_witness :
  1 <= 3
  /\ (forall s : unit, exists e s' said,
         always_raising "connection reset by peer" s = (Raised e, s', said)
         /\ generic_error (exn_str e))
  /\ (forall n, 1 <= n < 3 -> wait_taken python_sleep 1 n)
  /\ exists st' trace,
      _execute_with_retry (always_raising "connection reset by peer")
                          no_fallback fmt_plain python_sleep
                          "ANALYZE" 3 1 "Claude" tt
      = (Raised (Exn Exception "Failed to complete ANALYZE after 3 attempts"),
         st', trace)
      /\ Z.of_nat (calls trace) = 3.
Proof.
  assert (forall s : unit, exists e s' said,
             always_raising "connection reset by peer" s = (Raised e, s', said)
             /\ generic_error (exn_str e)) as Hgeneric.
  { intros s. eexists _, _, _. split; [reflexivity|].
    intros attempt max_retries operation provider_name. reflexivity. }
  assert (forall n, 1 <= n < 3 -> wait_taken python_sleep 1 n) as Hwaits.
  { intros n Hn. assert (n = 1 \/ n = 2) as [-> | ->] by lia.
    - exists 1%Q. split; reflexivity.
    - exists 2%Q. split; reflexivity. }
  assert (1 <= 3) as Hmax by lia.
  split; [exact Hmax|]. split; [exact Hgeneric|]. split; [exact Hwaits|].
  exact (proj1 (generic_failures_exhaust_retries
                  (always_raising "connection reset by peer") no_fallback
                  fmt_plain python_sleep "ANALYZE" 3 1 "Claude" tt
                  Hmax Hgeneric) Hwaits).
Defined.

(** C1 as stated fails.  With a negative base delay [time.sleep] refuses
    the first wait: the callable was invoked once, not three times, and
    what is raised is the [ValueError] of [time.sleep].  With a bound
    above 1025 no base delay helps, not even zero: the delay of attempt
    1025 cannot be computed, and the run ends on the [OverflowError]
    after 1025 invocations. *)
Lemma generic_failures_stopped_by_wait :
  (forall s : unit, exists e s' said,
      always_raising "connection reset by peer" s = (Raised e, s', said)
      /\ generic_error (exn_str e))
  /\ (let run := _execute_with_retry
                   (always_raising "connection reset by peer") no_fallback
                   fmt_plain python_sleep "ANALYZE" 3 (-1) "Claude" tt in
      run.1.1 = Raised (Exn ValueError "sleep length must be non-negative")
      /\ calls run.2 = 1%nat)
  /\ (let run := _execute_with_retry
                   (always_raising "connection reset by peer") no_fallback
                   fmt_plain python_sleep "ANALYZE" 1026 0 "Claude" tt in
      run.1.1 = Raised (Exn OverflowError "int too large to convert to float")
      /\ calls run.2 = 1025%nat).
Proof.
  split.
  { intros s. eexists _, _, _. split; [reflexivity|].
    intros attempt max_retries operation provider_name. reflexivity. }
  split; vm_compute; by split.
Qed.

Lemma no_call_without_attempts_witness :
  0 < 1
  /\ _execute_with_retry (always_raising "connection reset by peer")
                         no_fallback fmt_plain python_sleep "ANALYZE" 0 1 "Claude" tt
     = (Raised (Exn Exception "Unexpected error in ANALYZE"), tt, []).
Proof.
  split; [lia|].
  apply (proj1 (no_call_without_attempts
                  (always_raising "connection reset by peer") no_fallback
                  fmt_plain python_sleep "ANALYZE" 0 1 "Claude" tt)).
  lia.
Defined.

Lemma unauthorized_raises_immediately_witness :
  always_raising "401 unauthorized" tt
  = (Raised (Exn VendorError "401 unauthorized"), tt, [])
  /\ contains "unauthorized" "401 unauthorized" = true
  /\ mentions_any ["rate_limit"; "quota"; "billing"; "payment"]
                  "401 unauthorized" = false
  /\ (_handle_api_error "401 unauthorized" 2 3 "ANALYZE" "Claude").1
     = (false, authentication)
  /\ exists trace,
      retry_loop (always_raising "401 unauthorized") no_fallback fmt_plain python_sleep
                 "ANALYZE" 3 1 "Claude" 2 2 tt
      = (Raised (Exn ValueError "Invalid or expired Claude API key"), tt, trace)
      /\ calls trace = 1%nat /\ sleeps trace = [] /\ switches trace = [].
Proof.
  split; [reflexivity|]. split; [reflexivity|]. split; [reflexivity|].
  apply (unauthorized_raises_immediately
           (always_raising "401 unauthorized") no_fallback fmt_plain python_sleep
           "ANALYZE" 3 1 "Claude" 1 2 tt
           (Exn VendorError "401 unauthorized") tt []); reflexivity.
Defined.

(** C3 as stated fails: a message that contains "unauthorized" and also a
    rate-limit term is classified [rate_limit], and the engine sleeps and
    calls again. *)
Lemma unauthorized_with_quota_is_retried :
  contains "unauthorized" "unauthorized: quota exceeded" = true
  /\ (_handle_api_error "unauthorized: quota exceeded" 1 3 "ANALYZE" "Claude").1
     = (true, rate_limit)
  /\ let run := _execute_with_retry
                  (always_raising "unauthorized: quota exceeded")
                  no_fallback fmt_plain python_sleep "ANALYZE" 3 1 "Claude" tt in
     run.1.1 = Raised (Exn Exception "Failed to complete ANALYZE after 3 attempts")
     /\ calls run.2 = 3%nat
     /\ sleeps run.2 = [1%Q; 2%Q].
Proof. vm_compute. repeat split. Qed.

Lemma retry_backoff_delay_witness :
  1 <= 2 /\ 2 < 3
  /\ always_raising "rate_limit reached" tt
     = (Raised (Exn VendorError "rate_limit reached"), tt, [])
  /\ contains "rate_limit" "rate_limit reached" = true
  /\ exists delay before st2,
      _get_retry_delay 2 (1 # 2) = Ok delay
      /\ python_sleep delay = None
      /\ (delay == (1 # 2) * inject_Z (2 ^ (2 - 1)))%Q
      /\ (delay == 2 * (1 # 2))%Q
      /\ calls before = 0%nat /\ sleeps before = []
      /\ retry_loop (always_raising "rate_limit reached") no_fallback
                    fmt_plain python_sleep "ANALYZE" 3 (1 # 2) "Claude" 2 2 tt
         = after (ECall :: before ++ [ESleep delay])
                 (retry_loop (always_raising "rate_limit reached") no_fallback
                             fmt_plain python_sleep "ANALYZE" 3 (1 # 2)
                             "Claude" 1 (2 + 1) st2).
Proof.
  assert (1 <= 2) as Hn by lia. assert (2 < 3) as Hlt by lia.
  assert (2 <= 1024) as Hrange by lia.
  split; [exact Hn|]. split; [exact Hlt|].
  split; [reflexivity|]. split; [reflexivity|].
  destruct (proj1 (retry_backoff_delay
                     (always_raising "rate_limit reached") no_fallback
                     fmt_plain python_sleep "ANALYZE" 3 (1 # 2) "Claude" 1 2 tt
                     (Exn VendorError "rate_limit reached") tt []
                     Hn Hlt eq_refl (or_introl eq_refl)) Hrange)
    as (delay & Hdelay & Hvalue & _ & Htwice & Hslept & _).
  assert (python_sleep delay = None) as Hsleep.
  { injection Hdelay as <-. reflexivity. }
  destruct (Hslept Hsleep) as (before & st2 & Hcalls & Hsleeps & Hrun).
  exists delay, before, st2.
  split; [exact Hdelay|]. split; [exact Hsleep|]. split; [exact Hvalue|].
  split; [exact (Htwice eq_refl)|]. split; [exact Hcalls|].
  split; [exact Hsleeps|exact Hrun].
Defined.

(** C4 as stated fails from attempt 1025 on: after a rate-limit failure
    at attempt 1025, with attempts left, no delay is computed at all;
    [_get_retry_delay] raises [OverflowError], which leaves the engine
    without a sleep and without another invocation.  And a delay that is
    computed need not be slept: [time.sleep] refuses a negative one. *)
Lemma no_delay_at_attempt_1025 :
  1 <= 1025 /\ 1025 < 2000
  /\ contains "rate_limit" "rate_limit reached" = true
  /\ _get_retry_delay 1025 1
     = Raised (Exn OverflowError "int too large to convert to float")
  /\ (let run := retry_loop (always_raising "rate_limit reached") no_fallback
                            fmt_plain python_sleep "ANALYZE" 2000 1 "Claude"
                            976 1025 tt in
      run.1.1 = Raised (Exn OverflowError "int too large to convert to float")
      /\ calls run.2 = 1%nat /\ sleeps run.2 = [])
  /\ (let run := retry_loop (always_raising "rate_limit reached") no_fallback
                            fmt_plain python_sleep "ANALYZE" 3 (-1) "Claude"
                            3 1 tt in
      _get_retry_delay 1 (-1) = Ok (-1)%Q
      /\ run.1.1 = Raised (Exn ValueError "sleep length must be non-negative")
      /\ calls run.2 = 1%nat /\ sleeps run.2 = []).
Proof. split; [lia|]. split; [lia|]. vm_compute. repeat split. Qed.

Lemma retry_steps_in_order_witness :
  1 <= 1 /\ 1 < 3
  /\ always_raising "model XYZ not found" tt
     = (Raised (Exn VendorError "model XYZ not found"), tt, [])
  /\ _handle_api_error "model XYZ not found" 1 3 "ANALYZE" "Claude"
     = ((true, model_unavailable),
        [Log info "Claude model unavailable, will try fallback"])
  /\ _get_retry_delay 1 1 = Ok 1%Q /\ python_sleep 1 = None
  /\ exists rest,
      (retry_loop (always_raising "model XYZ not found") no_fallback fmt_plain
                  python_sleep "ANALYZE" 3 1 "Claude" 2 1 tt).2
      = [ECall;
         ELog (Log info "Claude model unavailable, will try fallback");
         EClassify model_unavailable true;
         ESwitch false;
         ELog (Log warning "No more fallback models available for ANALYZE");
         ELog (Log info "Retrying ANALYZE in ?s (attempt 2/3)");
         ESleep 1]
        ++ ECall :: rest.
Proof.
  assert (1 <= 1) as Hat by lia. assert (1 < 3) as Hlt by lia.
  split; [exact Hat|]. split; [exact Hlt|].
  split; [reflexivity|]. split; [reflexivity|].
  split; [reflexivity|]. split; [reflexivity|].
  destruct (retry_steps_in_order
              (always_raising "model XYZ not found") no_fallback fmt_plain
              python_sleep "ANALYZE" 3 1 "Claude" 0 1 tt
              (Exn VendorError "model XYZ not found") tt [] true
              model_unavailable
              [Log info "Claude model unavailable, will try fallback"]
              Hat Hlt eq_refl eq_refl eq_refl)
    as (st2 & switching & Hswitch & Hsteps).
  destruct Hswitch as (switched & told & [= <- <- <-] & ->).
  cbv zeta in Hsteps.
  change (_get_retry_delay 1 1) with (Ok 1%Q) in Hsteps.
  cbv iota beta in Hsteps.
  change (python_sleep 1) with (@None exn) in Hsteps.
  cbv iota in Hsteps.
  destruct Hsteps as [Hrun [rest Hrest]].
  exists rest. rewrite Hrun, after_trace, Hrest. reflexivity.
Defined.

(** C6 as stated fails: a retryable failure need not be followed by a
    sleep and another invocation.  Here the first failure is classified
    [model_unavailable] with attempts left, the model switch is attempted
    and its outcome logged, and then [time.sleep] refuses the (negative)
    delay: the run ends there, with one switch, no sleep and one
    invocation. *)
Lemma switch_then_refused_sleep :
  (_handle_api_error "model XYZ not found" 1 3 "ANALYZE" "Claude").1
  = (true, model_unavailable)
  /\ 1 < 3
  /\ _execute_with_retry (always_raising "model XYZ not found") no_fallback
                         fmt_plain python_sleep "ANALYZE" 3 (-1) "Claude" tt
     = (Raised (Exn ValueError "sleep length must be non-negative"), tt,
        [ECall;
         ELog (Log info "Claude model unavailable, will try fallback");
         EClassify model_unavailable true;
         ESwitch false;
         ELog (Log warning "No more fallback models available for ANALYZE");
         ELog (Log info "Retrying ANALYZE in ?s (attempt 2/3)")]).
Proof. split; [reflexivity|]. split; [lia|]. reflexivity. Qed.

(** ** Model fallback *)

Section SwitchFacts.
Context {St : Type}.
Variable switch : St -> bool * St * list LogRecord.
Variable index : St -> nat.
Variable size : St -> nat.

Abbreviation steps_by_one := (steps_by_one switch index size).
Abbreviation steps_forward := (steps_forward switch index size).

Lemma call_times_S n st :
  call_times switch (S n) st
  = ((switch st).1.1 :: (call_times switch n (switch st).1.2).1,
     (call_times switch n (switch st).1.2).2).
Proof.
  cbn [call_times]. destruct (switch st) as [[b st'] lines]. cbn [fst snd].
  by destruct (call_times switch n st').
Qed.

Lemma expected_switches_S L s n :
  expected_switches L s (S n)
  = bool_decide (S s < L)%nat :: expected_switches L (S s) n.
Proof.
  unfold expected_switches. cbn [seq map]. f_equal.
  - apply bool_decide_ext. lia.
  - rewrite <- seq_shift, map_map. apply map_ext. intros k.
    apply bool_decide_ext. lia.
Qed.

Lemma expected_switches_end L s s' n :
  (L <= S s)%nat -> (L <= S s')%nat ->
  expected_switches L s n = expected_switches L s' n.
Proof.
  intros H H'. unfold expected_switches. apply map_ext. intros k.
  rewrite !bool_decide_eq_false_2 by lia. done.
Qed.

Lemma steps_by_one_results n st :
  steps_by_one ->
  (call_times switch n st).1 = expected_switches (size st) (index st) n.
Proof.
  intros Hstep. revert st. induction n as [|n IH]; intros st; [done|].
  rewrite call_times_S, expected_switches_S. cbn [fst].
  destruct (Hstep st) as [Hsize Hcase]. rewrite IH, Hsize.
  destruct (decide (S (index st) < size st)%nat) as [Hlt|Hge].
  - destruct Hcase as [-> ->]. by rewrite bool_decide_eq_true_2.
  - destruct Hcase as [-> ->]. rewrite bool_decide_eq_false_2 by done.
    f_equal. apply expected_switches_end; lia.
Qed.

Lemma steps_by_one_forward : steps_by_one -> steps_forward.
Proof.
  intros Hstep st. destruct (Hstep st) as [Hsize Hcase].
  destruct (decide (S (index st) < size st)%nat);
    destruct Hcase as [Hb Hi]; rewrite Hb, Hi; repeat split; try done; lia.
Qed.

Lemma steps_forward_history n st :
  steps_forward -> nondecreasing (index_history switch index n st).
Proof.
  intros Hstep. revert st. induction n as [|n IH]; intros st; [done|].
  cbn [index_history]. specialize (IH (switch st).1.2).
  destruct n; cbn [index_history] in *; (split; [apply Hstep|exact IH]).
Qed.

Lemma steps_forward_results n st :
  steps_forward ->
  exists k,
    (k <= size st - 1 - index st)%nat /\ (k <= n)%nat /\
    (call_times switch n st).1 = replicate k true ++ replicate (n - k) false.
Proof.
  intros Hstep. revert st. induction n as [|n IH]; intros st.
  { exists 0%nat. split_and!; [lia|lia|done]. }
  rewrite call_times_S. cbn [fst].
  destruct (Hstep st) as (Hsize & Hle & Htrue & Hfalse).
  destruct (IH (switch st).1.2) as (k & Hk & Hkn & Hres).
  rewrite Hres, Hsize in *.
  destruct ((switch st).1.1) eqn:Hb.
  - specialize (Htrue eq_refl).
    exists (S k). split_and!; [lia|lia|done].
  - specialize (Hfalse eq_refl).
    assert (k = 0%nat) as -> by lia.
    exists 0%nat. split_and!; [lia|lia|]. cbn. by rewrite Nat.sub_0_r.
Qed.

End SwitchFacts.

Section ClaudeSwitch.
Import Claude.

Lemma claude_switch_loop a n p :
  (switch_loop (seq a n) p).1
  = if decide (a `max` S (current_model_index p) < a + n)%nat
    then (true, with_index p (a `max` S (current_model_index p)))
    else (false, p).
Proof.
  revert a. induction n as [|n IH]; intros a.
  { cbn. by rewrite decide_False by lia. }
  cbn [seq switch_loop].
  destruct (current_model_index p <? a)%nat eqn:Hlt.
  - apply Nat.ltb_lt in Hlt. rewrite decide_True by lia. cbn.
    by replace (a `max` S (current_model_index p))%nat with a by lia.
  - apply Nat.ltb_ge in Hlt. rewrite IH.
    replace (S a `max` S (current_model_index p))%nat
      with (a `max` S (current_model_index p))%nat by lia.
    destruct (decide (_ < S a + n)%nat);
      [by rewrite decide_True by lia|by rewrite decide_False by lia].
Qed.

Lemma claude_steps_by_one :
  steps_by_one _switch_to_next_model current_model_index
               (fun p => length (available_models p)).
Proof.
  intros p. unfold _switch_to_next_model.
  pose proof (claude_switch_loop 0 (length (available_models p)) p) as H.
  rewrite Nat.max_0_l in H. cbn [Nat.add] in H.
  destruct (decide (S (current_model_index p) < length (available_models p))%nat);
    rewrite H; done.
Qed.

End ClaudeSwitch.

Section GeminiSwitch.
Import Gemini.
Context {Env : Type}.
Variable GenerativeModel : string -> Env -> option exn * Env.

Abbreviation idx := (fun w : GeminiProvider * Env => current_model_index w.1).
Abbreviation len := (fun w : GeminiProvider * Env => length (available_models w.1)).

Lemma initialize_model_keeps w :
  idx (_initialize_model GenerativeModel w).1.2 = idx w
  /\ len (_initialize_model GenerativeModel w).1.2 = len w.
Proof.
  destruct w as [p env]. unfold _initialize_model.
  destruct (available_models p !! current_model_index p); [|done].
  by destruct (GenerativeModel s env) as [[e|] env'].
Qed.

Lemma gemini_switch_loop a n w :
  let r := switch_loop GenerativeModel (seq a n) w in
  len r.1.2 = len w
  /\ (idx w <= idx r.1.2)%nat
  /\ (r.1.1 = true -> (idx w < idx r.1.2 < a + n)%nat)
  /\ (r.1.1 = false -> forall i, (a <= i < a + n)%nat -> (i <= idx r.1.2)%nat).
Proof.
  revert a w. induction n as [|n IH]; intros a w; cbn zeta.
  { cbn. split_and!; [done|lia|done|intros _ i; lia]. }
  cbn [seq switch_loop].
  destruct (current_model_index w.1 <? a)%nat eqn:Hlt.
  - apply Nat.ltb_lt in Hlt.
    pose proof (initialize_model_keeps (with_index w.1 a, w.2)) as [Hi Hl].
    destruct (_initialize_model GenerativeModel (with_index w.1 a, w.2))
      as [[[[]|e] w'] lines]; cbn [fst snd] in *.
    + rewrite Hi, Hl. cbn. split_and!; [done|lia|intros _; lia|done].
    + specialize (IH (S a) w'). cbn zeta in IH.
      destruct (switch_loop GenerativeModel (seq (S a) n) w')
        as [[b w''] more]; cbn [fst snd] in *.
      destruct IH as (IH1 & IH2 & IH3 & IH4).
      rewrite IH1, Hl. rewrite Hi in *. cbn in *.
      split_and!; [done|lia| |].
      * intros Hb. specialize (IH3 Hb). lia.
      * intros Hb i Hrange. specialize (IH4 Hb).
        destruct (decide (i = a)) as [->|]; [lia|apply IH4; lia].
  - apply Nat.ltb_ge in Hlt.
    specialize (IH (S a) w). cbn zeta in IH.
    destruct IH as (IH1 & IH2 & IH3 & IH4).
    split_and!; [done|done| |].
    + intros Hb. specialize (IH3 Hb). lia.
    + intros Hb i Hrange. specialize (IH4 Hb).
      destruct (decide (i = a)) as [->|]; [lia|apply IH4; lia].
Qed.

Lemma gemini_steps_forward :
  steps_forward (_switch_to_next_model GenerativeModel) idx len.
Proof.
  intros w. unfold _switch_to_next_model.
  destruct (gemini_switch_loop 0 (length (available_models w.1)) w)
    as (H1 & H2 & H3 & H4).
  split_and!; [done|done| |].
  - intros Hb. specialize (H3 Hb). cbn [Nat.add] in H3. exact H3.
  - intros Hb. specialize (H4 Hb).
    destruct (length (available_models w.1)) as [|L] eqn:HL; [lia|].
    specialize (H4 L). cbn beta in *. lia.
Qed.

(** When the SDK never refuses a model the Gemini adapter moves like the
    Claude one. *)
Hypothesis never_fails : forall model env, (GenerativeModel model env).1 = None.

Lemma gemini_switch_loop_reliable a n w :
  (a + n <= length (available_models w.1))%nat ->
  let r := switch_loop GenerativeModel (seq a n) w in
  len r.1.2 = len w
  /\ if decide (a `max` S (idx w) < a + n)%nat
     then r.1.1 = true /\ idx r.1.2 = (a `max` S (idx w))%nat
     else r.1.1 = false /\ idx r.1.2 = idx w.
Proof.
  revert a. induction n as [|n IH]; intros a Hlen; cbn zeta.
  { cbn. by rewrite decide_False by lia. }
  cbn [seq switch_loop].
  destruct (current_model_index w.1 <? a)%nat eqn:Hlt.
  - apply Nat.ltb_lt in Hlt. rewrite decide_True by lia.
    unfold _initialize_model. cbn [current_model_index available_models with_index].
    destruct (lookup_lt_is_Some_2 (available_models w.1) a) as [m ->]; [lia|].
    pose proof (never_fails m w.2) as Hok.
    destruct (GenerativeModel m w.2) as [[e|] env']; [done|]. cbn.
    repeat split. lia.
  - apply Nat.ltb_ge in Hlt.
    destruct (IH (S a)) as [IH1 IH2]; [lia|].
    split; [done|].
    replace (S a `max` S (idx w))%nat with (a `max` S (idx w))%nat in IH2 by lia.
    destruct (decide (_ < S a + n)%nat);
      [by rewrite decide_True by lia|by rewrite decide_False by lia].
Qed.

Lemma gemini_steps_by_one :
  steps_by_one (_switch_to_next_model GenerativeModel) idx len.
Proof.
  intros w. unfold _switch_to_next_model.
  destruct (gemini_switch_loop_reliable 0 (length (available_models w.1)) w)
    as [H1 H2]; [lia|].
  rewrite Nat.max_0_l in H2. cbn [Nat.add] in H2.
  split; [done|]. exact H2.
Qed.

End GeminiSwitch.

(** C5, amended. On a fallback list of length [L] entered at index [s],
    the Claude adapter, and the Gemini adapter while every client
    re-initialisation succeeds, return true exactly for the first
    [L - 1 - s] calls of [_switch_to_next_model] and false thereafter.
    A Gemini re-initialisation that fails makes the adapter skip that
    model, so that fewer calls may return true: the results are then
    some [k <= L - 1 - s] times true followed only by false.  In every
    case the current model index never decreases. *)
Theorem model_switch_walks_forward :
  (forall (p : Claude.ClaudeProvider) (n : nat),
      (call_times Claude._switch_to_next_model n p).1
      = expected_switches (length (Claude.available_models p))
                          (Claude.current_model_index p) n
      /\ nondecreasing (index_history Claude._switch_to_next_model
                                      Claude.current_model_index n p))
  /\ (forall (Env : Type) (GenerativeModel : string -> Env -> option exn * Env)
             (w : Gemini.GeminiProvider * Env) (n : nat),
        let L := length (Gemini.available_models w.1) in
        let s := Gemini.current_model_index w.1 in
        let results :=
          (call_times (Gemini._switch_to_next_model GenerativeModel) n w).1 in
        nondecreasing
          (index_history (Gemini._switch_to_next_model GenerativeModel)
                         (fun w => Gemini.current_model_index w.1) n w)
        /\ (exists k, (k <= L - 1 - s)%nat /\ (k <= n)%nat /\
                      results = replicate k true ++ replicate (n - k) false)
        /\ ((forall model env, (GenerativeModel model env).1 = None) ->
            results = expected_switches L s n)).
Proof.
  split.
  - intros p n. split.
    + apply (steps_by_one_results _ _ (fun p => length (Claude.available_models p))).
      apply claude_steps_by_one.
    + eapply steps_forward_history, steps_by_one_forward, claude_steps_by_one.
  - intros Env GenerativeModel w n. cbn zeta. split_and!.
    + eapply steps_forward_history, gemini_steps_forward.
    + apply (steps_forward_results _ (fun w => Gemini.current_model_index w.1)
               (fun w => length (Gemini.available_models w.1))).
      apply gemini_steps_forward.
    + intros Hok.
      apply (steps_by_one_results _ (fun w => Gemini.current_model_index w.1)
               (fun w => length (Gemini.available_models w.1))).
      by apply gemini_steps_by_one.
Qed.

Lemma model_switch_walks_forward_witness :
  (forall model env, (accepts_all model env).1 = None)
  /\ (call_times (Gemini._switch_to_next_model accepts_all) 4%nat gemini_start).1
     = [true; true; false; false].
Proof.
  split; [done|].
  exact (proj2 (proj2 (proj2 model_switch_walks_forward unit accepts_all
                             gemini_start 4%nat))
               (fun _ _ => eq_refl)).
Defined.

(** C5 as stated fails: with three models, entered at the first, a Gemini
    adapter whose second model cannot be initialised answers true only
    once, not twice. *)
Lemma gemini_skips_failed_model :
  length (Gemini.available_models gemini_start.1) = 3%nat
  /\ Gemini.current_model_index gemini_start.1 = 0%nat
  /\ (call_times (Gemini._switch_to_next_model (refuses "gemini-1.5-flash"))
                 2%nat gemini_start).1 = [true; false]
  /\ (call_times (Gemini._switch_to_next_model (refuses "gemini-1.5-flash"))
                 2%nat gemini_start).1 <> expected_switches 3 0 2.
Proof. split_and!; [done|done|done|]. vm_compute. discriminate. Qed.

(** ** The JSON extraction *)

Section RegexFacts.

Lemma append_cons x (a b : string) : String x a +:+ b = String x (a +:+ b).
Proof. reflexivity. Qed.

Lemma append_nil_l (a : string) : EmptyString +:+ a = a.
Proof. reflexivity. Qed.

Lemma append_assoc (a b c : string) : (a +:+ b) +:+ c = a +:+ b +:+ c.
Proof.
  induction a as [|x a IH]; [done|]. by rewrite !append_cons, IH.
Qed.

Lemma append_nil_r (a : string) : a +:+ EmptyString = a.
Proof. induction a as [|x a IH]; [done|]. by rewrite append_cons, IH. Qed.

Lemma length_append (a b : string) :
  String.length (a +:+ b) = (String.length a + String.length b)%nat.
Proof.
  induction a as [|x a IH]; [done|].
  rewrite append_cons. cbn [String.length]. by rewrite IH.
Qed.

Lemma substring_prefix (a b : string) :
  String.substring 0 (String.length a) (a +:+ b) = a.
Proof.
  induction a as [|x a IH]; [by destruct b|].
  rewrite append_cons. cbn [String.length String.substring]. by rewrite IH.
Qed.

(** Soundness of the backtracking search: what it returns is a text the
    pattern matches, followed by what the continuation accepted. *)
Lemma bt_sound r : forall s k x,
  bt r s k = Some x ->
  exists s1 s2, s = s1 +:+ s2 /\ matches r s1 /\ k s2 = Some x.
Proof.
  induction r as [c|cs|r1 IH1 r2 IH2|r IH]; intros s k x; cbn [bt].
  - destruct s as [|d s]; [done|].
    destruct (Ascii.eqb_spec c d) as [->|]; [|done].
    intros Hk. exists (String d EmptyString), s. split_and!; [done|constructor|done].
  - destruct s as [|d s]; [done|].
    destruct (in_class d cs) eqn:Hin; [done|].
    intros Hk. exists (String d EmptyString), s.
    split_and!; [done|by constructor|done].
  - intros H. apply IH1 in H as (s1 & s' & -> & Hm1 & H).
    apply IH2 in H as (s2 & s3 & -> & Hm2 & H).
    exists (s1 +:+ s2), s3. rewrite append_assoc.
    split_and!; [done|by constructor|done].
  - generalize (String.length s) at 1. intros fuel. revert s.
    induction fuel as [|fuel IHf]; intros s.
    + intros Hk. exists EmptyString, s. split_and!; [done|constructor|done].
    + destruct (bt r s _) as [rest|] eqn:Hbt.
      * intros [= ->]. apply IH in Hbt as (s1 & s' & -> & Hm1 & H).
        destruct (_ <? _)%nat; [|done].
        apply IHf in H as (s2 & s3 & -> & Hm2 & H).
        exists (s1 +:+ s2), s3. rewrite append_assoc.
        split_and!; [done|by constructor|done].
      * intros Hk. exists EmptyString, s. split_and!; [done|constructor|done].
Qed.

Lemma bt_match_text r s rest :
  bt r s Some = Some rest ->
  exists m,
    s = m +:+ rest /\ matches r m
    /\ String.substring 0 (String.length s - String.length rest) s = m.
Proof.
  intros (s1 & s2 & -> & Hm & [= ->])%bt_sound.
  exists s1. split_and!; [done..|].
  by rewrite length_append, Nat.add_sub, substring_prefix.
Qed.

Lemma re_search_sound r s m :
  re_search r s = Some m ->
  exists before rest, s = before +:+ m +:+ rest /\ matches r m.
Proof.
  induction s as [|c s IH]; cbn [re_search].
  - destruct (bt r EmptyString Some) as [rest|] eqn:Hbt; [|done].
    apply bt_match_text in Hbt as (m' & Hs & Hm & ->).
    intros [= <-]. by exists EmptyString, rest.
  - destruct (bt r (String c s) Some) as [rest|] eqn:Hbt.
    + apply bt_match_text in Hbt as (m' & Hs & Hm & ->).
      intros [= <-]. by exists EmptyString, rest.
    + intros (before & rest & -> & Hm)%IH.
      by exists (String c before), rest.
Qed.

Lemma not_brace_char c :
  in_class c ["{"; "}"]%char = false ->
  Ascii.eqb c "{" = false /\ Ascii.eqb c "}" = false.
Proof.
  unfold in_class. cbn [existsb]. rewrite orb_false_r.
  intros [H1 H2]%orb_false_iff. done.
Qed.

Lemma flat_body_skip u :
  matches (Star not_brace) u ->
  forall depth v, flat_body depth (u +:+ v) = flat_body depth v.
Proof.
  intros H. remember (Star not_brace) as r eqn:Hr.
  induction H as [| | | |r' s1 s2 H1 _ H2 IH2]; try done.
  injection Hr as ->. intros depth v.
  inversion H1 as [|cs c Hc| | |]; subst.
  apply not_brace_char in Hc as [Ho Hc].
  rewrite append_assoc, append_cons, append_nil_l. cbn [flat_body].
  rewrite Ho, Hc. by apply IH2.
Qed.

Lemma flat_body_groups g :
  matches (Star (Seq (Chr "{")
                   (Seq (Star not_brace) (Seq (Chr "}") (Star not_brace))))) g ->
  forall v, flat_body 0 (g +:+ v) = flat_body 0 v.
Proof.
  intros H. remember (Star _) as r eqn:Hr.
  induction H as [| | | |r' s1 s2 H1 _ H2 IH2]; try done.
  injection Hr as ->. intros v.
  inversion H1 as [| |? ? o rest1 Ho Hrest1| |]; subst.
  inversion Ho; subst.
  inversion Hrest1 as [| |? ? u rest2 Hu Hrest2| |]; subst.
  inversion Hrest2 as [| |? ? c u' Hc Hu'| |]; subst.
  inversion Hc; subst.
  rewrite !append_assoc, !append_cons, !append_nil_l.
  change (flat_body 0 (String "{" ?t)) with (flat_body 1 t).
  rewrite (flat_body_skip u Hu).
  change (flat_body 1 (String "}" ?t)) with (flat_body 0 t).
  rewrite (flat_body_skip u' Hu'). by apply IH2.
Qed.

Lemma json_re_brace_object m : matches json_re m -> brace_object m.
Proof.
  intros H. unfold json_re in H.
  inversion H as [| |? ? o rest1 Ho Hrest1| |]; subst.
  inversion Ho; subst.
  inversion Hrest1 as [| |? ? u rest2 Hu Hrest2| |]; subst.
  inversion Hrest2 as [| |? ? g c Hg Hc| |]; subst.
  inversion Hc; subst.
  exists (u +:+ g). split.
  - by rewrite !append_assoc.
  - by rewrite <- (append_nil_r g), (flat_body_skip u Hu), (flat_body_groups g Hg).
Qed.

Lemma brace_object_braces s :
  has_brace_object s -> contains "{" s = true /\ contains "}" s = true.
Proof.
  intros (before & object & rest & -> & body & -> & _). split.
  - rewrite (append_assoc "{"). apply contains_app.
  - rewrite (append_assoc "{"), <- (append_assoc before), (append_assoc body),
      <- (append_assoc _ body).
    apply contains_app.
Qed.

(** Completeness of the backtracking search: a text the pattern matches,
followed by something the continuation accepts, is not missed. *)
Lemma bt_complete r : forall s1 s2 k,
  matches r s1 -> is_Some (k s2) -> is_Some (bt r (s1 +:+ s2) k).
Proof.
  induction r as [c|cs|r1 IH1 r2 IH2|r IH]; intros s1 s2 k Hm Hk.
  - inversion Hm; subst. rewrite append_cons, append_nil_l. cbn [bt].
    by rewrite Ascii.eqb_refl.
  - inversion Hm as [|? c Hc| | |]; subst.
    rewrite append_cons, append_nil_l. cbn [bt]. by rewrite Hc.
  - inversion Hm as [| |? ? a b Ha Hb| |]; subst.
    rewrite append_assoc. cbn [bt]. apply IH1; [done|]. by apply IH2.
  - cbn [bt].
    assert (forall fuel, String.length (s1 +:+ s2) <= fuel ->
              is_Some ((fix star (fuel : nat) (s : string) : option string :=
                          match fuel with
                          | O => k s
                          | S fuel' =>
                              match bt r s (fun s' : string =>
                                      if (String.length s' <? String.length s)%nat
                                      then star fuel' s' else None) with
                              | Some rest => Some rest
                              | None => k s
                              end
                          end) fuel (s1 +:+ s2)))%nat as Hstar; [|by apply Hstar].
    remember (Star r) as r' eqn:Hr.
    induction Hm as [| | | |r0 a b Ha _ Hb IHb]; try done.
    + intros [|fuel] _; [done|]. rewrite append_nil_l.
      by destruct (bt r s2 _).
    + injection Hr as ->. specialize (IHb eq_refl).
      destruct a as [|x a]; [by rewrite append_nil_l|].
      intros [|fuel] Hfuel.
      { rewrite append_assoc, append_cons in Hfuel. cbn in Hfuel. lia. }
      rewrite append_assoc.
      rewrite append_assoc, length_append in Hfuel. cbn [String.length] in Hfuel.
      match goal with
      | |- is_Some (match ?b with _ => _ end) =>
          assert (is_Some b) as [rest ->]; [|done]
      end.
      apply IH; [done|].
      rewrite !length_append. cbn [String.length].
      destruct (Nat.ltb_spec (String.length b + String.length s2)
                  (S (String.length a) + (String.length b + String.length s2)));
        [|lia].
      apply IHb. lia.
Qed.

Lemma re_search_complete r before m rest :
  matches r m -> is_Some (re_search r (before +:+ m +:+ rest)).
Proof.
  intros Hm. induction before as [|c before IH].
  - rewrite append_nil_l.
    destruct (bt_complete r m rest Some Hm) as [x Hx]; [done|].
    destruct (m +:+ rest); cbn [re_search]; by rewrite Hx.
  - rewrite append_cons. cbn [re_search].
    by destruct (bt r _ Some).
Qed.

Lemma star_not_brace_cons c u :
  Ascii.eqb c "{" = false -> Ascii.eqb c "}" = false ->
  matches (Star not_brace) u -> matches (Star not_brace) (String c u).
Proof.
  intros Ho Hc Hu.
  change (String c u) with (String c EmptyString +:+ u).
  apply m_star_more; [|done]. apply m_none_of.
  unfold in_class. cbn [existsb]. by rewrite Ho, Hc.
Qed.

(** A body the depth scan accepts is a run of non-braces followed by
groups; read from inside a group, it first closes that group. *)
Lemma flat_body_matches t :
  (flat_body 0 t = true ->
   exists u g,
     t = u +:+ g /\ matches (Star not_brace) u
     /\ matches (Star (Seq (Chr "{")
                         (Seq (Star not_brace)
                            (Seq (Chr "}") (Star not_brace))))) g)
  /\ (flat_body 1 t = true ->
      exists u u' g,
        t = u +:+ "}" +:+ u' +:+ g /\ matches (Star not_brace) u
        /\ matches (Star not_brace) u'
        /\ matches (Star (Seq (Chr "{")
                            (Seq (Star not_brace)
                               (Seq (Chr "}") (Star not_brace))))) g).
Proof.
  induction t as [|c t [IH0 IH1]].
  - split; [|done]. intros _. exists EmptyString, EmptyString.
    split_and!; [done|constructor|constructor].
  - cbn [flat_body].
    destruct (Ascii.eqb_spec c "{") as [->|Ho];
      [|destruct (Ascii.eqb_spec c "}") as [->|Hc]].
    + split; [|done]. intros (u & u' & g & -> & Hu & Hu' & Hg)%IH1.
      exists EmptyString, (("{" +:+ u +:+ "}" +:+ u') +:+ g).
      split_and!; [by rewrite !append_assoc|constructor|].
      apply m_star_more; [|done].
      repeat (apply m_seq || apply m_chr); done.
    + split; [done|]. intros (u' & g & -> & Hu' & Hg)%IH0.
      exists EmptyString, u', g. split_and!; [done|constructor|done..].
    + apply Ascii.eqb_neq in Ho, Hc. split.
      * intros (u & g & -> & Hu & Hg)%IH0. exists (String c u), g.
        split_and!; [done|by apply star_not_brace_cons|done].
      * intros (u & u' & g & -> & Hu & Hu' & Hg)%IH1.
        exists (String c u), u', g.
        split_and!; [done|by apply star_not_brace_cons|done..].
Qed.

Lemma brace_object_json_re m : brace_object m -> matches json_re m.
Proof.
  intros (body & -> & Hbody).
  apply flat_body_matches in Hbody as (u & g & -> & Hu & Hg).
  rewrite append_assoc. unfold json_re.
  repeat (apply m_seq || apply m_chr); done.
Qed.

(** The extraction misses no object: on an input that contains a
brace-delimited object it returns such an object, taken from the input. *)
Lemma extract_json_finds_object response :
  has_brace_object response ->
  exists object before rest,
    _extract_json_from_response response = (Ok object, [])
    /\ response = before +:+ object +:+ rest /\ brace_object object.
Proof.
  intros (before & object & rest & -> & Hobj).
  unfold _extract_json_from_response.
  destruct (re_search_complete json_re before object rest
              (brace_object_json_re _ Hobj)) as [m Hm].
  rewrite Hm.
  destruct (re_search_sound _ _ _ Hm) as (before' & rest' & Heq & Hmatch).
  exists m, before', rest'. split_and!; [done..|].
  by apply json_re_brace_object.
Qed.

End RegexFacts.

(** C7. [_extract_json_from_response] returns exactly
    [{"a":1,"b":{"c":2}}] on the input
    [prefix {"a":1,"b":{"c":2}} suffix], and on every input that contains
    no brace-delimited object, in particular on every input without
    braces, it raises the error "No JSON object found in response". *)
Theorem extract_json_behaviour :
  _extract_json_from_response sample_reply = (Ok sample_object, [])
  /\ (forall response,
        ~ has_brace_object response ->
        _extract_json_from_response response
        = (Raised (Exn ValueError "No JSON object found in response"),
           [Log error "No JSON object found in response"]))
  /\ (forall response,
        contains "{" response = false \/ contains "}" response = false ->
        _extract_json_from_response response
        = (Raised (Exn ValueError "No JSON object found in response"),
           [Log error "No JSON object found in response"])).
Proof.
  assert (forall response,
             ~ has_brace_object response ->
             _extract_json_from_response response
             = (Raised (Exn ValueError "No JSON object found in response"),
                [Log error "No JSON object found in response"])) as Hnone.
  { intros response Hno. unfold _extract_json_from_response.
    destruct (re_search json_re response) as [m|] eqn:Hs; [|done].
    destruct Hno. apply re_search_sound in Hs as (before & rest & -> & Hm).
    exists before, m, rest. split; [done|]. by apply json_re_brace_object. }
  split_and!; [by vm_compute|exact Hnone|].
  intros response Hfree. apply Hnone. intros Hobj.
  apply brace_object_braces in Hobj as [Ho Hc].
  destruct Hfree; congruence.
Qed.

Lemma extract_json_behaviour_witness :
  contains "{" "no braces here" = false
  /\ _extract_json_from_response "no braces here"
     = (Raised (Exn ValueError "No JSON object found in response"),
        [Log error "No JSON object found in response"]).
Proof.
  split; [done|].
  apply (proj2 (proj2 extract_json_behaviour)). by left.
Defined.

(** ** The output validator *)

Section ValidationFacts.
Variable str_ok float_ok : json -> bool.
Variable describe : list FieldError -> string.

Abbreviation validate := (validate_output str_ok float_ok describe).



Hypothesis str_ok_str : forall s, str_ok (JStr s) = true.







End ValidationFacts.


(** ** The two operations *)

Section OperationFacts.
Context {St : Type}.
Variable provider_name : string.
Variable vendor_call : string -> St -> outcome string * St * list LogRecord.
Variable _switch_to_next_model : St -> bool * St * list LogRecord.
Variable _prompts : gmap string (gmap string string).
Variable format_text : string -> string -> outcome string.
Variable json_loads : string -> outcome json.
Variable write_raw : option string -> string -> string -> St -> option exn * St.
Variable now : St -> Q.
Variable fmt_1f : Q -> string.
Variable time_sleep : Q -> option exn.
Variable str_ok float_ok : json -> bool.
Variable describe : list FieldError -> string.

Abbreviation prompt_for := (get_prompt (St:=St) _prompts format_text).
Abbreviation api_call :=
  (_make_api_call provider_name vendor_call _switch_to_next_model fmt_1f time_sleep).
Abbreviation steps :=
  (guarded_steps provider_name vendor_call _switch_to_next_model json_loads
                 write_raw now fmt_1f time_sleep str_ok float_ok describe).
Abbreviation fails :=
  (step_fails provider_name vendor_call _switch_to_next_model json_loads fmt_1f time_sleep).
Abbreviation closing_comment :=
  (generate_closing_comment provider_name vendor_call _switch_to_next_model
     _prompts format_text json_loads write_raw now fmt_1f time_sleep str_ok float_ok describe).
Abbreviation work_intent :=
  (analyze_work_intent provider_name vendor_call _switch_to_next_model
     _prompts format_text json_loads write_raw now fmt_1f time_sleep str_ok float_ok describe).

(** Each of the listed failures makes the guarded steps raise. *)
Lemma failing_step_raises operation validate prompt test_id st e :
  fails operation prompt test_id st e ->
  exists st1 trace,
    steps operation validate prompt test_id st = (Raised e, st1, trace).
Proof.
  intros Hfail. unfold guarded_steps, bind, read.
  destruct Hfail as [e st1 trace Hcall
                    |response st1 trace Hcall Hnone
                    |response st1 trace json_text e Hcall Hsome Hload];
    rewrite Hcall; cbn [after app].
  - by eexists _, _.
  - unfold _process_ai_response, bind, _save_raw_llm_output, logging,
      _extract_json_from_response.
    rewrite Hnone.
    destruct (write_raw test_id operation response st1) as [[e'|] st2];
      cbn; by eexists _, _.
  - unfold _process_ai_response, bind, _save_raw_llm_output, logging,
      _extract_json_from_response.
    rewrite Hsome.
    destruct (write_raw test_id operation response st1) as [[e'|] st2];
      cbn; rewrite Hload; by eexists _, _.
Qed.

(** Once the prompt is built, [generate_closing_comment] returns. *)
Lemma closing_comment_returns text test_id st prompt st0 tr0 :
  prompt_for "closing_comment" text st = (Ok prompt, st0, tr0) ->
  exists v st1 trace, closing_comment text test_id st = (Ok v, st1, trace).
Proof.
  intros Hp. unfold generate_closing_comment, bind at 1. rewrite Hp.
  unfold try_except.
  destruct (steps "GENERATE_CLOSING_COMMENT" false prompt test_id st0)
    as [[[v|e] st1] trace]; cbn; by eexists _, _, _.
Qed.

(** C9. Once its prompt is built, [generate_closing_comment] does not
    propagate a failure of one of its steps (the API call failing for
    good, on a fatal error or on exhausted retries, no JSON object in
    the reply, or a JSON object that does not parse): it returns the
    soft default, the comment "Error generating closing comment" with a
    null downtime.  [analyze_work_intent] propagates the same failures
    to its caller. *)
Theorem closing_comment_swallows_failures
    (text : string) (test_id : option string) (st : St)
    (prompt : string) (st0 : St) (tr0 : list Event) (e : exn) :
  (prompt_for "closing_comment" text st = (Ok prompt, st0, tr0) ->
   fails "GENERATE_CLOSING_COMMENT" prompt test_id st0 e ->
   exists st1 trace,
     closing_comment text test_id st = (Ok soft_default, st1, trace))
  /\ (prompt_for "work_triaging" text st = (Ok prompt, st0, tr0) ->
      fails "ANALYZE_WORK_INTENT" prompt test_id st0 e ->
      exists st1 trace,
        work_intent text test_id st = (Raised e, st1, trace)).
Proof.
  split; intros Hp Hfail.
  - destruct (failing_step_raises _ false _ _ _ _ Hfail) as (st1 & trace & Hs).
    unfold generate_closing_comment, bind at 1. rewrite Hp.
    unfold try_except. rewrite Hs. cbn. by eexists _, _.
  - destruct (failing_step_raises _ true _ _ _ _ Hfail) as (st1 & trace & Hs).
    unfold analyze_work_intent, bind at 1. rewrite Hp.
    unfold try_except. rewrite Hs. cbn. by eexists _, _.
Qed.

End OperationFacts.

Lemma closing_comment_swallows_failures_witness :
  get_prompt sample_prompts format_append "closing_comment" "pump replaced" tt
  = (Ok "Summarise the work done: pump replaced", tt, [])
  /\ exists st1 trace,
      generate_closing_comment "Claude" vendor_unauthorized no_fallback
        sample_prompts format_append loads_nothing write_raw_ok clock_one fmt_plain python_sleep
        strict_str strict_float (fun _ => "invalid")
        "pump replaced" None tt
      = (Ok soft_default, st1, trace).
Proof.
  split; [reflexivity|].
  refine (proj1 (closing_comment_swallows_failures
                   "Claude" vendor_unauthorized no_fallback sample_prompts
                   format_append loads_nothing write_raw_ok clock_one fmt_plain python_sleep
                   strict_str strict_float (fun _ => "invalid")
                   "pump replaced" None tt
                   "Summarise the work done: pump replaced" tt []
                   (Exn ValueError "Invalid or expired Claude API key"))
                eq_refl _).
  eapply api_call_fails. reflexivity.
Defined.

(** ** A whole classification, end to end *)

(** The first call fails with "model XYZ not found": the engine switches
    the Claude adapter to its next model, sleeps one base delay and calls
    again; the reply is extracted, parsed and validated, and the index
    has advanced exactly once. *)
Example classification_after_model_switch :
  let run :=
    analyze_work_intent "Claude" (Adapters.make_claude_call flaky_create)
      Adapters.claude_switch triage_prompts format_append loads_sample
      write_raw_ok clock_one fmt_plain python_sleep strict_str strict_float
      (fun _ => "invalid") "pump P-101 is leaking" None claude_start in
  run.1.1 = Ok sample_triage
  /\ Claude.current_model_index claude_start.1 = 0%nat
  /\ Claude.current_model_index run.1.2.1 = 1%nat
  /\ calls run.2 = 2%nat
  /\ switches run.2 = [true]
  /\ sleeps run.2 = [1%Q].
Proof. vm_compute. repeat split. Qed.

(** * Further properties of the code *)

(** ** The retry engine over a whole run *)

Section EngineRuns.
Context {St : Type}.
Variable api_call_func : St -> outcome string * St * list LogRecord.
Variable _switch_to_next_model : St -> bool * St * list LogRecord.
Variable fmt_1f : Q -> string.
Variable time_sleep : Q -> option exn.
Variable operation : string.
Variable max_retries : Z.
Variable base_wait_time : Q.
Variable provider_name : string.

Abbreviation loop :=
  (retry_loop api_call_func _switch_to_next_model fmt_1f time_sleep operation
              max_retries base_wait_time provider_name).
Abbreviation engine :=
  (_execute_with_retry api_call_func _switch_to_next_model fmt_1f time_sleep operation
                       max_retries base_wait_time provider_name).

Lemma maybe_switch_once ty st st2 switching :
  maybe_switch _switch_to_next_model operation ty st = (st2, switching) ->
  (length (switches switching) <= 1)%nat.
Proof.
  unfold maybe_switch. destruct (bool_decide _); [|intros [= _ <-]; cbn; lia].
  destruct (_switch_to_next_model st) as [[switched st'] told].
  intros [= _ <-]. rewrite switches_app, switches_logs. cbn. lia.
Qed.

(** One iteration of the loop: it returns, it raises one of the errors
    of the engine, its wait fails, or it sleeps and goes on with the
    next attempt. *)
Lemma loop_cases remaining attempt st :
  let run := loop (S remaining) attempt st in
  (exists text st1 pre, logs_only pre /\ run = (Ok text, st1, ECall :: pre))
  \/ (exists e st1 pre,
        calls pre = 0%nat /\ sleeps pre = [] /\ switches pre = []
        /\ run = (Raised e, st1, ECall :: pre)
        /\ e ∈ engine_errors operation max_retries provider_name
        /\ e <> Exn Exception ("Unexpected error in " +:+ operation))
  \/ (attempt < max_retries
      /\ exists e st2 pre,
          calls pre = 0%nat /\ sleeps pre = []
          /\ (length (switches pre) <= 1)%nat
          /\ run = (Raised e, st2, ECall :: pre)
          /\ (_get_retry_delay attempt base_wait_time = Raised e
              \/ exists delay,
                  _get_retry_delay attempt base_wait_time = Ok delay
                  /\ time_sleep delay = Some e))
  \/ (attempt < max_retries
      /\ exists pre st2,
          calls pre = 0%nat /\ sleeps pre = []
          /\ (length (switches pre) <= 1)%nat
          /\ time_sleep (backoff attempt base_wait_time) = None
          /\ run = after (ECall :: pre
                          ++ [ESleep (backoff attempt base_wait_time)])
                         (loop remaining (attempt + 1) st2)).
Proof.
  cbn zeta.
  destruct (api_call_func st) as [[[text|e] st1] said] eqn:Hf.
  { left. rewrite (loop_success _ _ _ _ _ _ _ _ _ _ _ _ _ _ Hf).
    eexists _, _, _. split; [apply logs_only_map|done]. }
  destruct (_handle_api_error (exn_str e) attempt max_retries operation
              provider_name) as [[retry ty] logged] eqn:Hc.
  destruct (error_messages provider_name ty) as [message|] eqn:Hm.
  { right. left.
    rewrite (loop_fatal _ _ _ _ _ _ _ _ _ _ _ _ _ _ _ _ _ _ Hf Hc Hm).
    eexists _, _, _. split_and!; [| | |reflexivity| |].
    - rewrite !calls_app, !calls_logs. done.
    - rewrite !sleeps_app, !sleeps_logs. done.
    - rewrite !switches_app, !switches_logs. done.
    - unfold engine_errors.
      destruct ty; try done; injection Hm as <-; set_solver.
    - intros [=]. }
  destruct (Z_lt_le_dec attempt max_retries) as [Hlt|Hge].
  - right. right.
    destruct (loop_retry api_call_func _switch_to_next_model fmt_1f time_sleep
                operation max_retries base_wait_time provider_name remaining
                attempt st e st1 said retry ty logged Hf Hc Hm Hlt) as [-> ->].
    destruct (maybe_switch _ _ _ _) as [st2 switching] eqn:Hsw.
    destruct (maybe_switch_quiet _ _ _ _ _ _ Hsw) as [Hcalls Hsleeps].
    pose proof (maybe_switch_once _ _ _ _ Hsw) as Honce.
    destruct (_get_retry_delay attempt base_wait_time) as [delay|e'] eqn:Hd.
    2:{ left. split; [done|].
        exists e', st2,
          (map ELog said ++ map ELog logged ++ [EClassify ty true]
           ++ switching).
        split_and!.
        - rewrite !calls_app, !calls_logs, Hcalls. done.
        - rewrite !sleeps_app, !sleeps_logs, Hsleeps. done.
        - rewrite !switches_app, !switches_logs. cbn. lia.
        - f_equal. cbn [app]. f_equal.
          by repeat first [rewrite <- app_assoc | progress cbn [app]].
        - by left. }
    destruct (time_sleep delay) as [e'|] eqn:Hs.
    + left. split; [done|].
      exists e', st2,
        (map ELog said ++ map ELog logged ++ [EClassify ty true] ++ switching
         ++ [ELog (retry_log fmt_1f operation max_retries attempt delay)]).
      split_and!.
      * rewrite !calls_app, !calls_logs, Hcalls. done.
      * rewrite !sleeps_app, !sleeps_logs, Hsleeps. done.
      * rewrite !switches_app, !switches_logs. cbn.
        rewrite length_app. cbn. lia.
      * f_equal. cbn [app]. f_equal.
        by repeat first [rewrite <- app_assoc | progress cbn [app]].
      * right. by exists delay.
    + right. split; [done|].
      destruct (retry_delay_ok _ _ _ Hd) as [_ ->].
      exists (map ELog said ++ map ELog logged ++ [EClassify ty true]
              ++ switching
              ++ [ELog (retry_log fmt_1f operation max_retries attempt
                                  (backoff attempt base_wait_time))]),
        st2.
      split_and!.
      * rewrite !calls_app, !calls_logs, Hcalls. done.
      * rewrite !sleeps_app, !sleeps_logs, Hsleeps. done.
      * rewrite !switches_app, !switches_logs. cbn.
        rewrite length_app. cbn. lia.
      * exact Hs.
      * f_equal. cbn [app]. f_equal.
        by repeat first [rewrite <- app_assoc | progress cbn [app]].
  - right. left.
    rewrite (loop_exhausted _ _ _ _ _ _ _ _ _ _ _ _ _ _ _ _ _ Hf Hc Hm Hge).
    eexists _, _, _. split_and!; [| | |reflexivity| |].
    + rewrite !calls_app, !calls_logs. done.
    + rewrite !sleeps_app, !sleeps_logs. done.
    + rewrite !switches_app, !switches_logs. done.
    + unfold engine_errors. set_solver.
    + unfold exhausted_message. by intros [= H].
Qed.

Lemma schedule_from attempt k :
  backoff attempt base_wait_time
  :: map (fun i => backoff (attempt + 1 + Z.of_nat i) base_wait_time)
         (seq 0 k)
  = map (fun i => backoff (attempt + Z.of_nat i) base_wait_time)
        (seq 0 (S k)).
Proof.
  cbn [seq map]. f_equal; [f_equal; lia|].
  rewrite <- seq_shift, map_map. apply map_ext. intros i. f_equal. lia.
Qed.

Lemma logs_only_switches pre : logs_only pre -> switches pre = [].
Proof. induction 1 as [|x pre Hx _ IHp]; [done|]. by destruct x. Qed.

(** What a run of the loop amounts to, when the iterations left are those
    of the [for] loop at this attempt. *)
Lemma loop_budget remaining attempt st :
  Z.of_nat remaining = Z.max 0 (max_retries + 1 - attempt) ->
  let run := loop remaining attempt st in
  (remaining = 0%nat /\ run.2 = []
   \/ (calls run.2 = S (length (sleeps run.2))
       /\ (calls run.2 <= remaining)%nat))
  /\ (length (switches run.2) <= S (length (sleeps run.2)))%nat
  /\ sleeps run.2
     = map (fun i => backoff (attempt + Z.of_nat i) base_wait_time)
           (seq 0 (length (sleeps run.2)))
  /\ Forall (fun delay => time_sleep delay = None) (sleeps run.2)
  /\ (forall text, run.1.1 = Ok text ->
       (length (switches run.2) <= length (sleeps run.2))%nat)
  /\ (forall e, run.1.1 = Raised e ->
       (e ∈ engine_errors operation max_retries provider_name
        /\ (e = Exn Exception ("Unexpected error in " +:+ operation) ->
            remaining = 0%nat)
        /\ (length (switches run.2) <= length (sleeps run.2))%nat)
       \/ (exists n, attempt <= n < max_retries
                     /\ _get_retry_delay n base_wait_time = Raised e)
       \/ (exists n delay, attempt <= n < max_retries
                           /\ _get_retry_delay n base_wait_time = Ok delay
                           /\ time_sleep delay = Some e)).
Proof.
  revert attempt st. induction remaining as [|remaining IH];
    intros attempt st Hrem; cbn zeta.
  { cbn. split_and!; [by left|lia|done|done|done|].
    intros e [= <-]. left. split_and!; [unfold engine_errors; set_solver|done|done]. }
  destruct (loop_cases remaining attempt st)
    as [(text & st1 & pre & Hpre & ->)
       |[(e & st1 & pre & Hc & Hs & Hw & -> & Hin & Hne)
        |[(Hlt & e & st2 & pre & Hc & Hs & Hw & -> & Hfail)
         |(Hlt & pre & st2 & Hc & Hs & Hw & Hslept & ->)]]]; cbn [fst snd].
  - destruct (logs_only_quiet _ Hpre) as [Hc Hs].
    rewrite calls_cons, sleeps_call, switches_call, Hc, Hs,
      (logs_only_switches _ Hpre). cbn.
    split_and!; [right; lia|lia|done|done|done|done].
  - rewrite calls_cons, sleeps_call, switches_call, Hc, Hs, Hw. cbn.
    split_and!; [right; lia|lia|done|done|done|].
    intros e' [= <-]. left. done.
  - rewrite calls_cons, sleeps_call, switches_call, Hc, Hs. cbn.
    split_and!; [right; lia|lia|done|done|done|].
    intros e' [= <-]. right.
    destruct Hfail as [Hd|(delay & Hd & Hsl)].
    + left. exists attempt. split; [lia|done].
    + right. exists attempt, delay. split; [lia|done].
  - specialize (IH (attempt + 1) st2).
    destruct (loop remaining (attempt + 1) st2) as [[o st3] rest] eqn:Hrest.
    cbn [after fst snd] in *.
    destruct IH as (Hcount & Hswitch & Hsched & Hall & Hok & Herr); [lia|].
    destruct Hcount as [[-> _]|[Hcount Hle]]; [lia|].
    cbn [app].
    rewrite calls_cons, sleeps_call, switches_call.
    rewrite !calls_app, !sleeps_app, !switches_app, Hc, Hs.
    change (calls [ESleep ?d]) with 0%nat.
    change (sleeps [ESleep ?d]) with [d].
    change (switches [ESleep ?d]) with (@nil bool).
    cbn [app is_call]. rewrite !length_app. cbn [length].
    split_and!.
    + right. lia.
    + lia.
    + rewrite Hsched at 1. apply schedule_from.
    + by constructor.
    + intros text Ho. specialize (Hok text Ho). lia.
    + intros e He.
      destruct (Herr e He)
        as [(Hin & Hun & Hsw)|[(n & Hn & Hd)|(n & delay & Hn & Hd & Hsl)]].
      * left. split_and!; [done| |lia].
        intros ->. specialize (Hun eq_refl). lia.
      * right. left. exists n. split; [lia|done].
      * right. right. exists n, delay. split; [lia|done].
Qed.

(** X1. Whatever the callable does, [_execute_with_retry] calls it at
    most [max_retries] times and sleeps exactly once between two
    consecutive calls, and not after the last one.  It attempts at most
    one model switch per sleep when it returns; in a run that raises, one
    more switch may have been attempted, before a wait that failed.
    Every delay slept is one [time.sleep] accepted. *)
Theorem engine_call_budget (st : St) :
  let run := engine st in
  let trace := run.2 in
  Z.of_nat (calls trace) <= Z.max 0 max_retries
  /\ (calls trace = 0%nat /\ sleeps trace = []
      \/ calls trace = S (length (sleeps trace)))
  /\ (length (switches trace) <= S (length (sleeps trace)))%nat
  /\ (forall text, run.1.1 = Ok text ->
       (length (switches trace) <= length (sleeps trace))%nat)
  /\ Forall (fun delay => time_sleep delay = None) (sleeps trace).
Proof.
  cbn zeta. unfold _execute_with_retry.
  destruct (loop_budget (Z.to_nat max_retries) 1 st)
    as (Hcount & Hsw & _ & Hall & Hok & _); [lia|].
  destruct Hcount as [[H0 Hnil]|[Hcalls Hle]].
  - rewrite Hnil in *. cbn. split_and!; [lia|by left|lia|done|done].
  - split_and!; [lia|by right|done|done|done].
Qed.

(** X2. In every run the delays slept are, in order, those of the
    attempts 1, 2, 3, ...: the k-th sleep of a run lasts
    [base_wait_time * 2^(k-1)], whatever errors were met. *)
Theorem engine_backoff_schedule (st : St) :
  let trace := (engine st).2 in
  sleeps trace = backoff_schedule base_wait_time (length (sleeps trace)).
Proof.
  cbn zeta. unfold _execute_with_retry.
  destruct (loop_budget (Z.to_nat max_retries) 1 st) as (_ & _ & Hsched & _); [lia|].
  rewrite Hsched at 1. unfold backoff_schedule.
  rewrite <- seq_shift, map_map. apply map_ext. intros i. f_equal. lia.
Qed.

Lemma total_wait_app l d : (total_wait (l ++ [d]) == total_wait l + d)%Q.
Proof.
  induction l as [|x l IH]; cbn [total_wait fold_right app].
  - ring.
  - fold (total_wait (l ++ [d])). fold (total_wait l). rewrite IH. ring.
Qed.

Lemma total_wait_schedule k :
  (total_wait (backoff_schedule base_wait_time k)
   == base_wait_time * (inject_Z (2 ^ Z.of_nat k) - 1))%Q.
Proof.
  induction k as [|k IH].
  - change (total_wait (backoff_schedule base_wait_time 0)) with 0%Q.
    change (inject_Z (2 ^ Z.of_nat 0)) with 1%Q. ring.
  - unfold backoff_schedule in *. rewrite seq_S, map_app. cbn [map].
    rewrite total_wait_app, IH.
    rewrite (retry_delay_power base_wait_time (Z.of_nat (1 + k))) by lia.
    replace (Z.of_nat (1 + k) - 1) with (Z.of_nat k) by lia.
    replace (Z.of_nat (S k)) with (Z.succ (Z.of_nat k)) by lia.
    rewrite Z.pow_succ_r by lia. rewrite inject_Z_mult. ring.
Qed.

(** X3. With a non-negative base delay, the time a run spends sleeping
    is at most [base_wait_time * (2^(max_retries - 1) - 1)]. *)
Theorem engine_total_wait_bound (st : St) :
  1 <= max_retries ->
  (0 <= base_wait_time)%Q ->
  (total_wait (sleeps (engine st).2)
   <= base_wait_time * (inject_Z (2 ^ (max_retries - 1)) - 1))%Q.
Proof.
  intros Hmax Hbase. unfold _execute_with_retry.
  destruct (loop_budget (Z.to_nat max_retries) 1 st)
    as (Hcount & _ & Hsched & _); [lia|].
  set (k := length (sleeps _)) in *.
  assert (Z.of_nat k <= max_retries - 1) as Hk.
  { destruct Hcount as [[H0 _]|[Hcalls Hle]]; lia. }
  assert (sleeps (loop (Z.to_nat max_retries) 1 st).2
          = backoff_schedule base_wait_time k) as ->.
  { rewrite Hsched. unfold backoff_schedule.
    rewrite <- seq_shift, map_map. apply map_ext. intros i. f_equal. lia. }
  rewrite total_wait_schedule.
  rewrite !(Qmult_comm base_wait_time).
  apply Qmult_le_compat_r; [|done].
  unfold Qminus. apply Qplus_le_l. rewrite <- Zle_Qle.
  apply Z.pow_le_mono_r; lia.
Qed.

(** X4. [_execute_with_retry] never lets the exception of the callable
    through.  Without an attempt ([max_retries] below 1) it raises the
    "Unexpected error".  Otherwise what it raises is one of its four
    other errors (invalid API key, content policy, prompt too long,
    retries exhausted), or what [_get_retry_delay] raised for an attempt
    below [max_retries], or what [time.sleep] raised for the delay of
    such an attempt. *)
Theorem engine_raises_own_errors (st : St) (e : exn) :
  (engine st).1.1 = Raised e ->
  (max_retries < 1
   /\ e = Exn Exception ("Unexpected error in " +:+ operation))
  \/ (1 <= max_retries
      /\ ((e ∈ engine_errors operation max_retries provider_name
           /\ e <> Exn Exception ("Unexpected error in " +:+ operation))
          \/ (exists n, 1 <= n < max_retries
                        /\ _get_retry_delay n base_wait_time = Raised e)
          \/ (exists n delay,
                 1 <= n < max_retries
                 /\ _get_retry_delay n base_wait_time = Ok delay
                 /\ time_sleep delay = Some e))).
Proof.
  unfold _execute_with_retry. intros He.
  destruct (Z_lt_le_dec max_retries 1) as [Hlt|Hge].
  - left. split; [done|].
    replace (Z.to_nat max_retries) with 0%nat in He by lia.
    cbn in He. by injection He as <-.
  - right. split; [done|].
    destruct (loop_budget (Z.to_nat max_retries) 1 st)
      as (_ & _ & _ & _ & _ & Herr); [lia|].
    destruct (Herr e He) as [(Hin & Hun & _)|[Hdelay|Hsleep]]; [|auto..].
    left. split; [done|]. intros ->. specialize (Hun eq_refl). lia.
Qed.

End EngineRuns.

Lemma engine_total_wait_bound_witness :
  1 <= 3 /\ (0 <= 1 # 2)%Q
  /\ (total_wait (sleeps (_execute_with_retry
                            (always_raising "rate_limit reached") no_fallback
                            fmt_plain python_sleep "ANALYZE" 3 (1 # 2) "Claude" tt).2)
      <= (1 # 2) * (inject_Z (2 ^ (3 - 1)) - 1))%Q.
Proof.
  assert (0 <= 1 # 2)%Q as Hbase by (by vm_compute).
  split; [lia|]. split; [exact Hbase|].
  apply (engine_total_wait_bound (always_raising "rate_limit reached")
           no_fallback fmt_plain python_sleep "ANALYZE" 3 (1 # 2) "Claude" tt); [lia|exact Hbase].
Defined.

Lemma engine_raises_own_errors_witness :
  (_execute_with_retry (always_raising "connection reset by peer") no_fallback
                       fmt_plain python_sleep "ANALYZE" 2 (-1) "Claude" tt).1.1
  = Raised (Exn ValueError "sleep length must be non-negative")
  /\ exists n delay,
      1 <= n < 2 /\ _get_retry_delay n (-1) = Ok delay
      /\ python_sleep delay
         = Some (Exn ValueError "sleep length must be non-negative").
Proof.
  split; [reflexivity|].
  destruct (engine_raises_own_errors
              (always_raising "connection reset by peer") no_fallback fmt_plain
              python_sleep "ANALYZE" 2 (-1) "Claude" tt
              (Exn ValueError "sleep length must be non-negative") eq_refl)
    as [[Hlt _]|[_ [[Hin _]|[(n & Hn & Hd)|Hsleep]]]].
  - lia.
  - exfalso. unfold engine_errors in Hin.
    rewrite !elem_of_cons, elem_of_nil in Hin.
    destruct Hin as [H|[H|[H|[H|[H|[]]]]]]; discriminate H.
  - exfalso. assert (n = 1) as -> by lia. discriminate Hd.
  - exact Hsleep.
Defined.

Lemma engine_call_budget_witness :
  let run := _execute_with_retry (always_raising "model XYZ not found")
               no_fallback fmt_plain python_sleep "ANALYZE" 3 (-1) "Claude" tt in
  calls run.2 = 1%nat /\ sleeps run.2 = [] /\ switches run.2 = [false]
  /\ (length (switches run.2) <= S (length (sleeps run.2)))%nat.
Proof.
  split; [reflexivity|]. split; [reflexivity|]. split; [reflexivity|].
  exact (proj1 (proj2 (proj2
           (engine_call_budget (always_raising "model XYZ not found")
              no_fallback fmt_plain python_sleep "ANALYZE" 3 (-1) "Claude"
              tt)))).
Defined.

(** A run that returns has called the API: at least once, and at most
    [max_retries] times. *)
Lemma engine_ok_called {St : Type}
    (api_call_func : St -> outcome string * St * list LogRecord)
    (switch : St -> bool * St * list LogRecord) (fmt_1f : Q -> string)
    (time_sleep : Q -> option exn)
    (operation : string) (max_retries : Z) (base_wait_time : Q)
    (provider_name : string) (st st1 : St) (text : string) (trace : list Event) :
  _execute_with_retry api_call_func switch fmt_1f time_sleep operation max_retries
                      base_wait_time provider_name st = (Ok text, st1, trace) ->
  (1 <= calls trace)%nat /\ Z.of_nat (calls trace) <= max_retries.
Proof.
  unfold _execute_with_retry. intros Hrun.
  destruct (loop_budget api_call_func switch fmt_1f time_sleep operation
              max_retries base_wait_time provider_name
              (Z.to_nat max_retries) 1 st)
    as ([[H0 Hnil]|[Hcalls Hle]] & _); [lia| |].
  - rewrite H0 in Hrun. cbn in Hrun. discriminate.
  - rewrite Hrun in Hcalls, Hle. cbn [snd] in Hcalls, Hle. lia.
Qed.

(** ** Prompts and reply processing *)

Section OperationRuns.
Context {St : Type}.
Variable provider_name : string.
Variable vendor_call : string -> St -> outcome string * St * list LogRecord.
Variable _switch_to_next_model : St -> bool * St * list LogRecord.
Variable _prompts : gmap string (gmap string string).
Variable format_text : string -> string -> outcome string.
Variable json_loads : string -> outcome json.
Variable write_raw : option string -> string -> string -> St -> option exn * St.
Variable now : St -> Q.
Variable fmt_1f : Q -> string.
Variable time_sleep : Q -> option exn.
Variable str_ok float_ok : json -> bool.
Variable describe : list FieldError -> string.

Abbreviation prompt_of := (get_prompt (St:=St) _prompts format_text).
Abbreviation call_api :=
  (_make_api_call provider_name vendor_call _switch_to_next_model fmt_1f time_sleep).
Abbreviation process :=
  (_process_ai_response (St:=St) json_loads write_raw now fmt_1f
                        str_ok float_ok describe).
Abbreviation comment_of :=
  (generate_closing_comment provider_name vendor_call _switch_to_next_model
     _prompts format_text json_loads write_raw now fmt_1f time_sleep str_ok float_ok describe).
Abbreviation intent_of :=
  (analyze_work_intent provider_name vendor_call _switch_to_next_model
     _prompts format_text json_loads write_raw now fmt_1f time_sleep str_ok float_ok describe).

(** A prompt that is built leaves no trace. *)
Lemma get_prompt_reads prompt_type text st prompt st0 tr0 :
  prompt_of prompt_type text st = (Ok prompt, st0, tr0) ->
  st0 = st /\ tr0 = [].
Proof.
  unfold get_prompt.
  destruct (_prompts !! prompt_type) as [entry|]; [|done].
  destruct (entry !! "prompt") as [template|].
  - destruct (format_text template text) as [p|e]; [by intros [= _ <- <-]|].
    by destruct (exn_class e).
  - done.
Qed.



(** X7. [_process_ai_response] writes the raw reply out before anything
    else, and nothing after that changes the state: whether it returns or
    raises, the state it leaves is the one the write left. *)
Theorem raw_reply_saved_first (response operation : string)
    (test_id : option string) (start_time : option Q) (validate : bool)
    (st : St) :
  (_process_ai_response json_loads write_raw now fmt_1f str_ok float_ok
     describe response operation test_id start_time validate st).1.2
  = (write_raw test_id operation response st).2.
Proof.
  unfold _process_ai_response, bind, _save_raw_llm_output, logging.
  destruct (write_raw test_id operation response st) as [[e|] st1]; cbn [fst snd after].
  all: destruct (_extract_json_from_response response) as [[json_text|e1] lines];
    cbn [fst snd after]; [|done..].
  all: destruct (json_loads json_text) as [result|e2]; cbn [fst snd after]; [|done..].
  all: destruct validate; cbn [after fst snd].
  all: unfold _validate_json_structure, bind, logging, ret, raise, log, read,
         _log_api_success.
  all: cbn [fst snd after].
  all: try (destruct (has_closing_comment result) as [c|e3]; cbn [fst snd after];
            [|done]).
  all: try (destruct (validate_output _ _ _ _ _ _) as [[[]|e4] lines']);
    cbn [fst snd after]; try done.
  all: destruct start_time as [t|]; cbn [fst snd after]; try done.
  all: destruct (Qeq_bool t 0); cbn [fst snd after]; done.
Qed.

(** What [_process_ai_response] has checked when it returns: the result
    is the parsed first JSON object of the reply, and with
    [validate_structure] it passed the validator chosen by its keys.  It
    makes no call. *)
Lemma process_returns response operation test_id start_time validate st
    result st1 trace :
  process response operation test_id start_time validate st
  = (Ok result, st1, trace) ->
  (exists json_text,
      re_search json_re response = Some json_text
      /\ json_loads json_text = Ok result)
  /\ (validate = true ->
      exists is_comment,
        has_closing_comment result = Ok is_comment
        /\ (validate_output str_ok float_ok describe result
              (if is_comment then "closing_comment" else "work_triaging")
              "validation_check").1 = Ok true)
  /\ calls trace = 0%nat.
Proof.
  unfold _process_ai_response, bind, _save_raw_llm_output, logging,
    _extract_json_from_response.
  destruct (write_raw test_id operation response st) as [[e|] st2];
    cbn [fst snd after].
  all: destruct (re_search json_re response) as [json_text|];
    cbn [fst snd after map app]; [|discriminate..].
  all: destruct (json_loads json_text) as [parsed|e2] eqn:Hload;
    cbn [fst snd after map app]; [|discriminate..].
  all: destruct validate; cbn [after fst snd].
  all: unfold _validate_json_structure, bind, logging, ret, raise, log, read,
         _log_api_success.
  all: cbn [fst snd after map app].
  all: try (destruct (has_closing_comment parsed) as [c|e3] eqn:Hkey;
            cbn [fst snd after map app]; [|discriminate]).
  all: try (destruct (validate_output _ _ _ _ _ _) as [[[]|e4] lines'] eqn:Hvalid;
            cbn [fst snd after map app]; try discriminate).
  all: destruct start_time as [t|]; cbn [fst snd after map app];
    try destruct (Qeq_bool t 0); cbn [fst snd after map app].
  all: intros [= <- _ <-].
  all: (split; [by exists json_text|]).
  all: (split; [first [discriminate | intros _; exists c; by rewrite Hvalid]|]).
  all: rewrite ?calls_app, ?calls_logs; try done.
  all: unfold calls; cbn; rewrite ?List.filter_app; cbn;
    rewrite ?length_app; cbn.
  all: try done.
  all: pose proof (calls_logs lines') as Hquiet; unfold calls in Hquiet;
    rewrite Hquiet; done.
Qed.

(** X8. A classification that [analyze_work_intent] returns has passed
    the validator that [_validate_json_structure] chose for it: when the
    parsed reply holds the key closing_comment it was accepted as a
    closing comment, otherwise as a triaging output.  It came from a reply
    of the API: the run made at least one call and at most three. *)
Theorem work_intent_result_checked (text : string) (test_id : option string)
    (st st1 : St) (result : json) (trace : list Event) :
  intent_of text test_id st = (Ok result, st1, trace) ->
  (exists is_comment,
      has_closing_comment result = Ok is_comment
      /\ (if is_comment
          then new_ClosingCommentOutput str_ok float_ok describe result
          else new_WorkItemTriagingOutput str_ok float_ok describe result)
         = Ok tt)
  /\ (1 <= calls trace <= 3)%nat.
Proof.
  unfold analyze_work_intent, bind at 1.
  destruct (prompt_of "work_triaging" text st) as [[[prompt|e] st0] tr0]
    eqn:Hprompt; [|discriminate].
  destruct (get_prompt_reads _ _ _ _ _ _ Hprompt) as [_ ->].
  unfold try_except, guarded_steps, bind, read. cbn [after app].
  destruct (call_api prompt "ANALYZE_WORK_INTENT" test_id st0)
    as [[[response|e] st2] tr1] eqn:Hcall; cbn [after app].
  2:{ discriminate. }
  destruct (process response "ANALYZE_WORK_INTENT" test_id (Some (now st0))
              true st2) as [[[parsed|e] st3] tr2] eqn:Hprocess;
    cbn [after app]; [|discriminate].
  intros [= <- <- <-].
  destruct (process_returns _ _ _ _ _ _ _ _ _ Hprocess) as (_ & Hvalid & Hquiet).
  destruct (Hvalid eq_refl) as (c & Hkey & Hok).
  apply engine_ok_called in Hcall. split.
  - exists c. split; [done|]. unfold validate_output in Hok.
    destruct c; cbn in Hok; unfold validate_closing_comment_output,
      validate_work_triaging_output, guarded in Hok.
    + by destruct (new_ClosingCommentOutput _ _ _ parsed) as [[]|].
    + by destruct (new_WorkItemTriagingOutput _ _ _ parsed) as [[]|].
  - rewrite calls_app, Hquiet. lia.
Qed.

(** X9. [generate_closing_comment] does not validate: once the prompt is
    built and the API call returns a reply, the first JSON object of the
    reply, parsed, is what it returns, whatever that object holds, and the
    raw reply has been written out. *)
Theorem closing_comment_not_validated (text : string)
    (test_id : option string) (st st0 st1 : St) (prompt response json_text : string)
    (tr0 tr1 : list Event) (v : json) :
  prompt_of "closing_comment" text st = (Ok prompt, st0, tr0) ->
  call_api prompt "GENERATE_CLOSING_COMMENT" test_id st0
  = (Ok response, st1, tr1) ->
  re_search json_re response = Some json_text ->
  json_loads json_text = Ok v ->
  exists trace,
    comment_of text test_id st
    = (Ok v, (write_raw test_id "GENERATE_CLOSING_COMMENT" response st1).2,
       trace).
Proof.
  intros Hprompt Hcall Hfound Hload.
  unfold generate_closing_comment, bind at 1. rewrite Hprompt.
  unfold try_except, guarded_steps, bind at 1, read. cbn [after app].
  unfold bind at 1. rewrite Hcall. cbn [after].
  unfold _process_ai_response, bind, _save_raw_llm_output, logging,
    _extract_json_from_response.
  rewrite Hfound.
  destruct (write_raw test_id "GENERATE_CLOSING_COMMENT" response st1)
    as [[e|] st2]; cbn [fst snd after map app]; rewrite Hload;
    cbn [fst snd after map app ret]; unfold read, _log_api_success, log;
    destruct (Qeq_bool (now st0) 0); cbn [fst snd after map app];
    by eexists.
Qed.

(** X10. A fourth way for [analyze_work_intent] to fail, after the prompt
    is built: the reply holds a JSON object that parses but that the
    validator rejects.  It raises [ValueError] "Invalid JSON structure in
    response" to the caller, once the raw reply was written. *)
Theorem invalid_structure_raises (text : string) (test_id : option string)
    (st st0 st1 : St) (prompt response json_text : string)
    (tr0 tr1 : list Event) (v : json) (is_comment : bool) :
  prompt_of "work_triaging" text st = (Ok prompt, st0, tr0) ->
  call_api prompt "ANALYZE_WORK_INTENT" test_id st0 = (Ok response, st1, tr1) ->
  re_search json_re response = Some json_text ->
  json_loads json_text = Ok v ->
  has_closing_comment v = Ok is_comment ->
  (if is_comment
   then new_ClosingCommentOutput str_ok float_ok describe v
   else new_WorkItemTriagingOutput str_ok float_ok describe v) <> Ok tt ->
  exists trace,
    intent_of text test_id st
    = (Raised (Exn ValueError "Invalid JSON structure in response"),
       (write_raw test_id "ANALYZE_WORK_INTENT" response st1).2, trace).
Proof.
  intros Hprompt Hcall Hfound Hload Hkey Hbad.
  unfold analyze_work_intent, bind at 1. rewrite Hprompt.
  unfold try_except, guarded_steps, bind at 1, read. cbn [after app].
  unfold bind at 1. rewrite Hcall. cbn [after].
  unfold _process_ai_response, bind, _save_raw_llm_output, logging,
    _extract_json_from_response.
  rewrite Hfound.
  assert ((validate_output str_ok float_ok describe v
             (if is_comment then "closing_comment" else "work_triaging")
             "validation_check").1 = Ok false) as Hfalse.
  { unfold validate_output.
    destruct is_comment; cbn; unfold validate_closing_comment_output,
      validate_work_triaging_output, guarded.
    - destruct (new_ClosingCommentOutput _ _ _ v) as [[]|]; done.
    - destruct (new_WorkItemTriagingOutput _ _ _ v) as [[]|]; done. }
  destruct (write_raw test_id "ANALYZE_WORK_INTENT" response st1)
    as [[e|] st2]; cbn [fst snd after map app]; rewrite Hload;
    cbn [fst snd after map app]; unfold _validate_json_structure, bind, logging;
    rewrite Hkey; cbn [fst snd after map app];
    destruct (validate_output _ _ _ _ _ _) as [o lines];
    cbn [fst] in Hfalse; subst o; cbn [fst snd after map app];
    unfold log, raise; cbn [fst snd after map app]; by eexists.
Qed.

End OperationRuns.


Lemma work_intent_result_checked_witness :
  let run :=
    analyze_work_intent "Claude" (Adapters.make_claude_call flaky_create)
      Adapters.claude_switch triage_prompts format_append loads_sample
      write_raw_ok clock_one fmt_plain python_sleep strict_str strict_float
      (fun _ => "invalid") "pump P-101 is leaking" None claude_start in
  run = (Ok sample_triage, run.1.2, run.2)
  /\ (exists is_comment,
        has_closing_comment sample_triage = Ok is_comment
        /\ (if is_comment
            then new_ClosingCommentOutput strict_str strict_float
                   (fun _ => "invalid") sample_triage
            else new_WorkItemTriagingOutput strict_str strict_float
                   (fun _ => "invalid") sample_triage) = Ok tt)
  /\ (1 <= calls run.2 <= 3)%nat.
Proof.
  cbn zeta.
  assert (analyze_work_intent "Claude" (Adapters.make_claude_call flaky_create)
            Adapters.claude_switch triage_prompts format_append loads_sample
            write_raw_ok clock_one fmt_plain python_sleep strict_str strict_float
            (fun _ => "invalid") "pump P-101 is leaking" None claude_start
          = (Ok sample_triage,
             (analyze_work_intent "Claude"
                (Adapters.make_claude_call flaky_create)
                Adapters.claude_switch triage_prompts format_append loads_sample
                write_raw_ok clock_one fmt_plain python_sleep strict_str strict_float
                (fun _ => "invalid") "pump P-101 is leaking" None
                claude_start).1.2,
             (analyze_work_intent "Claude"
                (Adapters.make_claude_call flaky_create)
                Adapters.claude_switch triage_prompts format_append loads_sample
                write_raw_ok clock_one fmt_plain python_sleep strict_str strict_float
                (fun _ => "invalid") "pump P-101 is leaking" None
                claude_start).2)) as Hrun.
  { vm_compute. reflexivity. }
  split; [exact Hrun|].
  exact (work_intent_result_checked _ _ _ _ _ _ _ _ _ _ _ _ _ _ _ _ _ _ _ Hrun).
Defined.

Lemma closing_comment_not_validated_witness :
  exists trace,
    generate_closing_comment "Claude" (vendor_replies triage_reply) no_fallback
      sample_prompts format_append loads_sample write_raw_ok clock_one fmt_plain python_sleep
      strict_str strict_float (fun _ => "invalid") "pump replaced" None tt
    = (Ok sample_triage, tt, trace).
Proof.
  refine (closing_comment_not_validated "Claude" (vendor_replies triage_reply)
            no_fallback sample_prompts format_append loads_sample write_raw_ok
            clock_one fmt_plain python_sleep strict_str strict_float (fun _ => "invalid")
            "pump replaced" None tt tt tt
            "Summarise the work done: pump replaced" triage_reply triage_object
            [] [ECall] sample_triage _ _ _ _);
    vm_compute; reflexivity.
Defined.

Lemma invalid_structure_raises_witness :
  exists trace,
    analyze_work_intent "Claude" (vendor_replies "{}") no_fallback
      triage_prompts format_append (loads_as sample_triage_no_status)
      write_raw_ok clock_one fmt_plain python_sleep strict_str strict_float
      (fun _ => "invalid") "pump P-101 is leaking" None tt
    = (Raised (Exn ValueError "Invalid JSON structure in response"), tt, trace).
Proof.
  refine (invalid_structure_raises "Claude" (vendor_replies "{}") no_fallback
            triage_prompts format_append (loads_as sample_triage_no_status)
            write_raw_ok clock_one fmt_plain python_sleep strict_str strict_float
            (fun _ => "invalid") "pump P-101 is leaking" None tt tt tt
            "Classify: pump P-101 is leaking" "{}" "{}" [] [ECall]
            sample_triage_no_status false _ _ _ _ _ _);
    try (vm_compute; reflexivity).
  vm_compute. discriminate.
Defined.

(** ** Which object the extraction returns *)

(** At a given place of a text at most one brace-delimited object starts:
    no such object is a proper prefix of another. *)
Lemma flat_body_prefix_free depth b : forall b' t t',
  flat_body depth b = true -> flat_body depth b' = true ->
  b +:+ "}" +:+ t = b' +:+ "}" +:+ t' -> b = b' /\ t = t'.
Proof.
  revert depth. induction b as [|c b IH]; intros depth [|c' b'] t t' Hb Hb'.
  - rewrite !append_nil_l, !append_cons, !append_nil_l. by intros [= ->].
  - rewrite append_nil_l, !append_cons, !append_nil_l. intros [= <- _].
    cbn in Hb, Hb'. destruct depth as [|[|depth]]; done.
  - rewrite append_nil_l, !append_cons, !append_nil_l. intros [= -> _].
    cbn in Hb, Hb'. destruct depth as [|[|depth]]; done.
  - rewrite !append_cons. intros [= <- Heq].
    cbn [flat_body] in Hb, Hb'.
    destruct (Ascii.eqb c "{").
    { destruct depth; [|done].
      destruct (IH 1%nat b' t t' Hb Hb' Heq) as [-> ->]. done. }
    destruct (Ascii.eqb c "}").
    { destruct depth as [|[|depth]]; try done.
      destruct (IH 0%nat b' t t' Hb Hb' Heq) as [-> ->]. done. }
    destruct (IH depth b' t t' Hb Hb' Heq) as [-> ->]. done.
Qed.

Lemma brace_object_prefix_free o o' t t' :
  brace_object o -> brace_object o' -> o +:+ t = o' +:+ t' ->
  o = o' /\ t = t'.
Proof.
  intros (b & -> & Hb) (b' & -> & Hb').
  rewrite !append_assoc, !append_cons, !append_nil_l, ?append_assoc.
  intros [= Heq].
  destruct (flat_body_prefix_free 0 b b' t t' Hb Hb' Heq) as [-> ->]. done.
Qed.

(** The search returns the object that starts first. *)
Lemma re_search_leftmost before : forall object rest,
  brace_object object ->
  (forall before' object' rest',
      before +:+ object +:+ rest = before' +:+ object' +:+ rest' ->
      brace_object object' ->
      (String.length before <= String.length before')%nat) ->
  re_search json_re (before +:+ object +:+ rest) = Some object.
Proof.
  induction before as [|c before IH]; intros object rest Hobj Hfirst.
  - rewrite append_nil_l.
    destruct (bt_complete json_re object rest Some
                (brace_object_json_re _ Hobj)) as [x Hx]; [done|].
    assert (re_search json_re (object +:+ rest)
            = Some (String.substring 0
                      (String.length (object +:+ rest) - String.length x)
                      (object +:+ rest))) as ->.
    { destruct (object +:+ rest); cbn [re_search]; by rewrite Hx. }
    apply bt_match_text in Hx as (m & Heq & Hm & ->).
    apply json_re_brace_object in Hm.
    destruct (brace_object_prefix_free _ _ _ _ Hobj Hm Heq) as [-> _]. done.
  - rewrite append_cons. cbn [re_search].
    destruct (bt json_re (String c (before +:+ object +:+ rest)) Some)
      as [x|] eqn:Hx.
    + apply bt_match_text in Hx as (m & Heq & Hm & _).
      apply json_re_brace_object in Hm.
      specialize (Hfirst EmptyString m x).
      rewrite append_cons, append_nil_l in Hfirst.
      specialize (Hfirst Heq Hm). cbn in Hfirst. lia.
    + apply IH; [done|].
      intros before' object' rest' Heq Hobj'.
      specialize (Hfirst (String c before') object' rest').
      rewrite !append_cons, Heq in Hfirst.
      specialize (Hfirst eq_refl Hobj'). cbn in Hfirst. lia.
Qed.

(** X11. [_extract_json_from_response] returns the leftmost object: when
    the reply reads [before object rest], [object] being brace-delimited
    with braces nested at most one level deep and balanced, and no such
    object starts earlier in the reply, then [object] is what is returned,
    and nothing is logged.  The object that starts at a place is unique,
    so this fixes the result on every reply that holds an object. *)
Theorem extract_json_leftmost_object (before object rest : string) :
  brace_object object ->
  (forall before' object' rest',
      before +:+ object +:+ rest = before' +:+ object' +:+ rest' ->
      brace_object object' ->
      (String.length before <= String.length before')%nat) ->
  _extract_json_from_response (before +:+ object +:+ rest) = (Ok object, []).
Proof.
  intros Hobj Hfirst. unfold _extract_json_from_response.
  by rewrite (re_search_leftmost before object rest Hobj Hfirst).
Qed.

(** X12. Extraction is idempotent, and what it returns is an object of
    the reply: a returned text is brace-delimited, with braces nested at
    most one level deep and balanced, it occurs in the reply, and
    extracting from it again returns it unchanged. *)
Theorem extract_json_idempotent (response object : string)
    (lines : list LogRecord) :
  _extract_json_from_response response = (Ok object, lines) ->
  lines = []
  /\ brace_object object
  /\ (exists before rest, response = before +:+ object +:+ rest)
  /\ _extract_json_from_response object = (Ok object, []).
Proof.
  unfold _extract_json_from_response.
  destruct (re_search json_re response) as [m|] eqn:Hm; [|done].
  intros [= -> <-].
  destruct (re_search_sound _ _ _ Hm) as (before & rest & -> & Hmatch).
  apply json_re_brace_object in Hmatch.
  split_and!; [done|done|by exists before, rest|].
  pose proof (re_search_leftmost EmptyString object EmptyString Hmatch) as Hre.
  rewrite append_nil_l, append_nil_r in Hre.
  rewrite Hre; [done|]. intros; cbn; lia.
Qed.

Lemma extract_json_leftmost_object_witness :
  _extract_json_from_response ("a}b" +:+ "{c{d}e}" +:+ "}{f}")
  = (Ok "{c{d}e}", []).
Proof.
  apply extract_json_leftmost_object.
  - exists "c{d}e". split; reflexivity.
  - intros [|c1 [|c2 [|c3 before']]] object' rest' Heq Hobj;
      cbn [String.length]; try lia; exfalso;
      destruct Hobj as (body & -> & _); vm_compute in Heq; discriminate.
Defined.

Lemma extract_json_idempotent_witness :
  _extract_json_from_response sample_object = (Ok sample_object, []).
Proof.
  exact (proj2 (proj2 (proj2 (extract_json_idempotent
                                sample_reply sample_object [] eq_refl)))).
Defined.

(** ** The models the adapters use *)

Lemma list_index_lookup model models : forall i,
  list_index model models = Some i -> models !! i = Some model.
Proof.
  induction models as [|m models IH]; intros i; cbn [list_index]; [done|].
  destruct (String.eqb m model) eqn:Heq.
  - apply String.eqb_eq in Heq as ->. by intros [= <-].
  - destruct (list_index model models) as [j|]; [|done].
    intros [= <-]. cbn. by apply IH.
Qed.

Lemma list_index_none model models :
  list_index model models = None -> model ∉ models.
Proof.
  induction models as [|m models IH]; cbn [list_index];
    [intros _; apply not_elem_of_nil|].
  destruct (String.eqb m model) eqn:Heq; [done|].
  apply String.eqb_neq in Heq.
  destruct (list_index model models) as [j|]; [done|].
  intros _. apply not_elem_of_cons. split; [done|by apply IH].
Qed.

Lemma list_index_some model models :
  model ∈ models -> is_Some (list_index model models).
Proof.
  intros Hin. destruct (list_index model models) eqn:Hi; [done|].
  by apply list_index_none in Hi.
Qed.

(** X13. The model the Claude adapter starts on: the configured one when
    it is in the fallback list, the first of the list otherwise; the
    configured name is kept as [primary_model] either way. *)
Theorem claude_init_model (model : string) :
  let p := (Claude.init model).1 in
  Claude.primary_model p = model
  /\ Claude.available_models p = Claude.claude_models
  /\ Claude.available_models p !! Claude.current_model_index p
     = Some (if bool_decide (model ∈ Claude.claude_models) then model
             else "claude-3-5-sonnet-20241022").
Proof.
  cbn zeta. unfold Claude.init.
  destruct (list_index model Claude.claude_models) as [i|] eqn:Hi; cbn.
  - split_and!; [done..|].
    pose proof (list_index_lookup _ _ _ Hi) as Hlook.
    rewrite bool_decide_eq_true_2; [done|].
    by eapply list_elem_of_lookup_2.
  - split_and!; [done..|].
    by rewrite bool_decide_eq_false_2 by by apply list_index_none.
Qed.

Lemma claude_init_index model :
  Claude.primary_model (Claude.init model).1 = model
  /\ Claude.available_models (Claude.init model).1 = Claude.claude_models
  /\ (Claude.current_model_index (Claude.init model).1 < 3)%nat.
Proof.
  unfold Claude.init.
  destruct (list_index model Claude.claude_models) as [i|] eqn:Hi; cbn.
  - split_and!; [done..|].
    by apply list_index_lookup, lookup_lt_Some in Hi.
  - split_and!; [done|done|lia].
Qed.

Lemma claude_switch_keeps p :
  let q := (Claude._switch_to_next_model p).1.2 in
  Claude.available_models q = Claude.available_models p
  /\ Claude.primary_model q = Claude.primary_model p
  /\ ((Claude.current_model_index p < length (Claude.available_models p))%nat ->
      (Claude.current_model_index q < length (Claude.available_models p))%nat).
Proof.
  cbn zeta. unfold Claude._switch_to_next_model.
  pose proof (claude_switch_loop 0 (length (Claude.available_models p)) p) as H.
  rewrite Nat.max_0_l in H. cbn [Nat.add] in H.
  destruct (Claude.switch_loop _ p) as [[b q] lines]. cbn [fst snd] in *.
  destruct (decide _) as [Hlt|Hge]; injection H as _ ->; cbn; [|done].
  split_and!; [done|done|intros _; exact Hlt].
Qed.

(** X14. However often the Claude adapter has switched since it was
    built, its index stays inside the fallback list: the call never fails
    on the list lookup, and the model it names to the vendor is one of
    the three listed ones.  The configured name stays in
    [primary_model]. *)
Theorem claude_model_always_listed (model : string) (n : nat) :
  let p := (call_times Claude._switch_to_next_model n (Claude.init model).1).2 in
  Claude.primary_model p = model
  /\ exists current_model,
      current_model ∈ Claude.claude_models
      /\ Claude.available_models p !! Claude.current_model_index p
         = Some current_model
      /\ forall (Env : Type)
           (messages_create : string -> string -> Env -> outcome string * Env)
           (prompt : string) (env : Env),
           Adapters.make_claude_call messages_create prompt (p, env)
           = (let '(o, env') := messages_create current_model prompt env in
              (o, (p, env'), [])).
Proof.
  cbn zeta.
  assert (forall k p,
             Claude.available_models p = Claude.claude_models ->
             (Claude.current_model_index p < 3)%nat ->
             let q := (call_times Claude._switch_to_next_model k p).2 in
             Claude.primary_model q = Claude.primary_model p
             /\ Claude.available_models q = Claude.claude_models
             /\ (Claude.current_model_index q < 3)%nat) as Hinv.
  { induction k as [|k IH]; intros p Hav Hlt; cbn zeta; [done|].
    cbn [call_times].
    pose proof (claude_switch_keeps p) as (Hav' & Hprim & Hidx). cbn zeta in *.
    destruct (Claude._switch_to_next_model p) as [[b q] lines].
    cbn [fst snd] in *.
    specialize (IH q). cbn zeta in IH.
    destruct (call_times Claude._switch_to_next_model k q) as [bs q'].
    cbn [snd] in *. rewrite <- Hprim.
    apply IH; [congruence|]. rewrite Hav in Hidx. by apply Hidx. }
  pose proof (claude_init_index model) as (Hprim & Hav & Hstart).
  specialize (Hinv n (Claude.init model).1 Hav Hstart).
  cbn zeta in Hinv. destruct Hinv as (Hp & Ha & Hi).
  split; [congruence|].
  destruct (lookup_lt_is_Some_2 Claude.claude_models
              (Claude.current_model_index
                 (call_times Claude._switch_to_next_model n
                    (Claude.init model).1).2)) as [m Hm]; [done|].
  exists m. split_and!.
  - by eapply list_elem_of_lookup_2.
  - by rewrite Ha.
  - intros Env messages_create prompt env.
    unfold Adapters.make_claude_call. cbn [fst snd]. by rewrite Ha, Hm.
Qed.

Section GeminiInstance.
Import Gemini.
Context {Env : Type}.
Variable GenerativeModel : string -> Env -> option exn * Env.

Lemma initialize_model_instance w :
  let r := _initialize_model GenerativeModel w in
  available_models r.1.2.1 = available_models w.1
  /\ current_model_index r.1.2.1 = current_model_index w.1
  /\ primary_model r.1.2.1 = primary_model w.1
  /\ match r.1.1 with
     | Ok _ =>
         is_Some (model_instance r.1.2.1)
         /\ model_instance r.1.2.1
            = available_models w.1 !! current_model_index w.1
     | Raised _ => model_instance r.1.2.1 = model_instance w.1
     end.
Proof.
  destruct w as [p env]. cbn zeta. unfold _initialize_model.
  destruct (available_models p !! current_model_index p) as [m|] eqn:Hm;
    [|done].
  destruct (GenerativeModel m env) as [[e|] env']; cbn; [done|].
  split_and!; [done..|]. rewrite Hm. done.
Qed.

Lemma switch_loop_instance indices : forall w,
  let r := switch_loop GenerativeModel indices w in
  available_models r.1.2.1 = available_models w.1
  /\ primary_model r.1.2.1 = primary_model w.1
  /\ if r.1.1
     then is_Some (model_instance r.1.2.1)
          /\ model_instance r.1.2.1
             = available_models r.1.2.1 !! current_model_index r.1.2.1
     else model_instance r.1.2.1 = model_instance w.1.
Proof.
  induction indices as [|i indices IH]; intros w; cbn zeta; [done|].
  cbn [switch_loop].
  destruct (current_model_index w.1 <? i)%nat; [|apply IH].
  pose proof (initialize_model_instance (with_index w.1 i, w.2))
    as (Hav & Hidx & Hprim & Hinst).
  cbn zeta in *.
  destruct (_initialize_model GenerativeModel (with_index w.1 i, w.2))
    as [[[[]|e] w'] lines]; cbn [fst snd] in *.
  - destruct Hinst as [Hsome Hinst].
    split_and!; [by rewrite Hav|by rewrite Hprim|done|].
    rewrite Hinst, Hav, Hidx. reflexivity.
  - specialize (IH w'). cbn zeta in IH.
    destruct (switch_loop GenerativeModel indices w') as [[b w''] more].
    cbn [fst snd] in *. destruct IH as (IH1 & IH2 & IH3).
    split_and!; [by rewrite IH1, Hav|by rewrite IH2, Hprim|].
    destruct b; [done|]. rewrite IH3, Hinst. reflexivity.
Qed.

(** X15. The client the Gemini adapter holds after a switch.  When
    [_switch_to_next_model] returns true, the client was rebuilt for the
    model the index now names.  When it returns false the client is the
    one held before, although the index may have moved: it then stands
    on or past the last model of the list, so that later calls go on
    with the old client. *)
Theorem gemini_switch_instance (w : GeminiProvider * Env) :
  let r := _switch_to_next_model GenerativeModel w in
  if r.1.1
  then is_Some (model_instance r.1.2.1)
       /\ model_instance r.1.2.1
          = available_models r.1.2.1 !! current_model_index r.1.2.1
  else model_instance r.1.2.1 = model_instance w.1
       /\ (length (available_models w.1) <= S (current_model_index r.1.2.1))%nat.
Proof.
  cbn zeta. unfold _switch_to_next_model.
  pose proof (switch_loop_instance (seq 0 (length (available_models w.1))) w)
    as (_ & _ & Hinst).
  pose proof (gemini_switch_loop GenerativeModel 0
                (length (available_models w.1)) w) as (_ & _ & _ & Hlast).
  cbn zeta in *.
  destruct (switch_loop GenerativeModel _ w) as [[[] w'] lines];
    cbn [fst snd] in *; [done|].
  split; [done|].
  destruct (length (available_models w.1)) as [|L]; [lia|].
  specialize (Hlast eq_refl L). lia.
Qed.

(** X16. What [__init__] of the Gemini adapter leaves: it builds the
    client for the configured model when that is in the fallback list,
    for the first of the list otherwise; it returns with that client
    when the SDK accepts the model, and raises the SDK's exception when
    it does not. *)
Theorem gemini_init_instance (model : string) (env : Env) :
  let r := init GenerativeModel model env in
  let chosen :=
    if bool_decide (model ∈ gemini_models) then model else "gemini-1.5-pro" in
  available_models r.1.2.1 = gemini_models
  /\ primary_model r.1.2.1 = model
  /\ match r.1.1 with
     | Ok _ =>
         model_instance r.1.2.1 = Some chosen
         /\ available_models r.1.2.1 !! current_model_index r.1.2.1
            = Some chosen
         /\ (GenerativeModel chosen env).1 = None
     | Raised e => (GenerativeModel chosen env).1 = Some e
     end.
Proof.
  cbn zeta. unfold init.
  assert (exists i,
             (match list_index model gemini_models with
              | Some i =>
                  (i, Log info ("Using primary model from config: " +:+ model))
              | None =>
                  (O, Log warning ("Model '" +:+ model
                         +:+ "' not in available models, using fallback: "
                         +:+ model_at gemini_models 0))
              end).1 = i
             /\ gemini_models !! i
                = Some (if bool_decide (model ∈ gemini_models) then model
                        else "gemini-1.5-pro")) as (i & Hi & Hlook).
  { destruct (list_index model gemini_models) as [i|] eqn:Hidx.
    - exists i. split; [done|].
      pose proof (list_index_lookup _ _ _ Hidx) as Hlook.
      rewrite bool_decide_eq_true_2; [done|]. by eapply list_elem_of_lookup_2.
    - exists 0%nat. split; [done|].
      by rewrite bool_decide_eq_false_2 by by apply list_index_none. }
  destruct (match list_index model gemini_models with
            | Some i => _ | None => _ end) as [i' line].
  cbn [fst] in Hi. subst i'.
  unfold _initialize_model.
  cbn [available_models current_model_index]. rewrite Hlook.
  destruct (GenerativeModel _ env) as [[e|] env']; cbn; [done|].
  by rewrite Hlook.
Qed.

Lemma gemini_init_ok model env :
  let r := init GenerativeModel model env in
  r.1.1 = Ok tt ->
  available_models r.1.2.1 = gemini_models
  /\ primary_model r.1.2.1 = model
  /\ exists m, m ∈ gemini_models /\ model_instance r.1.2.1 = Some m.
Proof.
  cbn zeta. unfold init.
  destruct (list_index model gemini_models) as [i|] eqn:Hidx.
  - pose proof (list_index_lookup _ _ _ Hidx) as Hlook.
    unfold _initialize_model.
    cbn [available_models current_model_index]. rewrite Hlook.
    destruct (GenerativeModel model env) as [[e|] env']; cbn; [done|].
    intros _. split_and!; [done..|]. exists model.
    split; [by eapply list_elem_of_lookup_2|done].
  - unfold _initialize_model.
    cbn [available_models current_model_index gemini_models lookup
         list_lookup].
    destruct (GenerativeModel "gemini-1.5-pro" env) as [[e|] env']; cbn;
      [done|].
    intros _. split_and!; [done..|]. exists "gemini-1.5-pro".
    split; [|done]. unfold gemini_models. rewrite !elem_of_cons. auto.
Qed.

(** X17. Once the Gemini adapter is built, however often it has switched
    since, it holds a client, and for one of the three listed models: a
    call never finds the client missing. *)
Theorem gemini_instance_always_listed (model : string) (env : Env) (n : nat) :
  let r := init GenerativeModel model env in
  r.1.1 = Ok tt ->
  let w := (call_times (_switch_to_next_model GenerativeModel) n r.1.2).2 in
  primary_model w.1 = model
  /\ exists m, m ∈ gemini_models /\ model_instance w.1 = Some m.
Proof.
  cbn zeta. intros Hok.
  pose proof (gemini_init_ok model env) as Hinit.
  cbn zeta in Hinit. destruct (Hinit Hok) as (Hav & Hprim & Hinst).
  assert (forall k w,
             available_models w.1 = gemini_models ->
             (exists m, m ∈ gemini_models /\ model_instance w.1 = Some m) ->
             let w' :=
               (call_times (_switch_to_next_model GenerativeModel) k w).2 in
             primary_model w'.1 = primary_model w.1
             /\ exists m, m ∈ gemini_models /\ model_instance w'.1 = Some m)
    as Hinv.
  { induction k as [|k IH]; intros w Hw Hm; cbn zeta; [done|].
    cbn [call_times].
    pose proof (switch_loop_instance
                  (seq 0 (length (available_models w.1))) w)
      as (Hav' & Hprim' & Hinst').
    cbn zeta in *.
    change (switch_loop GenerativeModel
              (seq 0 (length (available_models w.1))) w)
      with (_switch_to_next_model GenerativeModel w) in *.
    destruct (_switch_to_next_model GenerativeModel w) as [[b w1] lines].
    cbn [fst snd] in *.
    specialize (IH w1). cbn zeta in IH.
    destruct (call_times (_switch_to_next_model GenerativeModel) k w1)
      as [bs w2]. cbn [snd] in *. rewrite <- Hprim'.
    apply IH; [congruence|].
    destruct b.
    - destruct Hinst' as [[m Hsome] Heq]. exists m. split; [|done].
      rewrite Hsome in Heq. symmetry in Heq.
      apply list_elem_of_lookup_2 in Heq. by rewrite Hav', Hw in Heq.
    - by rewrite Hinst'. }
  specialize (Hinv n (init GenerativeModel model env).1.2 Hav).
  cbn zeta in Hinv. destruct Hinv as [Hp Hm]; [exact Hinst|].
  split; [congruence|done].
Qed.

End GeminiInstance.

Lemma gemini_instance_always_listed_witness :
  let r := Gemini.init (refuses "gemini-1.5-flash") "gemini-1.5-pro" tt in
  let w := (call_times (Gemini._switch_to_next_model
                          (refuses "gemini-1.5-flash")) 2 r.1.2).2 in
  Gemini.primary_model w.1 = "gemini-1.5-pro"
  /\ exists m, m ∈ Gemini.gemini_models /\ Gemini.model_instance w.1 = Some m.
Proof.
  exact (gemini_instance_always_listed (refuses "gemini-1.5-flash")
           "gemini-1.5-pro" tt 2 eq_refl).
Defined.

(** ** The API configuration *)

Section ConfigFacts.
Import Config.

Lemma is_start_char ch : is_start ch = true -> is_char ch = true.
Proof. destruct ch as [|c r]; [done|]. cbn. by intros [_ ?]%andb_true_iff. Qed.

Lemma is_start_head ch : is_start ch = true -> starts_continued ch = false.
Proof.
  destruct ch as [|c r]; [done|]. cbn. intros [H _]%andb_true_iff.
  by destruct (is_continuation c).
Qed.

Lemma glue_char c r l :
  continued r = true -> Forall (fun ch => is_start ch = true) l ->
  match (match r with EmptyString => l | _ => r :: l end) with
  | ch :: rest =>
      if starts_continued ch then String c ch :: rest
      else String c EmptyString :: ch :: rest
  | [] => [String c EmptyString]
  end = String c r :: l.
Proof.
  intros Hr Hl. destruct r as [|y r].
  - destruct Hl as [|ch rest Hch _]; [done|]. by rewrite (is_start_head _ Hch).
  - cbn [starts_continued]. cbn [continued] in Hr.
    by apply andb_true_iff in Hr as [-> _].
Qed.

(** The characters of a text put together from characters. *)
Lemma chars_after r l :
  continued r = true -> Forall (fun ch => is_start ch = true) l ->
  chars (join l) = l ->
  chars (r +:+ join l) = match r with EmptyString => l | _ => r :: l end.
Proof.
  intros Hr Hl Hj. induction r as [|x r IH]; [by rewrite append_nil_l|].
  cbn [continued] in Hr. apply andb_true_iff in Hr as [Hx Hr].
  rewrite append_cons. cbn [chars]. rewrite (IH Hr).
  by apply glue_char.
Qed.

Lemma chars_join_cons c r l :
  continued r = true -> Forall (fun ch => is_start ch = true) l ->
  chars (join l) = l ->
  chars (join (String c r :: l)) = String c r :: l.
Proof.
  intros Hr Hl Hj.
  change (join (String c r :: l)) with (String c r +:+ join l).
  rewrite append_cons. cbn [chars]. rewrite (chars_after r l Hr Hl Hj).
  by apply glue_char.
Qed.

Lemma chars_join_starts l :
  Forall (fun ch => is_start ch = true) l -> chars (join l) = l.
Proof.
  induction 1 as [|ch l Hch Hl IH]; [done|].
  destruct ch as [|c r]; [done|]. cbn [is_start] in Hch.
  apply andb_true_iff in Hch as [_ Hr]. by apply chars_join_cons.
Qed.

Lemma chars_join l : well_split l -> chars (join l) = l.
Proof.
  destruct l as [|ch l]; [done|]. intros [Hch Hl].
  destruct ch as [|c r]; [done|].
  apply chars_join_cons; [exact Hch|exact Hl|by apply chars_join_starts].
Qed.

Lemma join_chars s : join (chars s) = s.
Proof.
  induction s as [|c s IH]; [done|]. cbn [chars].
  destruct (chars s) as [|ch rest]; [by rewrite <- IH|].
  destruct (starts_continued ch); rewrite <- IH; reflexivity.
Qed.

Lemma chars_well_split s : well_split (chars s).
Proof.
  induction s as [|c s IH]; [done|]. cbn [chars].
  destruct (chars s) as [|ch rest]; [done|]. destruct IH as [Hch Hrest].
  destruct ch as [|y r]; [done|]. cbn [starts_continued is_char] in *.
  destruct (is_continuation y) eqn:Hy.
  - split; [|done]. cbn [is_char continued]. by rewrite Hy, Hch.
  - split; [done|]. constructor; [|done]. cbn [is_start]. by rewrite Hy, Hch.
Qed.

Lemma well_split_lstrip l : well_split l -> well_split (lstrip_chars l).
Proof.
  induction l as [|ch l IH]; [done|]. intros [Hch Hl]. cbn [lstrip_chars].
  destruct (is_space ch); [|done]. apply IH.
  destruct Hl as [|ch' l' H1 H2]; [done|]. split; [by apply is_start_char|done].
Qed.

Lemma starts_rstrip l :
  Forall (fun ch => is_start ch = true) l ->
  Forall (fun ch => is_start ch = true) (rstrip_chars l).
Proof.
  induction 1 as [|ch l Hch Hl IH]; [done|]. cbn [rstrip_chars].
  destruct (rstrip_chars l) as [|ch' l'].
  - destruct (is_space ch); [done|by constructor].
  - by constructor.
Qed.

Lemma well_split_rstrip l : well_split l -> well_split (rstrip_chars l).
Proof.
  destruct l as [|ch l]; [done|]. intros [Hch Hl]. cbn [rstrip_chars].
  pose proof (starts_rstrip l Hl) as Hr.
  destruct (rstrip_chars l) as [|ch' l'].
  - destruct (is_space ch); [done|]. by split.
  - by split.
Qed.

Lemma rstrip_chars_fixed l : rstrip_chars (rstrip_chars l) = rstrip_chars l.
Proof.
  induction l as [|c l IH]; [done|]. cbn [rstrip_chars].
  destruct (rstrip_chars l) as [|c' r] eqn:Hr.
  - destruct (is_space c) eqn:Hc; [done|]. cbn [rstrip_chars]. by rewrite Hc.
  - cbn [rstrip_chars]. cbn [rstrip_chars] in IH. by rewrite IH.
Qed.

Lemma lstrip_chars_fixed l : lstrip_chars (lstrip_chars l) = lstrip_chars l.
Proof.
  induction l as [|c l IH]; [done|]. cbn [lstrip_chars].
  destruct (is_space c) eqn:Hc; [done|]. cbn [lstrip_chars]. by rewrite Hc.
Qed.

Lemma rstrip_lstrip_chars l :
  rstrip_chars l = l -> rstrip_chars (lstrip_chars l) = lstrip_chars l.
Proof.
  induction l as [|c l IH]; [done|]. cbn [rstrip_chars lstrip_chars].
  destruct (is_space c) eqn:Hc.
  - destruct (rstrip_chars l) as [|c' r] eqn:Hr; [done|].
    intros [= Ht]. apply IH. by rewrite Ht in Hr |- *.
  - intros Ht. cbn [rstrip_chars]. rewrite Hc. exact Ht.
Qed.

Lemma chars_lstrip s : chars (lstrip s) = lstrip_chars (chars s).
Proof. apply chars_join, well_split_lstrip, chars_well_split. Qed.

Lemma chars_rstrip s : chars (rstrip s) = rstrip_chars (chars s).
Proof. apply chars_join, well_split_rstrip, chars_well_split. Qed.

Lemma rstrip_fixed s : rstrip (rstrip s) = rstrip s.
Proof. unfold rstrip at 1. by rewrite chars_rstrip, rstrip_chars_fixed. Qed.

Lemma lstrip_fixed s : lstrip (lstrip s) = lstrip s.
Proof. unfold lstrip at 1. by rewrite chars_lstrip, lstrip_chars_fixed. Qed.

Lemma strip_fixed s : lstrip (strip s) = strip s /\ rstrip (strip s) = strip s.
Proof.
  unfold strip. split; [apply lstrip_fixed|].
  unfold rstrip at 1. rewrite chars_lstrip, chars_rstrip.
  rewrite rstrip_lstrip_chars by apply rstrip_chars_fixed.
  unfold lstrip. by rewrite chars_rstrip.
Qed.

(** The no-break space and the ideographic space are white space, the
    zero-width space is not. *)
Example strip_outside_ascii :
  strip (utf8 160 +:+ " abc" +:+ utf8 12288) = "abc"
  /\ strip (utf8 8203 +:+ "abc") = utf8 8203 +:+ "abc"
  /\ blank (utf8 160 +:+ utf8 8195) = true.
Proof. by vm_compute. Qed.

Lemma rstrip_blank s : blank s = true -> rstrip s = EmptyString.
Proof.
  unfold blank, rstrip. intros Hs.
  assert (rstrip_chars (chars s) = []) as ->; [|done].
  induction (chars s) as [|c l IH]; [done|]. cbn [forallb rstrip_chars] in *.
  apply andb_true_iff in Hs as [Hc Hl]. by rewrite (IH Hl), Hc.
Qed.

Lemma strip_blank s : blank s = true -> strip s = EmptyString.
Proof. intros H. unfold strip. by rewrite rstrip_blank. Qed.

Lemma has_char_remove c s : has_char c (remove c s) = false.
Proof.
  induction s as [|d s IH]; [done|]. cbn [remove].
  destruct (Ascii.eqb d c) eqn:Hd; [done|]. cbn [has_char]. by rewrite Hd, IH.
Qed.

Lemma has_char_remove_other c d s :
  has_char c s = false -> has_char c (remove d s) = false.
Proof.
  induction s as [|x s IH]; [done|]. cbn [remove has_char].
  intros [Hx Hs]%orb_false_iff.
  destruct (Ascii.eqb x d); [by apply IH|].
  cbn [has_char]. by rewrite Hx, IH.
Qed.

Lemma is_empty_true s : is_empty s = true -> s = EmptyString.
Proof. by destruct s. Qed.

Lemma is_empty_false s : is_empty s = false -> s <> EmptyString.
Proof. by destruct s. Qed.

Lemma api_config_class env self_model provider_name cfg lines :
  get_api_config env self_model provider_name = (Ok cfg, lines) ->
  lines = []
  /\ (lower provider_name = "claude" /\ provider_class cfg = "ClaudeProvider"
      \/ lower provider_name = "gemini"
         /\ provider_class cfg = "GeminiProvider").
Proof.
  unfold get_api_config.
  destruct (String.eqb (lower provider_name) "claude") eqn:Hclaude.
  - apply String.eqb_eq in Hclaude.
    destruct (is_empty (if is_empty _ then _ else _)); [done|].
    intros [= <- <-]. split; [done|by left].
  - destruct (String.eqb (lower provider_name) "gemini") eqn:Hgemini; [|done].
    apply String.eqb_eq in Hgemini.
    destruct (is_empty _ || _); [done|].
    intros [= <- <-]. split; [done|by right].
Qed.

(** X18. The key [get_api_config] hands out.  When it returns, nothing
    was logged and the key is not empty.  For Claude (the provider name
    in any letter case) the key holds neither a space nor a newline,
    wherever they stood in the variable; for Gemini the key is the
    variable stripped of the white space around it, and it is not the
    placeholder your_gemini_api_key_here.  The class named is the one
    of the provider asked for. *)
Theorem api_config_key_clean (env : gmap string string)
    (self_model provider_name : string) (cfg : ApiConfig)
    (lines : list LogRecord) :
  get_api_config env self_model provider_name = (Ok cfg, lines) ->
  lines = [] /\ api_key cfg <> EmptyString
  /\ (lower provider_name = "claude"
      /\ provider_class cfg = "ClaudeProvider"
      /\ has_char " " (api_key cfg) = false
      /\ has_char newline (api_key cfg) = false
      /\ model cfg = getenv env "CLAUDE_MODEL" self_model
      \/ lower provider_name = "gemini"
         /\ provider_class cfg = "GeminiProvider"
         /\ api_key cfg = strip (getenv env "GEMINI_API_KEY" EmptyString)
         /\ lstrip (api_key cfg) = api_key cfg
         /\ rstrip (api_key cfg) = api_key cfg
         /\ api_key cfg <> "your_gemini_api_key_here"
         /\ model cfg = getenv env "GEMINI_MODEL" self_model).
Proof.
  unfold get_api_config.
  destruct (String.eqb (lower provider_name) "claude") eqn:Hclaude.
  - apply String.eqb_eq in Hclaude.
    destruct (is_empty (strip (getenv env "CLAUDE_API_KEY" EmptyString)))
      eqn:Hkey.
    + rewrite Hkey. done.
    + destruct (is_empty (remove " " (remove newline
                 (strip (getenv env "CLAUDE_API_KEY" EmptyString))))) eqn:Hclean;
        [done|].
      intros [= <- <-]. cbn [api_key provider_class model].
      split_and!; [done|by apply is_empty_false|].
      left. split_and!; [done|done|apply has_char_remove| |done].
      apply has_char_remove_other, has_char_remove.
  - destruct (String.eqb (lower provider_name) "gemini") eqn:Hgemini; [|done].
    apply String.eqb_eq in Hgemini.
    destruct (is_empty (strip (getenv env "GEMINI_API_KEY" EmptyString)))
      eqn:Hkey; [done|].
    destruct (String.eqb (strip (getenv env "GEMINI_API_KEY" EmptyString))
                "your_gemini_api_key_here") eqn:Hplace; [done|].
    cbn [orb]. intros [= <- <-]. cbn [api_key provider_class model].
    split_and!; [done|by apply is_empty_false|].
    right. split_and!; [done|done|done|apply strip_fixed|apply strip_fixed| |done].
    by apply String.eqb_neq.
Qed.

(** X19. A key that is not usable is refused before any provider is
    built: for either provider, a variable that is unset, empty or made
    of white space only raises [ValueError] and logs one error line, and
    so does, for Gemini, the placeholder your_gemini_api_key_here with
    any white space around it.  A provider name other than claude and
    gemini (in any letter case) raises [ValueError] with the name as it
    was given. *)
Theorem unusable_key_refused (env : gmap string string)
    (self_model provider_name : string) :
  (lower provider_name = "claude" ->
   blank (getenv env "CLAUDE_API_KEY" EmptyString) = true ->
   get_api_config env self_model provider_name
   = (Raised (Exn ValueError
                "CLAUDE_API_KEY not found in environment variables"),
      [Log error "CLAUDE_API_KEY not found in environment variables for provider 'claude'"]))
  /\ (lower provider_name = "gemini" ->
      blank (getenv env "GEMINI_API_KEY" EmptyString) = true
      \/ strip (getenv env "GEMINI_API_KEY" EmptyString)
         = "your_gemini_api_key_here" ->
      get_api_config env self_model provider_name
      = (Raised (Exn ValueError
                   "GEMINI_API_KEY not found or not configured in environment variables"),
         [Log error "GEMINI_API_KEY not found or not configured in environment variables for provider 'gemini'"]))
  /\ (lower provider_name <> "claude" -> lower provider_name <> "gemini" ->
      get_api_config env self_model provider_name
      = (Raised (Exn ValueError ("Unsupported provider: " +:+ provider_name)),
         [Log error ("Unsupported provider requested in configuration: "
                     +:+ provider_name)])).
Proof.
  unfold get_api_config. split_and!.
  - intros -> Hblank. cbn [String.eqb Ascii.eqb Bool.eqb].
    by rewrite (strip_blank _ Hblank).
  - intros -> Hbad. cbn [String.eqb Ascii.eqb Bool.eqb].
    destruct Hbad as [Hblank| ->]; [by rewrite (strip_blank _ Hblank)|done].
  - intros Hc Hg.
    apply String.eqb_neq in Hc. apply String.eqb_neq in Hg.
    by rewrite Hc, Hg.
Qed.

Section FactoryFacts.
Context {World Provider : Type}.
Variable ClaudeProvider : string -> string -> Q -> World
                          -> outcome Provider * World * list LogRecord.
Variable GeminiProvider : string -> string -> Q -> World
                          -> outcome Provider * World * list LogRecord.
Variable config_model : string.
Variable config_temperature : Q.

Abbreviation factory :=
  (create_ai_provider ClaudeProvider GeminiProvider config_model
                      config_temperature).

Lemma getenv_insert_other env name other value default :
  name <> other ->
  getenv (<[other := value]> env) name default = getenv env name default.
Proof. intros Hne. unfold getenv. by rewrite lookup_insert_ne. Qed.

(** X20. What [create_ai_provider] builds.  Once the configuration is
    accepted it calls the constructor of the provider asked for, with the
    key of the configuration and the model it was given: the branch
    "Unknown provider class" is never taken.  The model of the
    configuration is not used, so that the environment variables
    CLAUDE_MODEL and GEMINI_MODEL have no effect on the provider. *)
Theorem factory_builds_requested_provider (env : gmap string string)
    (provider_name model : string) (temperature : option Q) (w : World) :
  (forall cfg lines,
      get_api_config env config_model provider_name = (Ok cfg, lines) ->
      factory env provider_name model temperature w
      = (if String.eqb (lower provider_name) "claude"
         then ClaudeProvider else GeminiProvider)
          (api_key cfg) model
          (match temperature with
           | None => config_temperature
           | Some t => t
           end) w)
  /\ (forall claude_model gemini_model,
        factory (<["CLAUDE_MODEL" := claude_model]>
                   (<["GEMINI_MODEL" := gemini_model]> env))
                provider_name model temperature w
        = factory env provider_name model temperature w).
Proof.
  split.
  - intros cfg lines Hcfg. unfold create_ai_provider. rewrite Hcfg.
    destruct (api_config_class _ _ _ _ _ Hcfg)
      as (-> & [(Hname & Hclass)|(Hname & Hclass)]);
      rewrite Hclass, Hname; cbn [String.eqb Ascii.eqb Bool.eqb].
    + by destruct (ClaudeProvider _ _ _ _) as [[o w'] more].
    + by destruct (GeminiProvider _ _ _ _) as [[o w'] more].
  - intros claude_model gemini_model.
    unfold create_ai_provider, get_api_config.
    rewrite !(getenv_insert_other _ "CLAUDE_API_KEY") by done.
    rewrite !(getenv_insert_other _ "GEMINI_API_KEY") by done.
    destruct (String.eqb (lower provider_name) "claude").
    + destruct (strip (getenv env "CLAUDE_API_KEY" EmptyString)) as [|c key];
        [reflexivity|].
      cbn [is_empty]. destruct (is_empty (remove _ _)); reflexivity.
    + destruct (String.eqb (lower provider_name) "gemini"); [|reflexivity].
      destruct (is_empty _ || _); reflexivity.
Qed.

End FactoryFacts.
End ConfigFacts.

(** ** The batch over the inputs *)

Section BatchFacts.
Import Operations Batch.
Context {St : Type}.
Variable analyze_work_intent : string -> option string -> Op (St:=St) json.
Variable generate_closing_comment : string -> option string -> Op (St:=St) json.
Variable str_ok float_ok : json -> bool.
Variable describe : list FieldError -> string.

Abbreviation triaging :=
  (process_work_triaging analyze_work_intent str_ok float_ok describe).
Abbreviation comments :=
  (process_closing_comments generate_closing_comment str_ok float_ok describe).
Abbreviation outputs :=
  (generate_outputs analyze_work_intent generate_closing_comment
                    str_ok float_ok describe).

Lemma error_result_status test_id input_data text e :
  error_result test_id input_data text e !! "processing_status"
  = Some (JStr "failed").
Proof. reflexivity. Qed.

Lemma process_input_total operation validate default_prefix i input_data
    (st : St) :
  exists result st1 trace,
    process_input operation validate default_prefix i input_data st
    = (Ok result, st1, trace)
    /\ result !! "processing_status" ∈ statuses.
Proof.
  unfold process_input, try_except, bind, logging, ret.
  destruct (operation _ _ st) as [[[result|e] st1] tr1]; cbn [after fst snd].
  - destruct (validate result _) as [[is_valid|e] lines]; cbn [after fst snd].
    + destruct result; cbn [set_status after fst snd map app];
        try (eexists _, _, _; split; [reflexivity|];
             rewrite error_result_status; unfold statuses;
             rewrite !elem_of_cons; by auto).
      eexists _, _, _; split; [reflexivity|].
      rewrite lookup_insert_eq. unfold statuses. rewrite !elem_of_cons.
      destruct is_valid; by auto.
    + eexists _, _, _; split; [reflexivity|].
      rewrite error_result_status; unfold statuses;
        rewrite !elem_of_cons; by auto.
  - eexists _, _, _; split; [reflexivity|].
    rewrite error_result_status; unfold statuses;
      rewrite !elem_of_cons; by auto.
Qed.

Lemma process_from_total operation validate default_prefix inputs :
  forall i (st : St),
  exists results st1 trace,
    process_from operation validate default_prefix i inputs st
    = (Ok results, st1, trace)
    /\ length results = length inputs
    /\ Forall (fun result => result !! "processing_status" ∈ statuses) results.
Proof.
  induction inputs as [|input_data rest IH]; intros i st.
  { by exists [], st, []. }
  cbn [process_from]. unfold bind at 1.
  destruct (process_input_total operation validate default_prefix i
              input_data st) as (result & st1 & tr1 & -> & Hstatus).
  unfold bind at 1.
  destruct (IH (S i) st1) as (results & st2 & tr2 & -> & Hlen & Hall).
  cbn [after ret]. eexists _, _, _. split; [reflexivity|].
  split; [cbn; by rewrite Hlen|]. by constructor.
Qed.


Lemma separate_with_ids inputs :
  Forall (fun input_data : Input => is_Some (input_data !! "test_id")) inputs ->
  separate inputs
  = Ok (List.filter (fun input_data => negb (closing_input input_data)) inputs,
        List.filter closing_input inputs).
Proof.
  induction 1 as [|input_data rest [test_id Hid] _ IH]; [done|].
  cbn [separate List.filter]. unfold getitem, closing_input, get, is_closing.
  rewrite Hid, IH.
  destruct (String.prefix "wt_" test_id); [done|].
  by destruct (String.prefix "cc_" test_id).
Qed.

Lemma separate_without_id inputs :
  Exists (fun input_data : Input => input_data !! "test_id" = None) inputs ->
  separate inputs = Raised (Exn KeyError "'test_id'").
Proof.
  induction 1 as [input_data rest Hnone|input_data rest _ IH];
    cbn [separate]; unfold getitem.
  - by rewrite Hnone.
  - destruct (input_data !! "test_id"); [|done]. by rewrite IH.
Qed.




(** A collation fails only on a missing text or test_focus, once every
    input has its id and there is one result per input. *)
Lemma collate_with_ids results : forall inputs,
  length results = length inputs ->
  Forall (fun input_data : Input => is_Some (input_data !! "test_id")) inputs ->
  (exists items, collate results inputs = Ok items
                 /\ Forall complete inputs)
  \/ exists key, collate results inputs = Raised (Exn KeyError key)
                 /\ key ∈ ["'text'"; "'test_focus'"].
Proof.
  induction results as [|result results IH]; intros [|input_data inputs];
    cbn [length]; try done.
  { intros _ _. left. by exists []. }
  intros [= Hlen] [[id Hid] Hrest]%Forall_cons.
  cbn [collate]. unfold entry, getitem. rewrite Hid.
  destruct (input_data !! "text") as [text|] eqn:Htext.
  2:{ right. exists "'text'". split; [done|]. rewrite !elem_of_cons. auto. }
  destruct (input_data !! "test_focus") as [focus|] eqn:Hfocus.
  2:{ right. exists "'test_focus'". split; [done|].
      rewrite !elem_of_cons. auto. }
  destruct (IH inputs Hlen Hrest) as [(items & -> & Hall)|(key & -> & Hkey)].
  - left. eexists. split; [reflexivity|]. constructor; [|done].
    unfold complete. by rewrite Hid, Htext, Hfocus.
  - right. by exists key.
Qed.


Lemma Forall_filter_list {A} (P : A -> Prop) f (l : list A) :
  Forall P l -> Forall P (List.filter f l).
Proof.
  induction 1 as [|x l Hx _ IH]; [done|]. cbn [List.filter].
  destruct (f x); [by constructor|done].
Qed.


(** X23. An input without test_id stops [generate_outputs] before
    anything is processed: it raises [KeyError] for test_id, with no call
    to the provider and the state untouched, whichever input lacks the
    id. *)
Theorem missing_id_stops_batch (inputs : list Input) (st : St) :
  Exists (fun input_data : Input => input_data !! "test_id" = None) inputs ->
  outputs inputs st = (Raised (Exn KeyError "'test_id'"), st, []).
Proof.
  intros Hmissing. unfold generate_outputs, bind at 1, logging.
  by rewrite (separate_without_id inputs Hmissing).
Qed.

Lemma Exists_filter_split {A} (P : A -> Prop) f (l : list A) :
  Exists P l ->
  Exists P (List.filter (fun x => negb (f x)) l) \/ Exists P (List.filter f l).
Proof.
  induction 1 as [x l Hx|x l _ IH]; cbn [List.filter].
  - destruct (f x); cbn [negb]; [right|left]; by constructor.
  - destruct (f x); cbn [negb]; destruct IH as [IH|IH];
      try (by left); try (by right).
    + right. by apply Exists_cons_tl.
    + left. by apply Exists_cons_tl.
Qed.

Lemma not_complete_exists inputs :
  Forall (fun input_data : Input => is_Some (input_data !! "test_id")) inputs ->
  Exists (fun input_data : Input =>
            input_data !! "text" = None \/ input_data !! "test_focus" = None)
         inputs ->
  ~ Forall complete inputs.
Proof.
  intros _ Hex Hall. apply Exists_exists in Hex as (d & Hin & Hmiss).
  rewrite Forall_forall in Hall. destruct (Hall d Hin) as (_ & [t Ht] & [f Hf]).
  destruct Hmiss; congruence.
Qed.

(** X24. An input that has its id but lacks its text or its test_focus
    is found late: [generate_outputs] first processes every input, with
    all the calls to the provider this takes, and only then raises
    [KeyError] for the missing key, so that the results are lost.  The
    state and the trace it leaves are those of the two processing
    passes. *)
Theorem missing_field_found_late (inputs : list Input) (st : St) :
  Forall (fun input_data : Input => is_Some (input_data !! "test_id")) inputs ->
  Exists (fun input_data : Input =>
            input_data !! "text" = None \/ input_data !! "test_focus" = None)
         inputs ->
  exists key work_results closing_results st1 st2 tr1 tr2,
    triaging (List.filter (fun d => negb (closing_input d)) inputs) st
    = (Ok work_results, st1, tr1)
    /\ comments (List.filter closing_input inputs) st1
       = (Ok closing_results, st2, tr2)
    /\ outputs inputs st = (Raised (Exn KeyError key), st2, tr1 ++ tr2)
    /\ key ∈ ["'text'"; "'test_focus'"].
Proof.
  intros Hids Hmissing.
  unfold generate_outputs, bind at 1, logging. cbn [fst snd map].
  rewrite (separate_with_ids inputs Hids). cbn [after app].
  unfold bind at 1.
  destruct (process_from_total analyze_work_intent
              (validate_work_triaging_output str_ok float_ok describe) "wt_"
              (List.filter (fun d => negb (closing_input d)) inputs) 1 st)
    as (work_results & st1 & tr1 & Hwork & Hlen1 & _).
  unfold process_work_triaging. rewrite Hwork. cbn [after]. unfold bind at 1.
  destruct (process_from_total generate_closing_comment
              (validate_closing_comment_output str_ok float_ok describe) "cc_"
              (List.filter closing_input inputs) 1 st1)
    as (closing_results & st2 & tr2 & Hclosing & Hlen2 & _).
  unfold process_closing_comments. rewrite Hclosing. cbn [after].
  unfold bind, logging, ret.
  destruct (collate_with_ids work_results _ Hlen1
              (Forall_filter_list _ _ _ Hids))
    as [(work & Hw & Hwall)|(key & Hw & Hkey)].
  2:{ rewrite Hw. cbn [fst snd after map app]. rewrite app_nil_r.
      by exists key, work_results, closing_results, st1, st2, tr1, tr2. }
  rewrite Hw. cbn [fst snd after map app].
  destruct (collate_with_ids closing_results _ Hlen2
              (Forall_filter_list _ _ _ Hids))
    as [(closing & Hc & Hcall)|(key & Hc & Hkey)].
  - exfalso.
    destruct (Exists_filter_split _ closing_input _ Hmissing) as [Hex|Hex].
    + by apply (not_complete_exists _ (Forall_filter_list _ _ _ Hids) Hex).
    + by apply (not_complete_exists _ (Forall_filter_list _ _ _ Hids) Hex).
  - rewrite Hc. cbn [fst snd after map app]. rewrite app_nil_r.
    by exists key, work_results, closing_results, st1, st2, tr1, tr2.
Qed.

End BatchFacts.

(** ** The batch over a provider, and the metrics over the batch *)

Lemma ai_output_lookup_none result key :
  result !! key = None -> Batch.ai_output result !! key = None.
Proof.
  intros Hnone. unfold Batch.ai_output.
  apply map_lookup_filter_None_2. by left.
Qed.

Section BatchOverProvider.
Import Operations Batch.
Context {St : Type}.
Variable provider_name : string.
Variable vendor_call : string -> St -> outcome string * St * list LogRecord.
Variable _switch_to_next_model : St -> bool * St * list LogRecord.
Variable _prompts : gmap string (gmap string string).
Variable format_text : string -> string -> outcome string.
Variable json_loads : string -> outcome json.
Variable write_raw : option string -> string -> string -> St -> option exn * St.
Variable now : St -> Q.
Variable fmt_1f : Q -> string.
Variable time_sleep : Q -> option exn.
Variable str_ok float_ok : json -> bool.
Variable describe : list FieldError -> string.

Abbreviation comment_operation :=
  (generate_closing_comment provider_name vendor_call _switch_to_next_model
     _prompts format_text json_loads write_raw now fmt_1f time_sleep str_ok float_ok describe).
Abbreviation intent_operation :=
  (analyze_work_intent provider_name vendor_call _switch_to_next_model
     _prompts format_text json_loads write_raw now fmt_1f time_sleep str_ok float_ok describe).
Abbreviation step_failure :=
  (step_fails provider_name vendor_call _switch_to_next_model json_loads fmt_1f time_sleep).


End BatchOverProvider.

Section MetricsFacts.
Import Batch Metrics.
Variable str_ok float_ok : json -> bool.
Variable describe : list FieldError -> string.
Variable py_str : json -> string.

(** X26. How the metrics count a failed item.  The entry that
    [generate_outputs] builds for an item recorded as failed holds, as
    its system_output, the id, the focus and the preview of the input.
    [_is_wt_schema_compliant] accepts it, since every list of the
    triaging schema has a default and other keys are ignored, and logs
    nothing; [_is_cc_schema_compliant] rejects it; and its category is
    unknown. *)
Theorem failed_item_counts_as_compliant (test_id text : string)
    (input_data : Input) (e : exn) (item : gmap string json) :
  entry input_data (error_result test_id input_data text e) = Ok (JObj item) ->
  _is_wt_schema_compliant str_ok float_ok describe py_str item = (true, [])
  /\ (_is_cc_schema_compliant str_ok float_ok describe py_str item).1 = false
  /\ _extract_category (ai_output (error_result test_id input_data text e))
     = "unknown".
Proof.
  unfold entry.
  destruct (getitem input_data "test_id") as [id|]; [|done].
  destruct (getitem input_data "text") as [t|]; [|done].
  destruct (getitem input_data "test_focus") as [focus|]; [|done].
  intros [= <-].
  assert (forall key,
             error_result test_id input_data text e !! key = None ->
             ai_output (error_result test_id input_data text e) !! key = None)
    as Hnone by (intros key; apply ai_output_lookup_none).
  unfold _is_wt_schema_compliant, _is_cc_schema_compliant, schema_compliant.
  match goal with
  | |- context [?m !! "system_output"] =>
      assert (m !! "system_output"
              = Some (JObj (ai_output
                              (error_result test_id input_data text e))))
        as -> by reflexivity
  end.
  cbn iota.
  unfold validate_work_triaging_output, validate_closing_comment_output,
    guarded, new_WorkItemTriagingOutput, new_ClosingCommentOutput.
  cbn [flat_map WorkItemTriagingOutput ClosingCommentOutput app].
  unfold check_list, check_field. cbn [fst snd].
  rewrite (Hnone "work_requests" eq_refl), (Hnone "work_orders" eq_refl),
    (Hnone "inspection_tasks" eq_refl), (Hnone "general_tasks" eq_refl),
    (Hnone "closing_comment" eq_refl).
  cbn [app construct fst snd].
  split_and!; [done|done|].
  unfold _extract_category, holds.
  by rewrite (Hnone "work_requests" eq_refl), (Hnone "work_orders" eq_refl),
    (Hnone "inspection_tasks" eq_refl), (Hnone "general_tasks" eq_refl).
Qed.

End MetricsFacts.

(** ** What the structure check lets through *)

Section StructureCheck.
Import Operations.
Context {St : Type}.
Variable str_ok float_ok : json -> bool.
Variable describe : list FieldError -> string.

Abbreviation structure_check :=
  (_validate_json_structure (St:=St) str_ok float_ok describe).

(** X27. [_validate_json_structure] accepts every object that holds
    none of the keys closing_comment, work_requests, work_orders,
    inspection_tasks and general_tasks, the empty object included: such
    a reply passes as a classification with no work item. *)
Theorem unrelated_object_passes (fields : gmap string json) (st : St) :
  fields !! "closing_comment" = None ->
  (forall key,
      key ∈ ["work_requests"; "work_orders"; "inspection_tasks";
             "general_tasks"] ->
      fields !! key = None) ->
  structure_check (JObj fields) st = (Ok true, st, []).
Proof.
  intros Hcomment Hlists.
  unfold _validate_json_structure, bind, logging, has_closing_comment.
  cbn [fst snd after map app].
  rewrite bool_decide_eq_false_2; [|rewrite Hcomment; by intros [? ?]].
  unfold validate_output. cbn [String.eqb Ascii.eqb Bool.eqb].
  unfold validate_work_triaging_output, guarded, new_WorkItemTriagingOutput.
  cbn [flat_map WorkItemTriagingOutput app]. unfold check_list. cbn [fst snd].
  rewrite !Hlists by (rewrite !elem_of_cons; auto 6).
  done.
Qed.

(** X28. The key closing_comment alone decides which schema is checked:
    an object that holds it with a text, and a downtime that is absent,
    null or a number, passes [_validate_json_structure] whatever else it
    holds, so that its work item lists are not checked at all. *)
Theorem comment_key_skips_triage_check (fields : gmap string json)
    (comment : json) (st : St) :
  fields !! "closing_comment" = Some comment ->
  str_ok comment = true ->
  check_field str_ok float_ok fields ("actual_downtime_hours", OptionalFloat)
  = [] ->
  structure_check (JObj fields) st = (Ok true, st, []).
Proof.
  intros Hcomment Hstr Hdowntime.
  unfold _validate_json_structure, bind, logging, has_closing_comment.
  cbn [fst snd after map app].
  rewrite bool_decide_eq_true_2 by by rewrite Hcomment.
  unfold validate_output. cbn [String.eqb Ascii.eqb Bool.eqb].
  unfold validate_closing_comment_output, guarded, new_ClosingCommentOutput.
  cbn [flat_map ClosingCommentOutput app]. rewrite Hdowntime.
  unfold check_field. cbn [fst snd]. by rewrite Hcomment, Hstr.
Qed.

End StructureCheck.

(** ** The properties above on sample runs *)

Lemma api_config_key_clean_witness :
  Config.get_api_config sample_env "m" "Claude"
  = (Ok {| Config.api_key := "skant-1"; Config.model := "m";
           Config.provider_class := "ClaudeProvider" |}, [])
  /\ Config.has_char " " "skant-1" = false.
Proof.
  split; [reflexivity|].
  destruct (api_config_key_clean sample_env "m" "Claude" _ _ eq_refl)
    as (_ & _ & [(_ & _ & Hspace & _)|(Hname & _)]);
    [exact Hspace|discriminate Hname].
Defined.

Lemma unusable_key_refused_witness :
  Config.get_api_config sample_env "m" "GEMINI"
  = (Raised (Exn ValueError
               "GEMINI_API_KEY not found or not configured in environment variables"),
     [Log error "GEMINI_API_KEY not found or not configured in environment variables for provider 'gemini'"]).
Proof.
  exact (proj1 (proj2 (unusable_key_refused sample_env "m" "GEMINI"))
           eq_refl (or_intror eq_refl)).
Defined.

Lemma factory_builds_requested_provider_witness :
  Config.create_ai_provider (build_named "claude") (build_named "gemini")
    "m" 0%Q sample_env "Claude" "claude-3-opus-20240229" None tt
  = build_named "claude" "skant-1" "claude-3-opus-20240229" 0%Q tt.
Proof.
  exact (proj1 (factory_builds_requested_provider
                  (build_named "claude") (build_named "gemini") "m" 0%Q
                  sample_env "Claude" "claude-3-opus-20240229" None tt)
           {| Config.api_key := "skant-1"; Config.model := "m";
              Config.provider_class := "ClaudeProvider" |} [] eq_refl).
Defined.



Lemma missing_id_stops_batch_witness :
  Batch.generate_outputs operation_down operation_down strict_str
    strict_float (fun _ => "invalid")
    (sample_inputs ++ [ {[ "text" := "no id" ]} ]) tt
  = (Raised (Exn KeyError "'test_id'"), tt, []).
Proof.
  apply missing_id_stops_batch.
  do 3 apply Exists_cons_tl. apply Exists_cons_hd. reflexivity.
Defined.

Lemma missing_field_found_late_witness :
  exists key work_results closing_results st1 st2 tr1 tr2,
    Batch.process_work_triaging operation_down strict_str strict_float
      (fun _ => "invalid")
      (List.filter (fun d => negb (Batch.closing_input d))
                   [input_without_focus]) tt
    = (Ok work_results, st1, tr1)
    /\ Batch.process_closing_comments operation_down strict_str strict_float
         (fun _ => "invalid")
         (List.filter Batch.closing_input [input_without_focus]) st1
       = (Ok closing_results, st2, tr2)
    /\ Batch.generate_outputs operation_down operation_down strict_str
         strict_float (fun _ => "invalid") [input_without_focus] tt
       = (Raised (Exn KeyError key), st2, tr1 ++ tr2)
    /\ key ∈ ["'text'"; "'test_focus'"].
Proof.
  apply missing_field_found_late.
  - repeat constructor. by eexists.
  - apply Exists_cons_hd. by right.
Defined.


Lemma failed_item_counts_as_compliant_witness :
  Metrics._is_wt_schema_compliant strict_str strict_float
    (fun _ => "invalid") (fun _ => "?")
    (list_to_map
       [ ("id", JStr "wt_001"); ("input", JStr "pump P-101 is leaking");
         ("system_output",
          JObj (Batch.ai_output
                  (Batch.error_result "wt_001"
                     {[ "test_id" := "wt_001";
                        "text" := "pump P-101 is leaking";
                        "test_focus" := "basic" ]}
                     "pump P-101 is leaking"
                     (Exn ValueError "provider is down"))));
         ("test_focus", JStr "basic") ])
  = (true, []).
Proof.
  exact (proj1 (failed_item_counts_as_compliant strict_str strict_float
                  (fun _ => "invalid") (fun _ => "?")
                  "wt_001" "pump P-101 is leaking"
                  {[ "test_id" := "wt_001"; "text" := "pump P-101 is leaking";
                     "test_focus" := "basic" ]}
                  (Exn ValueError "provider is down") _ eq_refl)).
Defined.

Lemma unrelated_object_passes_witness :
  _validate_json_structure strict_str strict_float (fun _ => "invalid")
    (JObj {[ "note" := JStr "nothing to do" ]}) tt
  = (Ok true, tt, []).
Proof.
  apply unrelated_object_passes; [reflexivity|].
  intros key Hkey. rewrite !elem_of_cons in Hkey.
  destruct Hkey as [->|[->|[->|[->|Hnil]]]]; try reflexivity.
  by apply elem_of_nil in Hnil.
Defined.

Lemma comment_key_skips_triage_check_witness :
  _validate_json_structure strict_str strict_float (fun _ => "invalid")
    (JObj {[ "closing_comment" := JStr "done";
             "work_requests" := JStr "not a list" ]}) tt
  = (Ok true, tt, []).
Proof.
  exact (comment_key_skips_triage_check strict_str strict_float
           (fun _ => "invalid")
           {[ "closing_comment" := JStr "done";
              "work_requests" := JStr "not a list" ]}
           (JStr "done") tt eq_refl eq_refl eq_refl).
Defined.

(** ** The check of the configuration values *)

Section ConfigValuesFacts.
Import ConfigValues.
Variable py_repr : json -> string.

Abbreviation check := (_validate_config_values py_repr).

Lemma critical_mention word a b :
  word = "ai_provider" \/ word = "temperature" ->
  critical (a +:+ word +:+ b) = true.
Proof.
  unfold critical. intros [-> | ->]; rewrite contains_app;
    [done|by rewrite orb_true_r].
Qed.

Lemma critical_provider rest :
  critical ("Invalid ai_provider: " +:+ rest) = true.
Proof.
  change ("Invalid ai_provider: " +:+ rest)
    with ("Invalid " +:+ "ai_provider" +:+ (": " +:+ rest)).
  apply critical_mention. by left.
Qed.

Lemma critical_temperature rest :
  critical ("Invalid temperature: " +:+ rest) = true.
Proof.
  change ("Invalid temperature: " +:+ rest)
    with ("Invalid " +:+ "temperature" +:+ (": " +:+ rest)).
  apply critical_mention. by right.
Qed.

Lemma filter_critical_app l w :
  critical w = true -> List.filter critical (l ++ [w]) <> [].
Proof.
  intros Hw. rewrite List.filter_app. cbn [List.filter]. rewrite Hw.
  by destruct (List.filter critical l).
Qed.

Lemma filter_critical_more l w :
  List.filter critical l <> [] -> List.filter critical (l ++ [w]) <> [].
Proof.
  intros Hl. rewrite List.filter_app.
  by destruct (List.filter critical l).
Qed.

Lemma filter_critical_keep (b : bool) l w :
  List.filter critical l <> [] ->
  List.filter critical (if b then l else l ++ [w]) <> [].
Proof. destruct b; [done|apply filter_critical_more]. Qed.

(** X29. What [_validate_config_values] raises on.  With a numeric
    temperature, an unknown ai_provider or a temperature outside 0..1
    raises [ValueError], whatever the other values.  The critical
    warnings are picked by their text, so that, with provider,
    temperature, paths and validate_outputs all valid, a
    parallel_processing that is not a boolean only logs one warning and
    returns when it is null, but raises [ValueError] when it is a text
    that mentions temperature or ai_provider.  A configuration with no
    invalid value returns and logs nothing. *)
Theorem config_critical_by_text (self : SimpleConfig) :
  (forall t,
      as_number (temperature self) = Some t ->
      known_provider (ai_provider self) = false
      \/ Qle_bool 0 t && Qle_bool t 1 = false ->
      exists message lines,
        check self = (Raised (Exn ValueError message), lines))
  /\ (sound self ->
      (is_bool (parallel_processing self) = true -> check self = (Ok tt, []))
      /\ (parallel_processing self = JNull ->
          check self
          = (Ok tt,
             [Log warning "Configuration warning: Invalid parallel_processing: None. Must be boolean"]))
      /\ (forall text,
             parallel_processing self = JStr text ->
             contains "temperature" text = true
             \/ contains "ai_provider" text = true ->
             exists message lines,
               check self = (Raised (Exn ValueError message), lines))).
Proof.
  split.
  - intros t Ht Hbad. unfold _validate_config_values. rewrite Ht.
    match goal with
    | |- context [List.filter critical ?l] =>
        assert (List.filter critical l <> []) as Hne
    end.
    { do 5 apply filter_critical_keep.
      destruct Hbad as [Hp|Hr].
      - rewrite Hp. destruct (Qle_bool 0 t && Qle_bool t 1).
        + cbn [List.filter]. by rewrite critical_provider.
        + apply filter_critical_more. cbn [List.filter].
          by rewrite critical_provider.
      - rewrite Hr. apply filter_critical_app, critical_temperature. }
    destruct (List.filter critical _); [done|]. by eexists _, _.
  - intros (Hp & (t & Ht & Hr) & Hv & Hi & Ho & Hl).
    unfold _validate_config_values. rewrite Ht, Hp, Hr, Hv, Hi, Ho, Hl.
    split_and!.
    + by intros ->.
    + by intros ->.
    + intros text -> Hmention. cbn [is_bool py_str app].
      assert (critical ("Invalid parallel_processing: " +:+ text
                        +:+ ". Must be boolean") = true) as Hc.
      { destruct Hmention as [(a & b & ->)%contains_split
                             |(a & b & ->)%contains_split].
        - rewrite !append_assoc, <- (append_assoc _ a).
          apply critical_mention. by right.
        - rewrite !append_assoc, <- (append_assoc _ a).
          apply critical_mention. by left. }
      cbn [List.filter]. rewrite Hc. by eexists _, _.
Qed.

End ConfigValuesFacts.

Lemma sample_config_sound parallel_processing :
  ConfigValues.sound (sample_config parallel_processing).
Proof.
  unfold ConfigValues.sound. split_and!; try reflexivity.
  by exists 0%Q.
Defined.

Lemma config_critical_by_text_witness :
  ConfigValues._validate_config_values (fun _ => "?") (sample_config JNull)
  = (Ok tt,
     [Log warning "Configuration warning: Invalid parallel_processing: None. Must be boolean"])
  /\ exists message lines,
      ConfigValues._validate_config_values (fun _ => "?")
        (sample_config (JStr "use the temperature"))
      = (Raised (Exn ValueError message), lines).
Proof.
  split.
  - exact (proj1 (proj2 (proj2 (config_critical_by_text (fun _ => "?")
                                   (sample_config JNull))
                           (sample_config_sound JNull))) eq_refl).
  - exact (proj2 (proj2 (proj2 (config_critical_by_text (fun _ => "?")
                                   (sample_config (JStr "use the temperature")))
                           (sample_config_sound _)))
             "use the temperature" eq_refl (or_introl eq_refl)).
Defined.

(** ** The fallback over a whole operation *)

Section FallbackWalk.
Variable fmt_1f : Q -> string.
Variable time_sleep : Q -> option exn.
Variable message prompt operation : string.
Hypothesis unavailable :
  forall attempts_remain,
    classify_spec message attempts_remain = (model_unavailable, true).
(** [time.sleep] takes the delays of the first two attempts, one second
    and two seconds. *)
Hypothesis waits_taken : time_sleep 1 = None /\ time_sleep 2 = None.

Abbreviation walk :=
  (retry_loop (Adapters.make_claude_call (refuses_all message) prompt)
              Adapters.claude_switch fmt_1f time_sleep operation 3 1 "Claude").
Abbreviation on_model primary i :=
  {| Claude.primary_model := primary;
     Claude.available_models := Claude.claude_models;
     Claude.current_model_index := i |}.

Lemma model_error_classified attempt :
  exists logged,
    _handle_api_error message attempt 3 operation "Claude"
    = ((true, model_unavailable), logged).
Proof.
  pose proof (handle_api_error_spec message attempt 3 operation "Claude") as H.
  rewrite unavailable in H.
  destruct (_handle_api_error message attempt 3 operation "Claude")
    as [[retry ty] logged].
  cbn [fst] in H. injection H as -> ->. by exists logged.
Qed.

Lemma claude_step remaining attempt primary i asked delay :
  (i < 3)%nat -> attempt < 3 ->
  _get_retry_delay attempt 1 = Ok delay -> time_sleep delay = None ->
  exists pre,
    walk (S remaining) attempt (on_model primary i, asked)
    = after (ECall :: pre)
        (walk remaining (attempt + 1)
           (on_model primary (S i `min` 2),
            asked ++ [model_at Claude.claude_models i]))
    /\ calls pre = 0%nat.
Proof.
  intros Hi Hlt Hdelay Hsleep.
  destruct (model_error_classified attempt) as [logged Hc].
  assert (exists m, Claude.claude_models !! i = Some m) as [m Hm]
    by (apply lookup_lt_is_Some_2; exact Hi).
  destruct (loop_retry_slept
              (Adapters.make_claude_call (refuses_all message) prompt)
              Adapters.claude_switch fmt_1f time_sleep operation 3 1 "Claude"
              remaining attempt (on_model primary i, asked)
              (Exn VendorError message)
              (on_model primary i, asked ++ [m]) [] true model_unavailable
              logged delay) as [_ ->]; [|exact Hc|done|done|done|done|].
  { unfold Adapters.make_claude_call. cbn [fst snd Claude.available_models
      Claude.current_model_index]. by rewrite Hm. }
  rewrite maybe_switch_model.
  assert (model_at Claude.claude_models i = m) as ->
    by (unfold model_at; by rewrite Hm).
  destruct i as [|[|[|i]]]; [| | |lia]; cbn [Nat.min];
    (eexists; split; [reflexivity|]);
    rewrite !calls_app, !calls_logs; reflexivity.
Qed.

Lemma claude_last remaining primary i asked :
  (i < 3)%nat ->
  exists pre,
    walk (S remaining) 3 (on_model primary i, asked)
    = (Raised (Exn Exception (exhausted_message operation 3)),
       (on_model primary i, asked ++ [model_at Claude.claude_models i]),
       ECall :: pre)
    /\ calls pre = 0%nat.
Proof.
  intros Hi.
  destruct (model_error_classified 3) as [logged Hc].
  assert (exists m, Claude.claude_models !! i = Some m) as [m Hm]
    by (apply lookup_lt_is_Some_2; exact Hi).
  rewrite (loop_exhausted
             (Adapters.make_claude_call (refuses_all message) prompt)
             Adapters.claude_switch fmt_1f time_sleep operation 3 1 "Claude"
             remaining 3 (on_model primary i, asked)
             (Exn VendorError message)
             (on_model primary i, asked ++ [m]) [] true model_unavailable
             logged); [| |exact Hc|done|lia].
  2:{ unfold Adapters.make_claude_call. cbn [fst snd Claude.available_models
        Claude.current_model_index]. by rewrite Hm. }
  assert (model_at Claude.claude_models i = m) as ->
    by (unfold model_at; by rewrite Hm).
  eexists. split; [reflexivity|].
  rewrite !calls_app, !calls_logs. reflexivity.
Qed.

(** X30. The fallback over one operation of the Claude adapter.  When
    the vendor refuses every model with an error that is classified as
    model_unavailable, [_make_api_call] calls three times, each time
    with the next model of the fallback list as long as there is one:
    from the starting index s the models asked for are those at s,
    min(s+1, 2) and min(s+2, 2), the adapter is left on the last of
    them, and the exhaustion error is raised.  This is so when
    [time.sleep] takes the two waits, of one and two seconds. *)
Theorem claude_fallback_walk (configured : string) (test_id : option string) :
  let p := (Claude.init configured).1 in
  let s := Claude.current_model_index p in
  let run :=
    Operations._make_api_call "Claude"
      (Adapters.make_claude_call (refuses_all message)) Adapters.claude_switch
      fmt_1f time_sleep prompt operation test_id (p, []) in
  run.1.1 = Raised (Exn Exception (exhausted_message operation 3))
  /\ run.1.2.2
     = map (model_at Claude.claude_models)
           [s; (s + 1) `min` 2; (s + 2) `min` 2]%nat
  /\ Claude.current_model_index run.1.2.1 = ((s + 2) `min` 2)%nat
  /\ calls run.2 = 3%nat.
Proof.
  cbn zeta.
  assert (exists i, (i < 3)%nat
                    /\ (Claude.init configured).1 = on_model configured i)
    as (i & Hi & ->).
  { unfold Claude.init.
    destruct (list_index configured Claude.claude_models) as [i|] eqn:Hidx.
    - exists i. split; [|done].
      apply list_index_lookup, lookup_lt_Some in Hidx. exact Hidx.
    - exists 0%nat. split; [lia|done]. }
  cbn [Claude.current_model_index].
  unfold Operations._make_api_call, _execute_with_retry.
  change (Z.to_nat 3) with 3%nat.
  destruct (claude_step 2 1 configured i [] 1%Q Hi)
    as (pre1 & -> & Hq1); [lia|reflexivity|exact (proj1 waits_taken)|].
  destruct (claude_step 1 (1 + 1) configured (S i `min` 2)
              ([] ++ [model_at Claude.claude_models i]) 2%Q)
    as (pre2 & -> & Hq2); [lia|lia|reflexivity|exact (proj2 waits_taken)|].
  destruct (claude_last 0 configured (S (S i `min` 2) `min` 2)
              (([] ++ [model_at Claude.claude_models i])
               ++ [model_at Claude.claude_models (S i `min` 2)]))
    as (pre3 & Hlast & Hq3); [lia|].
  change (1 + 1 + 1) with 3. rewrite Hlast. cbn [after fst snd app].
  replace (S (S i `min` 2) `min` 2)%nat with ((i + 2) `min` 2)%nat by lia.
  replace (S i `min` 2)%nat with ((i + 1) `min` 2)%nat by lia.
  split_and!; [done|done|done|].
  rewrite calls_cons, calls_app, calls_cons, calls_app, calls_cons.
  rewrite Hq1, Hq2, Hq3. reflexivity.
Qed.

End FallbackWalk.

Lemma claude_fallback_walk_witness :
  let run :=
    Operations._make_api_call "Claude"
      (Adapters.make_claude_call (refuses_all "model XYZ not found"))
      Adapters.claude_switch fmt_plain python_sleep "Classify: pump" "ANALYZE_WORK_INTENT"
      None ((Claude.init "claude-3-5-haiku-20241022").1, []) in
  run.1.2.2
  = ["claude-3-5-haiku-20241022"; "claude-3-opus-20240229";
     "claude-3-opus-20240229"]
  /\ calls run.2 = 3%nat.
Proof.
  destruct (claude_fallback_walk fmt_plain python_sleep "model XYZ not found"
              "Classify: pump" "ANALYZE_WORK_INTENT"
              (fun attempts_remain => eq_refl) (conj eq_refl eq_refl)
              "claude-3-5-haiku-20241022" None) as (_ & Hasked & _ & Hcalls).
  split; [exact Hasked|exact Hcalls].
Defined.
